(** * nfsusage: a shallow embedding of [main.go] and its specification

    The program samples the used bytes of every NFS mount with [df],
    appends the sample to a JSON history file and prints either the
    sample or a comparison with the oldest stored sample.

    Go values are modelled as follows.
    - [int64] is [Z] with the two's-complement wrap-around written out
      ([wrap64]); [rune] and [byte] values are [Z] as well.
    - [string] is [String.string]: a sequence of 8-bit [ascii] bytes,
      exactly Go's byte strings.
    - [map[string]int64] is [option (gmap string Z)]; [None] is the nil
      map, which reads like an empty map but is encoded as [null].
    - [[]UsageEntry] is [option (list UsageEntry)], [None] the nil slice.
    - the operating system (mount table, [df], clock, files) is an
      explicit environment record; output is returned, not performed. *)

From Stdlib Require Import ZArith Ascii String List Lia Bool.
From stdpp Require Import gmap strings list fin_maps sorting.

Local Open Scope Z_scope.

#[local] Set Warnings "-register-all".

(** ** 64-bit integers *)

Module Int64.

Definition min_int64 : Z := - 2 ^ 63.
Definition max_int64 : Z := 2 ^ 63 - 1.

Definition in_range (z : Z) : Prop := min_int64 <= z <= max_int64.

(** The value an [int64] register holds after an operation whose exact
    result is [z]. *)
Definition wrap64 (z : Z) : Z := (z + 2 ^ 63) mod 2 ^ 64 - 2 ^ 63.

Definition add64 (a b : Z) : Z := wrap64 (a + b).
Definition sub64 (a b : Z) : Z := wrap64 (a - b).
Definition neg64 (a : Z) : Z := wrap64 (- a).

End Int64.
Export Int64.

(** ** Bytes and strings *)

Definition byte_val (c : ascii) : Z := Z.of_N (N_of_ascii c).
Definition byte_of (z : Z) : ascii := ascii_of_N (Z.to_N z).

Definition LF : ascii := "010".
Definition CR : ascii := "013".
Definition SP : ascii := " ".
Definition DQUOTE : ascii := "034".
Definition BSLASH : ascii := "092".

(** [len(s)]: the number of bytes. *)
Definition len (s : string) : Z := Z.of_nat (String.length s).

Fixpoint string_rev_app (s acc : string) : string :=
  match s with
  | EmptyString => acc
  | String c s' => string_rev_app s' (String c acc)
  end.

Definition string_rev (s : string) : string := string_rev_app s EmptyString.

Fixpoint string_drop (n : nat) (s : string) : string :=
  match n, s with
  | O, _ => s
  | S n', String _ s' => string_drop n' s'
  | S _, EmptyString => EmptyString
  end.

Fixpoint string_take (n : nat) (s : string) : string :=
  match n, s with
  | S n', String c s' => String c (string_take n' s')
  | _, _ => EmptyString
  end.

Module strings.

(** [strings.Contains(s, substr)]. *)
Fixpoint Contains (s substr : string) : bool :=
  if String.prefix substr s then true
  else match s with
       | EmptyString => false
       | String _ s' => Contains s' substr
       end.

(** [strings.Split(s, sep)] for a separator of one byte, the only way
    the program calls it. The result is never empty. *)
Fixpoint Split (s : string) (sep : ascii) : list string :=
  match s with
  | EmptyString => [EmptyString]
  | String c s' =>
      if Ascii.eqb c sep then EmptyString :: Split s' sep
      else match Split s' sep with
           | [] => [String c EmptyString]
           | f :: fs => String c f :: fs
           end
  end.

(** [strings.Join(elems, sep)]. *)
Fixpoint Join (elems : list string) (sep : string) : string :=
  match elems with
  | [] => EmptyString
  | [e] => e
  | e :: es => e +:+ sep +:+ Join es sep
  end.

(** [strings.Repeat(s, count)] for a count that is not negative. *)
Fixpoint Repeat (s : string) (count : nat) : string :=
  match count with
  | O => EmptyString
  | S n => s +:+ Repeat s n
  end.

End strings.

(** ** [unicode/utf8] *)

Module utf8.

Definition RuneError : Z := 65533.
Definition MaxRune : Z := 1114111.
Definition RuneSelf : Z := 128.

Definition locb : Z := 128.
Definition hicb : Z := 191.

(** What the table [first] says about a leading byte: the length of the
    sequence it starts and the range its second byte must lie in. *)
Inductive lead : Type :=
| LeadAscii
| LeadInvalid
| LeadSeq (size : nat) (lo hi : Z).

Definition first (p0 : Z) : lead :=
  if p0 <? 128 then LeadAscii
  else if p0 <? 194 then LeadInvalid
  else if p0 <? 224 then LeadSeq 2 locb hicb
  else if p0 =? 224 then LeadSeq 3 160 hicb
  else if p0 <? 237 then LeadSeq 3 locb hicb
  else if p0 =? 237 then LeadSeq 3 locb 159
  else if p0 <? 240 then LeadSeq 3 locb hicb
  else if p0 =? 240 then LeadSeq 4 144 hicb
  else if p0 <? 244 then LeadSeq 4 locb hicb
  else if p0 =? 244 then LeadSeq 4 locb 143
  else LeadInvalid.

Definition cont (b : Z) : bool := (locb <=? b) && (b <=? hicb).

(** The bytes after the leading byte [p0] of a sequence of [sz] bytes
    whose second byte must lie in [lo..hi]. *)
Definition decode_seq (sz : nat) (lo hi p0 : Z) (s1 : string) : Z * nat :=
  match s1 with
  | EmptyString => (RuneError, 1%nat)
  | String c1 s2 =>
      let b1 := byte_val c1 in
      if (b1 <? lo) || (hi <? b1) then (RuneError, 1%nat)
      else if (sz <=? 2)%nat then
        (Z.lor (Z.shiftl (Z.land p0 31) 6) (Z.land b1 63), 2%nat)
      else
        match s2 with
        | EmptyString => (RuneError, 1%nat)
        | String c2 s3 =>
            let b2 := byte_val c2 in
            if negb (cont b2) then (RuneError, 1%nat)
            else if (sz <=? 3)%nat then
              (Z.lor (Z.lor (Z.shiftl (Z.land p0 15) 12)
                            (Z.shiftl (Z.land b1 63) 6))
                     (Z.land b2 63), 3%nat)
            else
              match s3 with
              | EmptyString => (RuneError, 1%nat)
              | String c3 _ =>
                  let b3 := byte_val c3 in
                  if negb (cont b3) then (RuneError, 1%nat)
                  else
                    (Z.lor (Z.lor (Z.lor (Z.shiftl (Z.land p0 7) 18)
                                         (Z.shiftl (Z.land b1 63) 12))
                                  (Z.shiftl (Z.land b2 63) 6))
                           (Z.land b3 63), 4%nat)
              end
        end
  end.

(** [utf8.DecodeRuneInString(s)]: the rune and its width in bytes;
    [(RuneError, 0)] on the empty string and [(RuneError, 1)] on an
    encoding that is not valid. *)
Definition DecodeRuneInString (s : string) : Z * nat :=
  match s with
  | EmptyString => (RuneError, 0%nat)
  | String c0 s1 =>
      let p0 := byte_val c0 in
      match first p0 with
      | LeadAscii => (p0, 1%nat)
      | LeadInvalid => (RuneError, 1%nat)
      | LeadSeq sz lo hi => decode_seq sz lo hi p0 s1
      end
  end.

(** [utf8.EncodeRune]: the bytes appended for rune [r]. Runes out of
    range and surrogate halves are written as [RuneError]. *)
Definition enc3 (r : Z) : string :=
  String (byte_of (Z.lor 224 (Z.shiftr r 12)))
    (String (byte_of (Z.lor 128 (Z.land (Z.shiftr r 6) 63)))
       (String (byte_of (Z.lor 128 (Z.land r 63))) EmptyString)).

Definition EncodeRune (r : Z) : string :=
  if (r <? 0) || (MaxRune <? r) then enc3 RuneError
  else if r <=? 127 then String (byte_of r) EmptyString
  else if r <=? 2047 then
    String (byte_of (Z.lor 192 (Z.shiftr r 6)))
      (String (byte_of (Z.lor 128 (Z.land r 63))) EmptyString)
  else if (55296 <=? r) && (r <=? 57343) then enc3 RuneError
  else if r <=? 65535 then enc3 r
  else
    String (byte_of (Z.lor 240 (Z.shiftr r 18)))
      (String (byte_of (Z.lor 128 (Z.land (Z.shiftr r 12) 63)))
         (String (byte_of (Z.lor 128 (Z.land (Z.shiftr r 6) 63)))
            (String (byte_of (Z.lor 128 (Z.land r 63))) EmptyString))).

(** The runes of a string in order, each with the bytes it was decoded
    from: what [for i, r := range s] visits. *)
Fixpoint runes_fuel (fuel : nat) (s : string) : list (Z * string) :=
  match fuel with
  | O => []
  | S fuel' =>
      match s with
      | EmptyString => []
      | _ =>
          let '(r, size) := DecodeRuneInString s in
          (r, string_take size s) :: runes_fuel fuel' (string_drop size s)
      end
  end.

Definition runes (s : string) : list (Z * string) :=
  runes_fuel (String.length s) s.

Definition RuneCountInString (s : string) : nat := List.length (runes s).

(** [utf8.ValidString]. *)
Definition ValidString (s : string) : bool :=
  forallb (fun rs => negb ((fst rs =? RuneError) && (String.length (snd rs) =? 1)%nat))
          (runes s).

End utf8.

(** ** [unicode] and [strings.Fields] *)

Module unicode.

(** [unicode.IsSpace]: the Latin-1 spaces, then the White_Space table. *)
Definition IsSpace (r : Z) : bool :=
  if r <=? 255 then
    ((9 <=? r) && (r <=? 13)) || (r =? 32) || (r =? 133) || (r =? 160)
  else
    (r =? 5760) || ((8192 <=? r) && (r <=? 8202)) || (r =? 8232) ||
    (r =? 8233) || (r =? 8239) || (r =? 8287) || (r =? 12288).

End unicode.

Module Fields.

(** The table [asciiSpace] of package [strings]. *)
Definition asciiSpace (c : ascii) : bool :=
  let b := byte_val c in ((9 <=? b) && (b <=? 13)) || (b =? 32).

Definition close_field (cur : option string) (rest : list string) : list string :=
  match cur with
  | Some f => f :: rest
  | None => rest
  end.

Definition extend_field (cur : option string) (bytes : string) : option string :=
  Some (default EmptyString cur +:+ bytes).

(** The ASCII fast path: fields are the maximal runs of bytes that are
    not in [asciiSpace]. [cur] is the field being read, if any. *)
Fixpoint fields_ascii (s : string) (cur : option string) : list string :=
  match s with
  | EmptyString => close_field cur []
  | String c s' =>
      if asciiSpace c then close_field cur (fields_ascii s' None)
      else fields_ascii s' (extend_field cur (String c EmptyString))
  end.

(** [strings.FieldsFunc(s, f)], over the runes of [s]. *)
Fixpoint FieldsFunc_loop (f : Z -> bool) (rs : list (Z * string))
         (cur : option string) : list string :=
  match rs with
  | [] => close_field cur []
  | (r, bytes) :: rs' =>
      if f r then close_field cur (FieldsFunc_loop f rs' None)
      else FieldsFunc_loop f rs' (extend_field cur bytes)
  end.

Definition FieldsFunc (s : string) (f : Z -> bool) : list string :=
  FieldsFunc_loop f (utf8.runes s) None.

Fixpoint all_ascii (s : string) : bool :=
  match s with
  | EmptyString => true
  | String c s' => (byte_val c <? utf8.RuneSelf) && all_ascii s'
  end.

(** [strings.Fields(s)]: the fast path when every byte is ASCII, and
    [FieldsFunc(s, unicode.IsSpace)] otherwise. *)
Definition Fields (s : string) : list string :=
  if all_ascii s then fields_ascii s None
  else FieldsFunc s unicode.IsSpace.

End Fields.

(** ** [strconv] *)

Module strconv.

Inductive NumError : Type := ErrSyntax | ErrRange.

Definition maxUint64 : Z := 2 ^ 64 - 1.

Definition is_digit (c : ascii) : bool :=
  (48 <=? byte_val c) && (byte_val c <=? 57).

(** The loop of [ParseUint(s, 10, 64)]; [n] is the value read so far.
    A byte that is not a decimal digit is a syntax error (letters are
    digits of larger bases and are refused by [d >= base]); the value
    leaving 64 bits is a range error, reported at once. *)
Fixpoint ParseUint_loop (s : string) (n : Z) : NumError + Z :=
  match s with
  | EmptyString => inr n
  | String c s' =>
      if is_digit c then
        let d := byte_val c - 48 in
        if n >=? maxUint64 / 10 + 1 then inl ErrRange
        else
          let n10 := n * 10 in
          let n1 := (n10 + d) mod 2 ^ 64 in
          if (n1 <? n10) || (n1 >? maxUint64) then inl ErrRange
          else ParseUint_loop s' n1
      else inl ErrSyntax
  end.

Definition ParseUint (s : string) : NumError + Z :=
  match s with
  | EmptyString => inl ErrSyntax
  | _ => ParseUint_loop s 0
  end.

(** [strconv.ParseInt(s, 10, 64)]. On an error Go also returns a
    number (0 or the nearest bound); every caller here drops it. *)
Definition ParseInt (s : string) : NumError + Z :=
  match s with
  | EmptyString => inl ErrSyntax
  | String c s' =>
      let neg := Ascii.eqb c "-" in
      let digits := if Ascii.eqb c "+" || neg then s' else s in
      match ParseUint digits with
      | inl ErrSyntax => inl ErrSyntax
      | inl ErrRange => inl ErrRange
      | inr un =>
          let cutoff := 2 ^ 63 in
          if negb neg && (un >=? cutoff) then inl ErrRange
          else if neg && (un >? cutoff) then inl ErrRange
          else inr (if neg then wrap64 (- wrap64 un) else wrap64 un)
      end
  end.

Definition digit_char (d : Z) : ascii := byte_of (48 + d).

(** The digit loop of [formatBits]: least significant digit first,
    written in front of what is already there. *)
Fixpoint FormatUint_loop (fuel : nat) (u : Z) (acc : string) : string :=
  match fuel with
  | O => acc
  | S fuel' =>
      if u <? 10 then String (digit_char u) acc
      else FormatUint_loop fuel' (u / 10) (String (digit_char (u mod 10)) acc)
  end.

(** Decimal digits of [u >= 0]; a number has at most
    [log2 u + 1] digits, so the loop never runs out of fuel. *)
Definition FormatUint (u : Z) : string :=
  FormatUint_loop (S (Z.to_nat (Z.log2 u))) u EmptyString.

(** [strconv.FormatInt(i, 10)]. *)
Definition FormatInt (i : Z) : string :=
  if i <? 0 then String "-" (FormatUint (- i)) else FormatUint i.

End strconv.

(** ** [float64] values and [%.2f]

    The only floating-point values the program computes are
    [float64(bytes) / float64(2^k)] for an [int64]. Such a value is a
    dyadic rational [mant * 2^expo]; the conversion rounds to 53
    significant bits, ties to even, the division by a power of two is
    exact, and [%.2f] prints the exact value rounded to two decimals,
    ties to even. *)

Module float64.

Record t : Type := mk { mant : Z; expo : Z }.

(** [n / d] rounded to the nearest integer, ties to even ([d > 0]). *)
Definition round_half_even (n d : Z) : Z :=
  let q := n / d in
  let r := n mod d in
  if 2 * r <? d then q
  else if 2 * r >? d then q + 1
  else if Z.even q then q else q + 1.

(** [float64(z)] for an integer [z]. *)
Definition of_int (z : Z) : t :=
  let a := Z.abs z in
  if a <? 2 ^ 53 then mk z 0
  else
    let sh := Z.log2 a - 52 in
    mk (Z.sgn z * round_half_even a (2 ^ sh)) sh.

(** [x / float64(2^k)]. *)
Definition div_pow2 (x : t) (k : Z) : t := mk (mant x) (expo x - k).

Definition two_digits (n : Z) : string :=
  String (strconv.digit_char (n / 10))
    (String (strconv.digit_char (n mod 10)) EmptyString).

(** [fmt.Sprintf("%.2f", x)]. *)
Definition Sprintf_2f (x : t) : string :=
  let a := Z.abs (mant x) in
  let hundredths :=
    round_half_even (a * 100 * 2 ^ Z.max (expo x) 0) (2 ^ Z.max (- expo x) 0) in
  (if mant x <? 0 then "-" else EmptyString)
    +:+ strconv.FormatUint (hundredths / 100)
    +:+ "." +:+ two_digits (hundredths mod 100).

End float64.

(** ** The program: formatting *)

Definition GiB : Z := 1024 * 1024 * 1024.
Definition TiB : Z := 1024 * GiB.

(** [formatBytes], lines 198-208. *)
Definition formatBytes (bytes : Z) : string :=
  if bytes >=? TiB then
    float64.Sprintf_2f (float64.div_pow2 (float64.of_int bytes) 40) +:+ " TiB"
  else
    float64.Sprintf_2f (float64.div_pow2 (float64.of_int bytes) 30) +:+ " GiB".

(** [formatDiff], lines 211-216. *)
Definition formatDiff (diff : Z) : string :=
  if diff >=? 0 then "+" +:+ formatBytes diff
  else "-" +:+ formatBytes (neg64 diff).

(** ** Errors *)

(** Go [error] values. [SysError] is an error of the operating system
    (opening, reading or writing a file, running a command); it carries
    its text and whether [os.IsNotExist] holds for it. *)
Inductive error : Type :=
| SysError (msg : string) (not_exist : bool)
| ErrTooLong
| ErrDfOutput
| ErrDfFormat
| ErrDfParse (e : strconv.NumError) (num : string)
| ErrJsonSyntax
| ErrJsonType.

Definition IsNotExist (e : error) : bool :=
  match e with
  | SysError _ ne => ne
  | _ => false
  end.

(** ** The data model *)

(** [UsageEntry], lines 17-21. *)
Record UsageEntry : Type := mkUsageEntry {
  Timestamp : Z;
  Mounts : option (gmap string Z);
  Total : Z
}.

(** The entries a [range] over a map visits, in the order of
    [map_to_list]; Go leaves the order open (see [range_order]). A nil
    map has none. *)
Definition entries_of (m : option (gmap string Z)) : gmap string Z :=
  default ∅ m.

(** [m[k]] with the comma-ok form. *)
Definition map_get (m : option (gmap string Z)) (k : string) : option Z :=
  entries_of m !! k.

(** [isSnapshotMount], lines 24-26. *)
Definition isSnapshotMount (mountPoint : string) : bool :=
  strings.Contains mountPoint ".snapshot".

(** The loop of [filterEntry], lines 35-40, over the visiting order
    [it]; the state is [filtered.Mounts] and [filtered.Total]. *)
Fixpoint filterEntry_loop (it : list (string * Z)) (mounts : gmap string Z)
         (total : Z) : gmap string Z * Z :=
  match it with
  | [] => (mounts, total)
  | (mount, bytes) :: it' =>
      if negb (isSnapshotMount mount) then
        filterEntry_loop it' (<[mount := bytes]> mounts) (add64 total bytes)
      else filterEntry_loop it' mounts total
  end.

(** [filterEntry] run with the visiting order [it]. *)
Definition filterEntry_in (it : list (string * Z)) (entry : UsageEntry) : UsageEntry :=
  let '(mounts, total) := filterEntry_loop it ∅ 0 in
  {| Timestamp := Timestamp entry; Mounts := Some mounts; Total := total |}.

(** [filterEntry], lines 29-42. *)
Definition filterEntry (entry : UsageEntry) : UsageEntry :=
  filterEntry_in (map_to_list (entries_of (Mounts entry))) entry.

(** The [int64] sum of the values of a map, as [Total += bytes] computes
    it, and the exact sum. *)
Definition sum_values (m : gmap string Z) : Z :=
  foldr (fun kv acc => kv.2 + acc) 0 (map_to_list m).

Definition sum64 (m : option (gmap string Z)) : Z :=
  wrap64 (sum_values (entries_of m)).

(** The invariant of a sample: [Total] is the sum of [Mounts]. *)
Definition total_is_sum (e : UsageEntry) : Prop :=
  Total e = sum64 (Mounts e).

(** ** Mount discovery *)

Module bufio.

Definition MaxScanTokenSize : Z := 64 * 1024.

(** [dropCR]: a line loses one trailing carriage return. *)
Fixpoint dropCR (line : string) : string :=
  match line with
  | EmptyString => EmptyString
  | String c EmptyString => if Ascii.eqb c CR then EmptyString else line
  | String c rest => String c (dropCR rest)
  end.

(** A line the scanner's buffer cannot hold together with its newline. *)
Definition too_long (raw : string) : bool := len raw >=? MaxScanTokenSize.

(** The tokens [Scanner.Scan] delivers with [ScanLines] from the
    pieces between newlines, and [Scanner.Err()]. The last piece is the
    text after the last newline; it is a line when it is not empty. *)
Fixpoint scan (raws : list string) : list string * option error :=
  match raws with
  | [] => ([], None)
  | [last] =>
      if String.eqb last EmptyString then ([], None)
      else if too_long last then ([], Some ErrTooLong)
      else ([dropCR last], None)
  | raw :: rest =>
      if too_long raw then ([], Some ErrTooLong)
      else let '(lines, err) := scan rest in (dropCR raw :: lines, err)
  end.

Definition ScanLines (content : string) : list string * option error :=
  scan (strings.Split content LF).

End bufio.

(** The loop of [getNFSMounts], lines 128-137, over the scanned lines. *)
Fixpoint getNFSMounts_loop (lines : list string) (mounts : list string) : list string :=
  match lines with
  | [] => mounts
  | line :: rest =>
      let fields := Fields.Fields line in
      if (3 <=? List.length fields)%nat then
        let fsType := nth 2 fields EmptyString in
        let mountPoint := nth 1 fields EmptyString in
        if (String.eqb fsType "nfs" || String.eqb fsType "nfs4")
           && negb (isSnapshotMount mountPoint)
        then getNFSMounts_loop rest (mounts ++ [mountPoint])
        else getNFSMounts_loop rest mounts
      else getNFSMounts_loop rest mounts
  end.

(** [getNFSMounts], lines 119-140. [proc_mounts] is what opening and
    reading [/proc/mounts] gives: an error or the content. *)
Definition getNFSMounts (proc_mounts : error + string) : list string * option error :=
  match proc_mounts with
  | inl err => ([], Some err)
  | inr content =>
      let '(lines, err) := bufio.ScanLines content in
      (getNFSMounts_loop lines [], err)
  end.

(** ** Usage sampling *)

(** [getDFBytes], lines 143-170. [output] is what [cmd.Output()] gives
    for [df -B1 mountPoint]. *)
Definition getDFBytes (output : error + string) : error + Z :=
  match output with
  | inl err => inl err
  | inr out =>
      let lines := strings.Split out LF in
      if (List.length lines <? 2)%nat then inl ErrDfOutput
      else
        let dataLine := strings.Join (tail lines) " " in
        let fields := Fields.Fields dataLine in
        if (List.length fields <? 3)%nat then inl ErrDfFormat
        else
          match strconv.ParseInt (nth 2 fields EmptyString) with
          | inl e => inl (ErrDfParse e (nth 2 fields EmptyString))
          | inr usedBytes => inr usedBytes
          end
  end.

(** ** [encoding/json] for [[]UsageEntry] *)

Module utf16.

Definition IsSurrogate (r : Z) : bool := (55296 <=? r) && (r <? 57344).

(** [utf16.DecodeRune]: the rune of a surrogate pair, [U+FFFD] when the
    two halves are not a pair. *)
Definition DecodeRune (r1 r2 : Z) : Z :=
  if (55296 <=? r1) && (r1 <? 56320) && (56320 <=? r2) && (r2 <? 57344) then
    Z.lor (Z.shiftl (r1 - 55296) 10) (r2 - 56320) + 65536
  else utf8.RuneError.

End utf16.

Module json.

(** *** Encoding: [json.MarshalIndent(entries, "", "  ")] *)

Definition hex_char (d : Z) : ascii :=
  if d <? 10 then byte_of (48 + d) else byte_of (87 + d).

(** The table [htmlSafeSet] on the ASCII bytes: everything from the
    space on but the double quote, the ampersand, the angle brackets and
    the backslash. *)
Definition htmlSafe (b : Z) : bool :=
  (32 <=? b) && negb ((b =? 34) || (b =? 38) || (b =? 60) || (b =? 62) || (b =? 92)).

(** What [appendString] writes for one rune of the string. *)
Definition escape_rune (rs : Z * string) : string :=
  let '(r, bytes) := rs in
  match bytes with
  | EmptyString => EmptyString
  | String c _ =>
      let b := byte_val c in
      if b <? utf8.RuneSelf then
        if htmlSafe b then bytes
        else if (b =? 92) || (b =? 34) then String BSLASH bytes
        else if b =? 8 then String BSLASH "b"
        else if b =? 12 then String BSLASH "f"
        else if b =? 10 then String BSLASH "n"
        else if b =? 13 then String BSLASH "r"
        else if b =? 9 then String BSLASH "t"
        else String BSLASH "u00" +:+ String (hex_char (Z.shiftr b 4))
                         (String (hex_char (Z.land b 15)) EmptyString)
      else if (r =? utf8.RuneError) && (String.length bytes =? 1)%nat then String BSLASH "ufffd"
      else if r =? 8232 then String BSLASH "u2028"
      else if r =? 8233 then String BSLASH "u2029"
      else bytes
  end.

Fixpoint escape_runes (rs : list (Z * string)) : string :=
  match rs with
  | [] => EmptyString
  | r :: rs' => escape_rune r +:+ escape_runes rs'
  end.

(** The text of a string between its quotes. *)
Definition escape (s : string) : string := escape_runes (utf8.runes s).

Definition quoted (raw : string) : string :=
  String DQUOTE (raw +:+ String DQUOTE EmptyString).

Definition appendString (s : string) : string := quoted (escape s).

Definition newline (depth : nat) : string :=
  String LF (strings.Repeat "  " depth).

(** Map keys are written in the order of [strings.Compare]. *)
Definition key_le (p q : string * Z) : Prop := String.leb p.1 q.1 = true.

#[global] Instance key_le_dec p q : Decision (key_le p q).
Proof. unfold key_le. apply _. Defined.

Definition sorted_entries (g : gmap string Z) : list (string * Z) :=
  merge_sort key_le (map_to_list g).

Definition encode_member (depth : nat) (kv : string * Z) : string :=
  appendString kv.1 +:+ ": " +:+ strconv.FormatInt kv.2.

(** The elements of an array or the members of an object that is not
    empty, one per line. *)
Fixpoint encode_items (depth : nat) (items : list string) : string :=
  match items with
  | [] => EmptyString
  | [x] => x
  | x :: xs => x +:+ "," +:+ newline depth +:+ encode_items depth xs
  end.

Definition encode_mounts (depth : nat) (m : option (gmap string Z)) : string :=
  match m with
  | None => "null"
  | Some g =>
      match sorted_entries g with
      | [] => "{}"
      | kvs =>
          "{" +:+ newline (S depth)
              +:+ encode_items (S depth) (map (encode_member (S depth)) kvs)
              +:+ newline depth +:+ "}"
      end
  end.

Definition encode_entry (depth : nat) (e : UsageEntry) : string :=
  "{" +:+ newline (S depth)
      +:+ quoted "timestamp" +:+ ": " +:+ strconv.FormatInt (Timestamp e)
      +:+ "," +:+ newline (S depth)
      +:+ quoted "mounts" +:+ ": " +:+ encode_mounts (S depth) (Mounts e)
      +:+ "," +:+ newline (S depth)
      +:+ quoted "total" +:+ ": " +:+ strconv.FormatInt (Total e)
      +:+ newline depth +:+ "}".

Definition MarshalIndent (entries : option (list UsageEntry)) : string :=
  match entries with
  | None => "null"
  | Some [] => "[]"
  | Some es =>
      "[" +:+ newline 1 +:+ encode_items 1 (map (encode_entry 1) es)
          +:+ newline 0 +:+ "]"
  end.

(** *** Decoding: [json.Unmarshal(data, &entries)]

    [Unmarshal] first checks that the whole input is one JSON value and
    then stores it; here the check builds the value, with numbers and
    strings kept as they are written. *)

Inductive value : Type :=
| Null
| Bool (b : bool)
| Number (lit : string)
| Str (raw : string)
| Array (elems : list value)
| Object (members : list (string * value)).

Definition maxNestingDepth : Z := 10000.

Definition is_space (c : ascii) : bool :=
  let b := byte_val c in (b =? 32) || (b =? 9) || (b =? 13) || (b =? 10).

Fixpoint skip_space (s : string) : string :=
  match s with
  | String c s' => if is_space c then skip_space s' else s
  | EmptyString => s
  end.

Definition is_hex (c : ascii) : bool :=
  let b := byte_val c in
  ((48 <=? b) && (b <=? 57)) || ((97 <=? b) && (b <=? 102))
  || ((65 <=? b) && (b <=? 70)).

Definition is_escape (c : ascii) : bool :=
  let b := byte_val c in
  (b =? 98) || (b =? 102) || (b =? 110) || (b =? 114) || (b =? 116)
  || (b =? 92) || (b =? 47) || (b =? 34).

Definition cons_raw (c : string) (r : option (string * string)) : option (string * string) :=
  match r with
  | Some (raw, rest) => Some (c +:+ raw, rest)
  | None => None
  end.

(** A string from after its opening quote: the text up to the closing
    quote and what follows it. *)
Fixpoint scan_string (s : string) : option (string * string) :=
  match s with
  | EmptyString => None
  | String c s' =>
      if Ascii.eqb c DQUOTE then Some (EmptyString, s')
      else if Ascii.eqb c BSLASH then
        match s' with
        | EmptyString => None
        | String e s'' =>
            if is_escape e then
              cons_raw (String c (String e EmptyString)) (scan_string s'')
            else if Ascii.eqb e "u" then
              match s'' with
              | String h1 (String h2 (String h3 (String h4 s5))) =>
                  if is_hex h1 && is_hex h2 && is_hex h3 && is_hex h4 then
                    cons_raw (String c (String e (String h1 (String h2
                               (String h3 (String h4 EmptyString))))))
                             (scan_string s5)
                  else None
              | _ => None
              end
            else None
        end
      else if byte_val c <? 32 then None
      else cons_raw (String c EmptyString) (scan_string s')
  end.

Fixpoint span_digits (s : string) : string * string :=
  match s with
  | String c s' =>
      if strconv.is_digit c then
        let '(ds, rest) := span_digits s' in (String c ds, rest)
      else (EmptyString, s)
  | EmptyString => (EmptyString, EmptyString)
  end.

Definition scan_int (s : string) : option (string * string) :=
  match s with
  | String c s' =>
      if Ascii.eqb c "0" then Some ("0", s')
      else if strconv.is_digit c then
        let '(ds, rest) := span_digits s' in Some (String c ds, rest)
      else None
  | EmptyString => None
  end.

Definition scan_frac (s : string) : option (string * string) :=
  match s with
  | String c s' =>
      if Ascii.eqb c "." then
        match span_digits s' with
        | (EmptyString, _) => None
        | (ds, rest) => Some (String c ds, rest)
        end
      else Some (EmptyString, s)
  | EmptyString => Some (EmptyString, s)
  end.

Definition scan_exp (s : string) : option (string * string) :=
  match s with
  | String c s' =>
      if Ascii.eqb c "e" || Ascii.eqb c "E" then
        let '(sign, s'') :=
          match s' with
          | String d r =>
              if Ascii.eqb d "+" || Ascii.eqb d "-"
              then (String d EmptyString, r) else (EmptyString, s')
          | EmptyString => (EmptyString, s')
          end in
        match span_digits s'' with
        | (EmptyString, _) => None
        | (ds, rest) => Some (String c (sign +:+ ds), rest)
        end
      else Some (EmptyString, s)
  | EmptyString => Some (EmptyString, s)
  end.

(** A number: its literal and what follows it. *)
Definition scan_number (s : string) : option (string * string) :=
  let '(sign, s1) :=
    match s with
    | String c s' => if Ascii.eqb c "-" then ("-", s') else (EmptyString, s)
    | EmptyString => (EmptyString, s)
    end in
  match scan_int s1 with
  | None => None
  | Some (int, s2) =>
      match scan_frac s2 with
      | None => None
      | Some (frac, s3) =>
          match scan_exp s3 with
          | None => None
          | Some (exp, s4) => Some (sign +:+ int +:+ frac +:+ exp, s4)
          end
      end
  end.

Definition scan_literal (lit : string) (v : value) (s : string) : option (value * string) :=
  if String.prefix lit s then Some (v, string_drop (String.length lit) s) else None.

(** Whether [s] starts with the byte [c], and what follows it. *)
Definition after (c : ascii) (s : string) : option string :=
  match s with
  | String c' rest => if Ascii.eqb c' c then Some rest else None
  | EmptyString => None
  end.

(** One value at the start of [s] (no space before it) and what
    follows it, given the scanners [elements] and [members] for the
    inside of an array and of an object. [depth] counts the arrays and
    objects that are open. *)
Definition value_step (elements : string -> option (list value * string))
           (members : string -> option (list (string * value) * string))
           (depth : Z) (s : string) : option (value * string) :=
  match s with
  | EmptyString => None
  | String c s' =>
      if Ascii.eqb c "{" then
        if depth + 1 >? maxNestingDepth then None
        else
          match after "}" (skip_space s') with
          | Some rest => Some (Object [], rest)
          | None =>
              match members (skip_space s') with
              | Some (ms, rest) => Some (Object ms, rest)
              | None => None
              end
          end
      else if Ascii.eqb c "[" then
        if depth + 1 >? maxNestingDepth then None
        else
          match after "]" (skip_space s') with
          | Some rest => Some (Array [], rest)
          | None =>
              match elements (skip_space s') with
              | Some (vs, rest) => Some (Array vs, rest)
              | None => None
              end
          end
      else if Ascii.eqb c DQUOTE then
        match scan_string s' with
        | Some (raw, rest) => Some (Str raw, rest)
        | None => None
        end
      else if Ascii.eqb c "-" || strconv.is_digit c then
        match scan_number s with
        | Some (lit, rest) => Some (Number lit, rest)
        | None => None
        end
      else if Ascii.eqb c "t" then scan_literal "true" (Bool true) s
      else if Ascii.eqb c "f" then scan_literal "false" (Bool false) s
      else if Ascii.eqb c "n" then scan_literal "null" Null s
      else None
  end.

(** The elements of an array from its first element to the closing
    bracket, given the scanners for a value and for the elements left. *)
Definition elements_step (value_at : string -> option (value * string))
           (elements : string -> option (list value * string))
           (s : string) : option (list value * string) :=
  match value_at s with
  | None => None
  | Some (v, rest) =>
      match after "," (skip_space rest), after "]" (skip_space rest) with
      | Some rest', _ =>
          match elements (skip_space rest') with
          | Some (vs, rest'') => Some (v :: vs, rest'')
          | None => None
          end
      | None, Some rest' => Some ([v], rest')
      | None, None => None
      end
  end.

(** The members of an object from its first key to the closing brace. *)
Definition members_step (value_at : string -> option (value * string))
           (members : string -> option (list (string * value) * string))
           (s : string) : option (list (string * value) * string) :=
  match after DQUOTE s with
  | None => None
  | Some s' =>
      match scan_string s' with
      | None => None
      | Some (key, rest) =>
          match after ":" (skip_space rest) with
          | None => None
          | Some rest1 =>
              match value_at (skip_space rest1) with
              | None => None
              | Some (v, rest2) =>
                  match after "," (skip_space rest2), after "}" (skip_space rest2) with
                  | Some rest3, _ =>
                      match members (skip_space rest3) with
                      | Some (ms, rest4) => Some ((key, v) :: ms, rest4)
                      | None => None
                      end
                  | None, Some rest3 => Some ([(key, v)], rest3)
                  | None, None => None
                  end
              end
          end
      end
  end.

(** The scanner. Every call reads at least one byte before the next,
    so [fuel] above the length of the input is never used up. *)
Fixpoint parse_value (fuel : nat) (depth : Z) (s : string) : option (value * string) :=
  match fuel with
  | O => None
  | S fuel' =>
      value_step (parse_elements fuel' (depth + 1)) (parse_members fuel' (depth + 1))
                 depth s
  end
with parse_elements (fuel : nat) (depth : Z) (s : string) : option (list value * string) :=
  match fuel with
  | O => None
  | S fuel' => elements_step (parse_value fuel' depth) (parse_elements fuel' depth) s
  end
with parse_members (fuel : nat) (depth : Z) (s : string)
  : option (list (string * value) * string) :=
  match fuel with
  | O => None
  | S fuel' => members_step (parse_value fuel' depth) (parse_members fuel' depth) s
  end.

(** [checkValid] and the value read: the input is one value with
    nothing but space around it. *)
Definition parse (data : string) : option value :=
  match parse_value (S (String.length data)) 0 (skip_space data) with
  | Some (v, rest) =>
      match skip_space rest with
      | EmptyString => Some v
      | _ => None
      end
  | None => None
  end.

Definition hex_val (c : ascii) : Z :=
  let b := byte_val c in
  if b <=? 57 then b - 48 else if b <=? 70 then b - 55 else b - 87.

(** [getu4]: the code unit of a [\uXXXX] at the start of [s], or -1. *)
Definition getu4 (s : string) : Z :=
  match s with
  | String b (String u (String h1 (String h2 (String h3 (String h4 _))))) =>
      if Ascii.eqb b BSLASH && Ascii.eqb u "u"
         && is_hex h1 && is_hex h2 && is_hex h3 && is_hex h4
      then ((hex_val h1 * 16 + hex_val h2) * 16 + hex_val h3) * 16 + hex_val h4
      else -1
  | _ => -1
  end.

Definition prepend (p : string) (r : option string) : option string :=
  match r with
  | Some t => Some (p +:+ t)
  | None => None
  end.

(** [unquote] on the text between the quotes: escapes are resolved and
    bytes that are not UTF-8 become [U+FFFD]. Each step reads at least
    one byte, so [fuel] as long as the text is enough. *)
Fixpoint unquote_loop (fuel : nat) (s : string) : option string :=
  match s with
  | EmptyString => Some EmptyString
  | String c s' =>
      match fuel with
      | O => None
      | S fuel' =>
          if Ascii.eqb c BSLASH then
            match s' with
            | EmptyString => None
            | String e s'' =>
                let b := byte_val e in
                if (b =? 34) || (b =? 92) || (b =? 47) || (b =? 39) then
                  prepend (String e EmptyString) (unquote_loop fuel' s'')
                else if b =? 98 then prepend (String (byte_of 8) EmptyString) (unquote_loop fuel' s'')
                else if b =? 102 then prepend (String (byte_of 12) EmptyString) (unquote_loop fuel' s'')
                else if b =? 110 then prepend (String (byte_of 10) EmptyString) (unquote_loop fuel' s'')
                else if b =? 114 then prepend (String (byte_of 13) EmptyString) (unquote_loop fuel' s'')
                else if b =? 116 then prepend (String (byte_of 9) EmptyString) (unquote_loop fuel' s'')
                else if b =? 117 then
                  let rr := getu4 s in
                  if rr <? 0 then None
                  else
                    let s6 := string_drop 6 s in
                    if utf16.IsSurrogate rr then
                      let dec := utf16.DecodeRune rr (getu4 s6) in
                      if negb (dec =? utf8.RuneError) then
                        prepend (utf8.EncodeRune dec) (unquote_loop fuel' (string_drop 6 s6))
                      else
                        prepend (utf8.EncodeRune utf8.RuneError) (unquote_loop fuel' s6)
                    else prepend (utf8.EncodeRune rr) (unquote_loop fuel' s6)
                else None
            end
          else if Ascii.eqb c DQUOTE || (byte_val c <? 32) then None
          else if byte_val c <? utf8.RuneSelf then
            prepend (String c EmptyString) (unquote_loop fuel' s')
          else
            let '(rr, size) := utf8.DecodeRuneInString s in
            prepend (utf8.EncodeRune rr) (unquote_loop fuel' (string_drop size s))
      end
  end.

Definition unquote (raw : string) : option string :=
  unquote_loop (String.length raw) raw.

(** Storing a value into an [int64] that holds [cur]: [null] leaves it
    as it is, a number must be a decimal integer of 64 bits. *)
Definition store_int64 (v : value) (cur : Z) : option Z :=
  match v with
  | Null => Some cur
  | Number lit =>
      match strconv.ParseInt lit with
      | inr n => Some n
      | inl _ => None
      end
  | _ => None
  end.

(** Storing the members of an object into a map: each value starts
    from zero, and a later member replaces an earlier one of its key. *)
Fixpoint store_members (ms : list (string * value)) (g : gmap string Z)
  : option (gmap string Z) :=
  match ms with
  | [] => Some g
  | (raw, v) :: ms' =>
      match unquote raw, store_int64 v 0 with
      | Some key, Some n => store_members ms' (<[key := n]> g)
      | _, _ => None
      end
  end.

(** Storing a value into a [map[string]int64] that holds [cur]:
    [null] makes it nil, an object adds to it. *)
Definition store_map (v : value) (cur : option (gmap string Z))
  : option (option (gmap string Z)) :=
  match v with
  | Null => Some None
  | Object ms =>
      match store_members ms (entries_of cur) with
      | Some g => Some (Some g)
      | None => None
      end
  | _ => None
  end.

Definition to_upper (c : ascii) : ascii :=
  let b := byte_val c in
  if (97 <=? b) && (b <=? 122) then byte_of (b - 32) else c.

(** [foldName] as far as it decides the match with a field name:
    ASCII letters go to upper case, and the two letters outside ASCII
    whose case orbit reaches ASCII, the long s and the Kelvin sign, go
    to S and K. Any other rune folds to a rune outside ASCII (which
    one does not matter: no field name has one); it is left as it is. *)
Definition fold_rune (rs : Z * string) : string :=
  let '(r, bytes) := rs in
  if r <? utf8.RuneSelf then
    match bytes with
    | String c _ => String (to_upper c) EmptyString
    | EmptyString => EmptyString
    end
  else if r =? 383 then "S"
  else if r =? 8490 then "K"
  else utf8.EncodeRune r.

Definition foldName (key : string) : string :=
  String.concat EmptyString (map fold_rune (utf8.runes key)).

Inductive field : Type := FTimestamp | FMounts | FTotal.

(** The field a key names: the exact name first, then the name
    without regard to case. A key that names none is skipped. *)
Definition field_of (key : string) : option field :=
  if String.eqb key "timestamp" then Some FTimestamp
  else if String.eqb key "mounts" then Some FMounts
  else if String.eqb key "total" then Some FTotal
  else
    let f := foldName key in
    if String.eqb f "TIMESTAMP" then Some FTimestamp
    else if String.eqb f "MOUNTS" then Some FMounts
    else if String.eqb f "TOTAL" then Some FTotal
    else None.

Fixpoint store_fields (ms : list (string * value)) (e : UsageEntry) : option UsageEntry :=
  match ms with
  | [] => Some e
  | (raw, v) :: ms' =>
      match unquote raw with
      | None => None
      | Some key =>
          match field_of key with
          | None => store_fields ms' e
          | Some FTimestamp =>
              match store_int64 v (Timestamp e) with
              | Some n => store_fields ms' (mkUsageEntry n (Mounts e) (Total e))
              | None => None
              end
          | Some FMounts =>
              match store_map v (Mounts e) with
              | Some m => store_fields ms' (mkUsageEntry (Timestamp e) m (Total e))
              | None => None
              end
          | Some FTotal =>
              match store_int64 v (Total e) with
              | Some n => store_fields ms' (mkUsageEntry (Timestamp e) (Mounts e) n)
              | None => None
              end
          end
      end
  end.

(** Storing a value into a fresh [UsageEntry]. *)
Definition store_entry (v : value) : option UsageEntry :=
  match v with
  | Null => Some (mkUsageEntry 0 None 0)
  | Object ms => store_fields ms (mkUsageEntry 0 None 0)
  | _ => None
  end.

Fixpoint store_elements (vs : list value) : option (list UsageEntry) :=
  match vs with
  | [] => Some []
  | v :: vs' =>
      match store_entry v, store_elements vs' with
      | Some e, Some es => Some (e :: es)
      | _, _ => None
      end
  end.

(** Storing a value into a nil [[]UsageEntry]. *)
Definition store_entries (v : value) : option (option (list UsageEntry)) :=
  match v with
  | Null => Some None
  | Array vs =>
      match store_elements vs with
      | Some es => Some (Some es)
      | None => None
      end
  | _ => None
  end.

(** [json.Unmarshal(data, &entries)] for [var entries []UsageEntry].
    A value of the wrong type anywhere makes the call fail. *)
Definition Unmarshal (data : string) : error + option (list UsageEntry) :=
  match parse data with
  | None => inl ErrJsonSyntax
  | Some v =>
      match store_entries v with
      | Some entries => inr entries
      | None => inl ErrJsonType
      end
  end.

End json.

(** ** History store *)

(** [loadEntries], lines 173-185. [file] is what [os.ReadFile] gives. *)
Definition loadEntries (file : error + string) : option (list UsageEntry) * option error :=
  match file with
  | inl err => (None, Some err)
  | inr data =>
      match json.Unmarshal data with
      | inl err => (None, Some err)
      | inr entries => (entries, None)
      end
  end.

(** The bytes [saveEntries], lines 188-195, hands to [os.WriteFile].
    Marshalling a [[]UsageEntry] cannot fail. *)
Definition saveEntries_data (entries : option (list UsageEntry)) : string :=
  json.MarshalIndent entries.

(** [append(entries, entry)]. *)
Definition append_entry (entries : option (list UsageEntry)) (entry : UsageEntry)
  : list UsageEntry :=
  default [] entries ++ [entry].

(** ** Reporter *)

Module fmt.

Definition tooLarge (wid : Z) : bool := (wid >? 1000000) || (wid <? -1000000).

Definition writePadding (n : Z) : string := strings.Repeat " " (Z.to_nat n).

(** The verb [%-*s]: [s] and then spaces up to [wid] runes. A width
    that is too large is reported in the output and dropped. *)
Definition pad_right (wid : Z) (s : string) : string :=
  if tooLarge wid then "%!(BADWIDTH)" +:+ s
  else s +:+ writePadding (wid - Z.of_nat (utf8.RuneCountInString s)).

(** The verb [%*s]: spaces up to [wid] runes and then [s]. *)
Definition pad_left (wid : Z) (s : string) : string :=
  if tooLarge wid then "%!(BADWIDTH)" +:+ s
  else writePadding (wid - Z.of_nat (utf8.RuneCountInString s)) +:+ s.

End fmt.

Definition endl : string := String LF EmptyString.

(** The loop of lines 222-226. *)
Fixpoint maxMountWidth_loop (it : list (string * Z)) (maxMountWidth : Z) : Z :=
  match it with
  | [] => maxMountWidth
  | (mount, _) :: it' =>
      maxMountWidth_loop it'
        (if len mount >? maxMountWidth then len mount else maxMountWidth)
  end.

(** The loop of lines 229-231. *)
Fixpoint printCurrent_loop (it : list (string * Z)) (maxMountWidth : Z) : string :=
  match it with
  | [] => EmptyString
  | (mount, bytes) :: it' =>
      fmt.pad_right maxMountWidth mount +:+ "  " +:+ formatBytes bytes +:+ endl
        +:+ printCurrent_loop it' maxMountWidth
  end.

(** [printCurrent], lines 219-233: what it writes to standard output
    when its two loops visit the map in the orders [it1] and [it2]. *)
Definition printCurrent (it1 it2 : list (string * Z)) (entry : UsageEntry) : string :=
  let maxMountWidth := maxMountWidth_loop it1 (len "total") in
  printCurrent_loop it2 maxMountWidth
    +:+ fmt.pad_right maxMountWidth "total" +:+ "  " +:+ formatBytes (Total entry) +:+ endl.

(** The [row] of [printComparison]. *)
Record row : Type := mkRow {
  row_mount : string;
  row_oldest : string;
  row_current : string;
  row_diff : string
}.

(** The loop of lines 244-248. *)
Fixpoint current_rows_loop (it : list (string * Z)) (oldest : UsageEntry)
         (rows : list row) : list row :=
  match it with
  | [] => rows
  | (mount, currBytes) :: it' =>
      let oldBytes := default 0 (map_get (Mounts oldest) mount) in
      let diff := sub64 currBytes oldBytes in
      current_rows_loop it' oldest
        (rows ++ [mkRow mount (formatBytes oldBytes) (formatBytes currBytes) (formatDiff diff)])
  end.

(** The loop of lines 251-255. *)
Fixpoint removed_rows_loop (it : list (string * Z)) (current : UsageEntry)
         (rows : list row) : list row :=
  match it with
  | [] => rows
  | (mount, oldBytes) :: it' =>
      match map_get (Mounts current) mount with
      | None =>
          removed_rows_loop it' current
            (rows ++ [mkRow mount (formatBytes oldBytes) "(removed)" (formatDiff (neg64 oldBytes))])
      | Some _ => removed_rows_loop it' current rows
      end
  end.

(** The rows [printComparison] builds, lines 241-259. *)
Definition comparison_rows (itc ito : list (string * Z)) (oldest current : UsageEntry)
  : list row :=
  let rows := current_rows_loop itc oldest [] in
  let rows := removed_rows_loop ito current rows in
  let diff := sub64 (Total current) (Total oldest) in
  rows ++ [mkRow "total" (formatBytes (Total oldest)) (formatBytes (Total current))
                 (formatDiff diff)].

Record widths : Type := mkWidths {
  mountWidth : Z;
  oldestWidth : Z;
  currentWidth : Z;
  diffWidth : Z
}.

Definition widen (w : Z) (s : string) : Z := if len s >? w then len s else w.

(** The loop of lines 267-280. *)
Fixpoint widths_loop (rows : list row) (w : widths) : widths :=
  match rows with
  | [] => w
  | r :: rows' =>
      widths_loop rows'
        (mkWidths (widen (mountWidth w) (row_mount r))
                  (widen (oldestWidth w) (row_oldest r))
                  (widen (currentWidth w) (row_current r))
                  (widen (diffWidth w) (row_diff r)))
  end.

(** One line of the table: the format of lines 283, 284 and 288. *)
Definition table_line (w : widths) (a b c d : string) : string :=
  fmt.pad_right (mountWidth w) a +:+ "  " +:+ fmt.pad_left (oldestWidth w) b
    +:+ "  " +:+ fmt.pad_left (currentWidth w) c
    +:+ "  " +:+ fmt.pad_left (diffWidth w) d +:+ endl.

Definition dashes (w : Z) : string := strings.Repeat "-" (Z.to_nat w).

Fixpoint print_rows (rows : list row) (w : widths) : string :=
  match rows with
  | [] => EmptyString
  | r :: rows' =>
      table_line w (row_mount r) (row_oldest r) (row_current r) (row_diff r)
        +:+ print_rows rows' w
  end.

(** [printComparison], lines 236-289, when its two loops visit
    [current.Mounts] in the order [itc] and [oldest.Mounts] in the order
    [ito]. *)
Definition printComparison (itc ito : list (string * Z)) (oldest current : UsageEntry)
  : string :=
  let rows := comparison_rows itc ito oldest current in
  let w := widths_loop rows
             (mkWidths (len "Mountpoint") (len "Oldest") (len "Current") (len "Difference")) in
  table_line w "Mountpoint" "Oldest" "Current" "Difference"
    +:+ table_line w (dashes (mountWidth w)) (dashes (oldestWidth w))
                     (dashes (currentWidth w)) (dashes (diffWidth w))
    +:+ print_rows rows w.

(** ** The run *)

(** What a run reads from outside. [range_order line m] is the order in
    which the [range] statement at source line [line] visits the map
    [m]; [df i mount] is what the [i]-th call of [df -B1 mount] prints. *)
Record Env : Type := mkEnv {
  flag_file : string;
  flag_compare : bool;
  os_Getwd : error + string;
  filepath_Join : string -> string -> string;
  proc_mounts : error + string;
  df : nat -> string -> error + string;
  time_Now_Unix : Z;
  os_ReadFile : string -> error + string;
  os_WriteFile : string -> string -> option error;
  range_order : Z -> gmap string Z -> list (string * Z)
}.

(** A [range] statement visits every entry of the map once. *)
Definition fair_range (env : Env) : Prop :=
  forall line m, range_order env line m ≡ₚ map_to_list m.

(** The lines written to standard error. *)
Inductive message : Type :=
| MsgGetwd (err : error)
| MsgMounts (err : error)
| MsgNoMounts
| MsgDfWarning (mount : string) (err : error)
| MsgLoad (err : error)
| MsgSave (err : error).

(** What a run does: its output, its exit code, and the call of
    [os.WriteFile] it made, if any, as (path, data). *)
Record Result : Type := mkResult {
  stdout : string;
  stderr : list message;
  exit_code : Z;
  write_call : option (string * string)
}.

(** The sampling loop, lines 83-91. [i] numbers the calls of [df]; the
    state is [currentEntry.Mounts], [currentEntry.Total] and the
    warnings written so far. *)
Fixpoint sample_loop (env : Env) (i : nat) (nfsMounts : list string)
         (mounts : gmap string Z) (total : Z) (warnings : list message)
  : gmap string Z * Z * list message :=
  match nfsMounts with
  | [] => (mounts, total, warnings)
  | mount :: rest =>
      match getDFBytes (df env i mount) with
      | inl err =>
          sample_loop env (S i) rest mounts total (warnings ++ [MsgDfWarning mount err])
      | inr bytes =>
          sample_loop env (S i) rest (<[mount := bytes]> mounts) (add64 total bytes) warnings
      end
  end.

(** [currentEntry] after line 91, with the warnings. *)
Definition sample (env : Env) (nfsMounts : list string) : UsageEntry * list message :=
  let '(mounts, total, warnings) := sample_loop env 0 nfsMounts ∅ 0 [] in
  (mkUsageEntry (time_Now_Unix env) (Some mounts) total, warnings).

(** Lines 55-62. *)
Definition resolve_path (env : Env) : error + string :=
  if String.eqb (flag_file env) EmptyString then
    match os_Getwd env with
    | inl err => inl err
    | inr cwd => inr (filepath_Join env cwd "nfsusage.json")
    end
  else inr (flag_file env).

(** Lines 110-115. *)
Definition report (env : Env) (entries : list UsageEntry) (currentEntry : UsageEntry)
  : string :=
  match flag_compare env, entries with
  | true, first :: _ :: _ =>
      let oldest := filterEntry first in
      printComparison
        (range_order env 244 (entries_of (Mounts currentEntry)))
        (range_order env 251 (entries_of (Mounts oldest)))
        oldest currentEntry
  | _, _ =>
      printCurrent
        (range_order env 222 (entries_of (Mounts currentEntry)))
        (range_order env 229 (entries_of (Mounts currentEntry)))
        currentEntry
  end.

(** Lines 100-115: append, save and report. *)
Definition save_and_report (env : Env) (filePath : string)
           (loaded : option (list UsageEntry)) (currentEntry : UsageEntry)
           (warnings : list message) : Result :=
  let entries := append_entry loaded currentEntry in
  let data := saveEntries_data (Some entries) in
  match os_WriteFile env filePath data with
  | Some err =>
      mkResult EmptyString (warnings ++ [MsgSave err]) 1 (Some (filePath, data))
  | None =>
      mkResult (report env entries currentEntry) warnings 0 (Some (filePath, data))
  end.

(** [main], lines 44-116. *)
Definition main (env : Env) : Result :=
  match resolve_path env with
  | inl err => mkResult EmptyString [MsgGetwd err] 1 None
  | inr filePath =>
      match getNFSMounts (proc_mounts env) with
      | (_, Some err) => mkResult EmptyString [MsgMounts err] 1 None
      | (nfsMounts, None) =>
          if (List.length nfsMounts =? 0)%nat then
            mkResult EmptyString [MsgNoMounts] 0 None
          else
            let '(currentEntry, warnings) := sample env nfsMounts in
            let '(loaded, err) := loadEntries (os_ReadFile env filePath) in
            let continue := save_and_report env filePath loaded currentEntry warnings in
            match err with
            | Some e =>
                if negb (IsNotExist e) then
                  mkResult EmptyString (warnings ++ [MsgLoad e]) 1 None
                else continue
            | None => continue
            end
      end
  end.

(** * Properties *)

(** ** Arithmetic of [int64] *)

Section Int64Facts.

Lemma wrap64_in_range z : in_range (wrap64 z).
Proof.
  unfold in_range, wrap64, min_int64, max_int64.
  pose proof (Z.mod_pos_bound (z + 2 ^ 63) (2 ^ 64) ltac:(lia)). lia.
Qed.

Lemma wrap64_id z : in_range z -> wrap64 z = z.
Proof.
  unfold in_range, wrap64, min_int64, max_int64. intros H.
  rewrite Z.mod_small by lia. lia.
Qed.

Lemma wrap64_add_l a b : wrap64 (wrap64 a + b) = wrap64 (a + b).
Proof.
  unfold wrap64. f_equal.
  replace ((a + 2 ^ 63) mod 2 ^ 64 - 2 ^ 63 + b + 2 ^ 63)
    with ((a + 2 ^ 63) mod 2 ^ 64 + b) by lia.
  rewrite Z.add_mod_idemp_l by lia. f_equal. lia.
Qed.

Lemma add64_wrap a b : add64 (wrap64 a) b = wrap64 (a + b).
Proof. apply wrap64_add_l. Qed.

End Int64Facts.

(** ** Sums over the entries of a map *)

Definition sum_pairs (l : list (string * Z)) : Z :=
  foldr (fun kv acc => kv.2 + acc) 0 l.

Definition live (kv : string * Z) : Prop := isSnapshotMount kv.1 = false.

#[global] Instance live_dec kv : Decision (live kv).
Proof. unfold live. apply _. Defined.

Section Sums.

Lemma sum_pairs_perm l1 l2 : l1 ≡ₚ l2 -> sum_pairs l1 = sum_pairs l2.
Proof.
  induction 1 as [|x l l' _ IH|x y l|l l' l'' _ IH1 _ IH2]; simpl; lia.
Qed.

Lemma sum_values_insert (m : gmap string Z) k v :
  m !! k = None -> sum_values (<[k := v]> m) = v + sum_values m.
Proof.
  intros Hk. unfold sum_values. fold (sum_pairs (map_to_list (<[k:=v]> m))).
  rewrite (sum_pairs_perm _ _ (map_to_list_insert m k v Hk)). reflexivity.
Qed.

Lemma sum_values_empty : sum_values (∅ : gmap string Z) = 0.
Proof. unfold sum_values. rewrite map_to_list_empty. reflexivity. Qed.

Lemma NoDup_fst_filter (l : list (string * Z)) : NoDup l.*1 -> NoDup (filter live l).*1.
Proof.
  intros H. eapply sublist_NoDup; [exact H|].
  apply fmap_sublist, sublist_filter.
Qed.

Lemma map_to_list_filter_live (g : gmap string Z) :
  map_to_list (filter live g) ≡ₚ filter live (map_to_list g).
Proof.
  rewrite map_filter_alt. apply map_to_list_to_map.
  apply NoDup_fst_filter, NoDup_fst_map_to_list.
Qed.


End Sums.

(** ** [filterEntry] *)

Section FilterEntry.

Definition put (m : gmap string Z) (kv : string * Z) : gmap string Z :=
  <[kv.1 := kv.2]> m.

Lemma filterEntry_loop_foldl it m t :
  filterEntry_loop it m t =
    (foldl put m (filter live it), foldl (fun t kv => add64 t kv.2) t (filter live it)).
Proof.
  revert m t. induction it as [|[mount bytes] it IH]; intros m t; simpl; [done|].
  rewrite filter_cons.
  destruct (decide (live (mount, bytes))) as [Hl|Hl]; unfold live in Hl; simpl in Hl.
  - rewrite Hl. simpl. apply IH.
  - apply not_false_is_true in Hl. rewrite Hl. simpl. apply IH.
Qed.

Lemma foldl_put_list_to_map (l : list (string * Z)) (m : gmap string Z) :
  NoDup l.*1 -> (forall k, k ∈ l.*1 -> m !! k = None) ->
  foldl put m l = list_to_map l ∪ m.
Proof.
  revert m. induction l as [|[k v] l IH]; intros m Hnd Hdis; simpl.
  - by rewrite (left_id_L ∅ (∪)).
  - rewrite fmap_cons in Hnd, Hdis. apply NoDup_cons in Hnd as [Hk Hnd].
    rewrite IH; [|done|].
    + unfold put; simpl. rewrite <- insert_union_l. symmetry.
      apply insert_union_r. by apply not_elem_of_list_to_map_1.
    + intros k' Hk'. unfold put; simpl. rewrite lookup_insert_ne.
      * apply Hdis. by right.
      * intros ->. done.
Qed.

Lemma foldl_add64_sum (l : list (string * Z)) t :
  foldl (fun t kv => add64 t kv.2) (wrap64 t) l = wrap64 (t + sum_pairs l).
Proof.
  revert t. induction l as [|kv l IH]; intros t; simpl.
  - f_equal. lia.
  - rewrite add64_wrap, IH. f_equal. lia.
Qed.

(** The result of [filterEntry] for any visiting order. *)
Lemma filterEntry_in_eq it (e : UsageEntry) :
  it ≡ₚ map_to_list (entries_of (Mounts e)) ->
  filterEntry_in it e =
    {| Timestamp := Timestamp e;
       Mounts := Some (filter live (entries_of (Mounts e)));
       Total := wrap64 (sum_values (filter live (entries_of (Mounts e)))) |}.
Proof.
  intros Hperm. unfold filterEntry_in. rewrite filterEntry_loop_foldl.
  assert (Hnd : NoDup (filter live it).*1).
  { apply NoDup_fst_filter. rewrite Hperm. apply NoDup_fst_map_to_list. }
  rewrite foldl_put_list_to_map; [|done|intros; apply lookup_empty].
  rewrite (right_id_L ∅ (∪)).
  change 0 with (wrap64 0) at 1. rewrite foldl_add64_sum. f_equal.
  - f_equal. rewrite map_filter_alt. apply list_to_map_proper; [done|].
    by rewrite Hperm.
  - f_equal. unfold sum_values. fold (sum_pairs (map_to_list (filter live (entries_of (Mounts e))))).
    rewrite (sum_pairs_perm _ _ (map_to_list_filter_live _)).
    simpl. apply sum_pairs_perm. by rewrite Hperm.
Qed.

Lemma filterEntry_eq (e : UsageEntry) :
  filterEntry e =
    {| Timestamp := Timestamp e;
       Mounts := Some (filter live (entries_of (Mounts e)));
       Total := wrap64 (sum_values (filter live (entries_of (Mounts e)))) |}.
Proof. apply filterEntry_in_eq. done. Qed.

(** The order in which the map is visited does not matter. *)
Lemma filterEntry_order_irrelevant it (e : UsageEntry) :
  it ≡ₚ map_to_list (entries_of (Mounts e)) -> filterEntry_in it e = filterEntry e.
Proof. intros H. by rewrite filterEntry_in_eq, filterEntry_eq. Qed.

(** The filtered copy satisfies the invariant of samples. *)
Lemma filterEntry_total_is_sum (e : UsageEntry) : total_is_sum (filterEntry e).
Proof. rewrite filterEntry_eq. reflexivity. Qed.

End FilterEntry.

(** ** C2: what [filterEntry] returns *)

(** The byte counts of a Sample of the data model: integers that are
    not negative, held in [int64] fields. *)
Definition sample_bytes (e : UsageEntry) : Prop :=
  map_Forall (fun _ bytes => 0 <= bytes <= max_int64) (entries_of (Mounts e)).

#[global] Instance sample_bytes_dec e : Decision (sample_bytes e).
Proof. unfold sample_bytes. apply _. Defined.




Definition c2_witness_entry : UsageEntry :=
  mkUsageEntry 1700000000
    (Some (<["/mnt/a/.snapshot" := 5]> (<["/mnt/a" := 10]> ∅))) 15.


(** ** C1: the invariant of samples *)

Section Sampling.

Variable env : Env.

Lemma sample_loop_total l : forall i m w,
  NoDup l -> (forall k, k ∈ l -> m !! k = None) ->
  (sample_loop env i l m (wrap64 (sum_values m)) w).1.2 =
    wrap64 (sum_values (sample_loop env i l m (wrap64 (sum_values m)) w).1.1).
Proof.
  induction l as [|mount l IH]; intros i m w Hnd Hfresh; simpl; [done|].
  apply NoDup_cons in Hnd as [Hm Hnd].
  destruct (getDFBytes (df env i mount)) as [err|bytes].
  - apply IH; [done|]. intros k Hk. apply Hfresh. by right.
  - rewrite add64_wrap.
    replace (sum_values m + bytes) with (sum_values (<[mount := bytes]> m)).
    + apply IH; [done|]. intros k Hk. rewrite lookup_insert_ne.
      * apply Hfresh. by right.
      * intros ->. done.
    + rewrite sum_values_insert; [lia|]. apply Hfresh. by left.
Qed.

(** When no mount path is sampled twice, the fresh sample satisfies the
    invariant, whatever mounts were skipped. *)
Lemma sample_total_is_sum nfsMounts :
  NoDup nfsMounts -> total_is_sum (sample env nfsMounts).1.
Proof.
  intros Hnd. unfold sample, total_is_sum, sum64.
  pose proof (sample_loop_total nfsMounts 0%nat ∅ [] Hnd) as H.
  rewrite sum_values_empty in H. change (wrap64 0) with 0 in H.
  destruct (sample_loop env 0 nfsMounts ∅ 0 []) as [[m t] w]. simpl in *.
  apply H. intros. apply lookup_empty.
Qed.

End Sampling.

Definition df_header : string := "Filesystem 1B-blocks Used Available Use% Mounted on".

(** A mount table with two NFS file systems mounted on the same path,
    one over the other; [df] reports one used byte for the path. *)
Definition c1_env : Env :=
  mkEnv "/var/lib/nfsusage.json" false (inr "/")
        (fun dir name => dir +:+ "/" +:+ name)
        (inr ("srv:/export/a /mnt/a nfs4 rw 0 0" +:+ endl
              +:+ "srv:/export/b /mnt/a nfs4 rw 0 0" +:+ endl))
        (fun _ _ => inr (df_header +:+ endl +:+ "srv:/export/b 100 1 99 1% /mnt/a" +:+ endl))
        1700000000
        (fun _ => inl (SysError "open /var/lib/nfsusage.json: no such file or directory" true))
        (fun _ _ => None)
        (fun _ m => map_to_list m).

(** C1: with a mount path listed twice in the mount table, the sample
    built by [main] counts the path twice in [Total] and once in
    [Mounts]: the run succeeds and saves a sample whose total is 2 while
    its mounts sum to 1. *)
Theorem main_counts_repeated_mount_twice :
  getNFSMounts (proc_mounts c1_env) = (["/mnt/a"; "/mnt/a"], None) /\
  sample c1_env ["/mnt/a"; "/mnt/a"] =
    (mkUsageEntry 1700000000 (Some {["/mnt/a" := 1]}) 2, []) /\
  sum64 (Some {["/mnt/a" := 1]}) = 1 /\
  exit_code (main c1_env) = 0 /\
  write_call (main c1_env) =
    Some ("/var/lib/nfsusage.json",
          saveEntries_data (Some [mkUsageEntry 1700000000 (Some {["/mnt/a" := 1]}) 2])).
Proof. repeat split; vm_compute; reflexivity. Qed.

(** ** Substrings *)

Section Substrings.

Lemma append_cons c s t : String c s +:+ t = String c (s +:+ t).
Proof. reflexivity. Qed.

Lemma append_nil_l t : EmptyString +:+ t = t.
Proof. reflexivity. Qed.

Lemma prefix_spec p s : String.prefix p s = true <-> exists r, s = p +:+ r.
Proof.
  revert s. induction p as [|c p IH]; intros s.
  - replace (String.prefix EmptyString s) with true by (by destruct s).
    split; [intros _; by exists s | done].
  - destruct s as [|d s]; simpl.
    + split; [done | intros [r Hr]; rewrite append_cons in Hr; discriminate].
    + destruct (ascii_dec c d) as [->|Hne].
      * rewrite IH. split; intros [r Hr]; exists r;
          rewrite append_cons in *; congruence.
      * split; [done | intros [r Hr]; rewrite append_cons in *; congruence].
Qed.

Lemma Contains_nil sub :
  strings.Contains EmptyString sub = String.prefix sub EmptyString.
Proof.
  change (strings.Contains EmptyString sub)
    with (if String.prefix sub EmptyString then true else false).
  by destruct (String.prefix sub EmptyString).
Qed.

Lemma Contains_cons c s sub :
  strings.Contains (String c s) sub =
    if String.prefix sub (String c s) then true else strings.Contains s sub.
Proof. reflexivity. Qed.

(** [strings.Contains] holds exactly when the substring occurs. *)
Lemma Contains_spec s sub :
  strings.Contains s sub = true <-> exists a b, s = a +:+ sub +:+ b.
Proof.
  induction s as [|c s IH].
  - rewrite Contains_nil, prefix_spec. split.
    + intros [r Hr]. exists EmptyString, r. by rewrite append_nil_l.
    + intros (a & b & Hab). destruct a as [|d a];
        [rewrite append_nil_l in Hab | rewrite append_cons in Hab; discriminate].
      by exists b.
  - rewrite Contains_cons.
    destruct (String.prefix sub (String c s)) eqn:Hp.
    + split; [intros _|done]. apply prefix_spec in Hp as [r Hr].
      exists EmptyString, r. by rewrite append_nil_l.
    + rewrite IH. split; intros (a & b & Hab).
      * exists (String c a), b. rewrite append_cons. congruence.
      * destruct a as [|d a];
          [rewrite append_nil_l in Hab | rewrite append_cons in Hab].
        -- assert (String.prefix sub (String c s) = true)
             by (apply prefix_spec; by exists b).
           congruence.
        -- exists a, b. congruence.
Qed.

End Substrings.

(** ** C4: mount discovery *)

(** The selection in the words of the specification: the second field of
    a line whose third field is [nfs] or [nfs4] and whose second field
    does not contain [.snapshot]. *)
Definition selected_mount (line : string) : option string :=
  match Fields.Fields line with
  | _ :: mountPath :: fsType :: _ =>
      if (String.eqb fsType "nfs" || String.eqb fsType "nfs4")
         && negb (strings.Contains mountPath ".snapshot")
      then Some mountPath else None
  | _ => None
  end.

Lemma getNFSMounts_loop_app lines : forall mounts,
  getNFSMounts_loop lines mounts = mounts ++ omap selected_mount lines.
Proof.
  induction lines as [|line lines IH]; intros mounts; simpl.
  - by rewrite app_nil_r.
  - unfold selected_mount, isSnapshotMount.
    destruct (Fields.Fields line) as [|f0 [|f1 [|f2 fs]]]; simpl; try apply IH.
    destruct ((String.eqb f2 "nfs" || String.eqb f2 "nfs4")
              && negb (strings.Contains f1 ".snapshot")); simpl.
    + rewrite IH, <- app_assoc. done.
    + apply IH.
Qed.

(** C4: mount discovery returns, in table order, exactly the second
    fields of the lines whose third field is [nfs] or [nfs4] and whose
    second field does not contain [.snapshot]; of the three lines of the
    specification only [/mnt/nfs1] is returned. *)
Theorem getNFSMounts_selects :
  (forall lines, getNFSMounts_loop lines [] = omap selected_mount lines) /\
  (forall content,
      getNFSMounts (inr content) =
        (omap selected_mount (bufio.ScanLines content).1, (bufio.ScanLines content).2)) /\
  getNFSMounts_loop ["device /mnt/nfs1.snapshot nfs4 rw 0 0"] [] = [] /\
  getNFSMounts_loop ["device /mnt/nfs1 nfs4 rw 0 0"] [] = ["/mnt/nfs1"] /\
  getNFSMounts_loop ["device /mnt/local ext4 rw 0 0"] [] = [] /\
  getNFSMounts (inr ("device /mnt/nfs1.snapshot nfs4 rw 0 0" +:+ endl
                     +:+ "device /mnt/nfs1 nfs4 rw 0 0" +:+ endl
                     +:+ "device /mnt/local ext4 rw 0 0" +:+ endl))
    = (["/mnt/nfs1"], None).
Proof.
  split; [|split]; [ | |repeat split; vm_compute; reflexivity].
  - intros lines. apply getNFSMounts_loop_app.
  - intros content. unfold getNFSMounts.
    destruct (bufio.ScanLines content) as [lines err]. simpl.
    by rewrite getNFSMounts_loop_app.
Qed.

(** ** Decimal integers: [FormatInt] and [ParseInt] *)

Fixpoint all_digits (s : string) : bool :=
  match s with
  | EmptyString => true
  | String c s' => strconv.is_digit c && all_digits s'
  end.

(** The number a string of decimal digits denotes, after the digits
    already read as [n]. *)
Fixpoint digits_value (s : string) (n : Z) : Z :=
  match s with
  | EmptyString => n
  | String c s' => digits_value s' (n * 10 + (byte_val c - 48))
  end.

Section Decimal.

Lemma byte_val_range c : 0 <= byte_val c < 256.
Proof.
  unfold byte_val. pose proof (N_ascii_bounded c). lia.
Qed.

Lemma byte_of_val c : byte_of (byte_val c) = c.
Proof.
  unfold byte_of, byte_val. rewrite N2Z.id. apply ascii_N_embedding.
Qed.

Lemma byte_val_of z : 0 <= z < 256 -> byte_val (byte_of z) = z.
Proof.
  intros H. unfold byte_of, byte_val. rewrite N_ascii_embedding by lia. lia.
Qed.

Lemma byte_val_inj c d : byte_val c = byte_val d -> c = d.
Proof. intros H. rewrite <- (byte_of_val c), <- (byte_of_val d). by rewrite H. Qed.

Lemma is_digit_char d : 0 <= d < 10 -> strconv.is_digit (strconv.digit_char d) = true.
Proof.
  intros H. unfold strconv.is_digit, strconv.digit_char.
  rewrite byte_val_of by lia. apply andb_true_intro. split; apply Z.leb_le; lia.
Qed.

Lemma digit_char_val d : 0 <= d < 10 -> byte_val (strconv.digit_char d) - 48 = d.
Proof. intros H. unfold strconv.digit_char. rewrite byte_val_of by lia. lia. Qed.

Lemma is_digit_range c : strconv.is_digit c = true -> 48 <= byte_val c <= 57.
Proof. unfold strconv.is_digit. intros [H1 H2]%andb_prop. lia. Qed.

Lemma digits_value_lower s : forall n, 0 <= n -> all_digits s = true -> n <= digits_value s n.
Proof.
  induction s as [|c s IH]; intros n Hn Hd; simpl in *; [lia|].
  apply andb_prop in Hd as [Hc Hs]. apply is_digit_range in Hc.
  specialize (IH (n * 10 + (byte_val c - 48)) ltac:(lia) Hs). lia.
Qed.

(** Digits whose value fits 64 bits are read by the loop of
    [ParseUint] without an error. *)
Lemma ParseUint_loop_digits s : forall n,
  0 <= n -> all_digits s = true -> digits_value s n <= strconv.maxUint64 ->
  strconv.ParseUint_loop s n = inr (digits_value s n).
Proof.
  induction s as [|c s IH]; intros n Hn Hd Hmax; simpl in *; [done|].
  apply andb_prop in Hd as [Hc Hs]. rewrite Hc.
  pose proof (is_digit_range c Hc) as Hr.
  pose proof (digits_value_lower s (n * 10 + (byte_val c - 48)) ltac:(lia) Hs) as Hlow.
  unfold strconv.maxUint64 in *.
  change (2 ^ 64 - 1) with 18446744073709551615 in *.
  change ((18446744073709551615 / 10) + 1) with 1844674407370955162.
  change (2 ^ 64) with 18446744073709551616.
  destruct (n >=? 1844674407370955162) eqn:Hcut; [apply Z.geb_le in Hcut; lia|].
  rewrite Z.mod_small by lia.
  destruct ((n * 10 + (byte_val c - 48) <? n * 10)
            || (n * 10 + (byte_val c - 48) >? 18446744073709551615)) eqn:Hov.
  - apply orb_prop in Hov as [H|H]; [apply Z.ltb_lt in H|apply Z.gtb_lt in H]; lia.
  - apply IH; [lia|done|done].
Qed.

Lemma all_digits_app s t : all_digits (s +:+ t) = all_digits s && all_digits t.
Proof.
  induction s as [|c s IH]; [done|].
  rewrite append_cons. simpl. rewrite IH. by rewrite andb_assoc.
Qed.

Lemma digits_value_app s t n : digits_value (s +:+ t) n = digits_value t (digits_value s n).
Proof.
  revert n. induction s as [|c s IH]; intros n; [done|].
  rewrite append_cons. simpl. apply IH.
Qed.

Lemma append_assoc (s t u : string) : (s +:+ t) +:+ u = s +:+ (t +:+ u).
Proof.
  induction s as [|c s IH]; [done|]. rewrite !append_cons. by rewrite IH.
Qed.

Lemma append_nil_r (s : string) : s +:+ EmptyString = s.
Proof. induction s as [|c s IH]; [done|]. rewrite append_cons. by rewrite IH. Qed.

(** The head of a decimal numeral: a digit, and not [0] unless the
    numeral is [0]. *)
Definition numeral_head (s : string) (u : Z) : Prop :=
  match s with
  | EmptyString => False
  | String c _ => u = 0 /\ s = "0" \/ 49 <= byte_val c <= 57
  end.

Lemma numeral_head_app s t u v : 0 < u -> numeral_head s u -> numeral_head (s +:+ t) v.
Proof.
  destruct s as [|c s]; [done|]. rewrite append_cons. simpl.
  intros Hu [[-> _]|H]; [lia|by right].
Qed.

Lemma FormatUint_loop_S fuel u acc :
  strconv.FormatUint_loop (S fuel) u acc =
    if u <? 10 then String (strconv.digit_char u) acc
    else strconv.FormatUint_loop fuel (u / 10)
           (String (strconv.digit_char (u mod 10)) acc).
Proof. reflexivity. Qed.

Lemma FormatUint_loop_digits fuel : forall u acc,
  0 <= u < 2 ^ Z.of_nat (S fuel) ->
  exists ds, strconv.FormatUint_loop (S fuel) u acc = ds +:+ acc /\
             all_digits ds = true /\ digits_value ds 0 = u /\ numeral_head ds u.
Proof.
  induction fuel as [|fuel IH]; intros u acc Hu.
  - assert (u = 0 \/ u = 1) as [-> | ->] by (change (2 ^ Z.of_nat 1) with 2 in Hu; lia);
      [exists "0" | exists "1"]; repeat split; try done; simpl; [by left | right; done].
  - rewrite FormatUint_loop_S.
    destruct (u <? 10) eqn:Hlt.
    + apply Z.ltb_lt in Hlt. exists (String (strconv.digit_char u) EmptyString).
      split; [done|]. split; [simpl; by rewrite is_digit_char by lia|].
      split; [simpl; rewrite digit_char_val by lia; lia|].
      simpl. unfold strconv.digit_char. rewrite byte_val_of by lia.
      destruct (decide (u = 0)) as [->|]; [by left | right; lia].
    + apply Z.ltb_ge in Hlt.
      assert (Hq : 0 <= u / 10 < 2 ^ Z.of_nat (S fuel)).
      { split; [apply Z.div_pos; lia|].
        rewrite Nat2Z.inj_succ, Z.pow_succ_r in Hu by lia.
        apply Z.div_lt_upper_bound; lia. }
      destruct (IH (u / 10) (String (strconv.digit_char (u mod 10)) acc) Hq)
        as (ds & Heq & Hd & Hv & Hh).
      pose proof (Z.mod_pos_bound u 10 ltac:(lia)) as Hm.
      exists (ds +:+ String (strconv.digit_char (u mod 10)) EmptyString).
      split; [by rewrite Heq, append_assoc|].
      split; [rewrite all_digits_app, Hd; simpl; by rewrite is_digit_char|].
      split.
      * rewrite digits_value_app, Hv. simpl. rewrite digit_char_val by done.
        pose proof (Z.div_mod u 10 ltac:(lia)). lia.
      * eapply numeral_head_app; [|exact Hh].
        apply Z.div_str_pos. lia.
Qed.

Lemma FormatUint_digits u :
  0 <= u ->
  all_digits (strconv.FormatUint u) = true /\
  digits_value (strconv.FormatUint u) 0 = u /\
  numeral_head (strconv.FormatUint u) u.
Proof.
  intros Hu. unfold strconv.FormatUint.
  destruct (FormatUint_loop_digits (Z.to_nat (Z.log2 u)) u EmptyString) as (ds & Heq & H).
  - split; [done|]. rewrite Nat2Z.inj_succ, Z2Nat.id by apply Z.log2_nonneg.
    destruct (decide (u = 0)) as [->|]; [done|]. apply Z.log2_spec. lia.
  - rewrite Heq, append_nil_r. exact H.
Qed.

(** [ParseInt] reads back what [FormatInt] writes. *)
Lemma ParseInt_FormatInt z : in_range z -> strconv.ParseInt (strconv.FormatInt z) = inr z.
Proof.
  intros Hz. unfold in_range, min_int64, max_int64 in Hz. unfold strconv.FormatInt.
  destruct (z <? 0) eqn:Hneg.
  - apply Z.ltb_lt in Hneg.
    destruct (FormatUint_digits (- z) ltac:(lia)) as (Hd & Hv & Hh).
    unfold strconv.ParseInt. cbn [Ascii.eqb Bool.eqb orb].
    change (Ascii.eqb "-" "-") with true. cbn [orb].
    unfold strconv.ParseUint.
    destruct (strconv.FormatUint (- z)) as [|c ds] eqn:Hf; [done|].
    rewrite ParseUint_loop_digits; [|lia|done|rewrite Hv; unfold strconv.maxUint64; lia].
    rewrite Hv. cbn [negb andb].
    destruct (- z >? 2 ^ 63) eqn:Hgt; [apply Z.gtb_lt in Hgt; lia|].
    f_equal. destruct (decide (z = - 2 ^ 63)) as [->|]; [done|].
    rewrite (wrap64_id (- z)) by (unfold in_range, min_int64, max_int64; lia).
    rewrite Z.opp_involutive. apply wrap64_id. unfold in_range, min_int64, max_int64; lia.
  - apply Z.ltb_ge in Hneg.
    destruct (FormatUint_digits z ltac:(lia)) as (Hd & Hv & Hh).
    unfold strconv.ParseInt.
    destruct (strconv.FormatUint z) as [|c ds] eqn:Hf; [done|].
    assert (Hc : 48 <= byte_val c <= 57).
    { simpl in Hd. apply andb_prop in Hd as [Hc _]. by apply is_digit_range. }
    assert (Hm : Ascii.eqb c "-" = false).
    { apply Ascii.eqb_neq. intros ->. change (byte_val "-") with 45 in Hc. lia. }
    assert (Hp : Ascii.eqb c "+" = false).
    { apply Ascii.eqb_neq. intros ->. change (byte_val "+") with 43 in Hc. lia. }
    rewrite Hm, Hp. cbn [orb negb andb]. unfold strconv.ParseUint.
    rewrite ParseUint_loop_digits; [|lia|done|rewrite Hv; unfold strconv.maxUint64; lia].
    rewrite Hv.
    destruct (z >=? 2 ^ 63) eqn:Hge; [apply Z.geb_le in Hge; lia|].
    f_equal. apply wrap64_id. unfold in_range, min_int64, max_int64; lia.
Qed.

End Decimal.

(** ** What [ParseInt] accepts *)

(** [s] is a decimal numeral of the 64-bit integer [v]: an optional
    sign and at least one decimal digit, with a value in range. *)
Definition is_decimal (s : string) (v : Z) : Prop :=
  exists ds,
    ds <> EmptyString /\ all_digits ds = true /\ in_range v /\
    ((s = ds \/ s = String "+" ds) /\ v = digits_value ds 0 \/
     s = String "-" ds /\ v = - digits_value ds 0).

Section ParseIntSpec.

Lemma ParseUint_loop_inv s : forall n un,
  0 <= n <= strconv.maxUint64 ->
  strconv.ParseUint_loop s n = inr un ->
  all_digits s = true /\ un = digits_value s n /\ 0 <= un <= strconv.maxUint64.
Proof.
  induction s as [|c s IH]; intros n un Hn H; simpl in H.
  - injection H as <-. done.
  - destruct (strconv.is_digit c) eqn:Hc; [|discriminate].
    pose proof (is_digit_range c Hc) as Hr.
    unfold strconv.maxUint64 in *.
    change (2 ^ 64 - 1) with 18446744073709551615 in *.
    change ((18446744073709551615 / 10) + 1) with 1844674407370955162 in H.
    change (2 ^ 64) with 18446744073709551616 in H.
    destruct (n >=? 1844674407370955162) eqn:Hcut; [discriminate|].
    assert (n < 1844674407370955162)
      by (destruct (Z.geb_spec n 1844674407370955162); [discriminate|lia]).
    destruct (Z_le_gt_dec (n * 10 + (byte_val c - 48)) 18446744073709551615) as [Hle|Hgt].
    2: { exfalso.
         replace ((n * 10 + (byte_val c - 48)) mod 18446744073709551616)
           with (n * 10 + (byte_val c - 48) - 18446744073709551616) in H
           by (apply Z.mod_unique with (q := 1); lia).
         replace (n * 10 + (byte_val c - 48) - 18446744073709551616 <? n * 10)
           with true in H by (symmetry; apply Z.ltb_lt; lia).
         discriminate. }
    rewrite Z.mod_small in H by lia.
    replace (n * 10 + (byte_val c - 48) <? n * 10) with false in H
      by (symmetry; apply Z.ltb_ge; lia).
    replace (n * 10 + (byte_val c - 48) >? 18446744073709551615) with false in H
      by (symmetry; destruct (Z.gtb_spec (n * 10 + (byte_val c - 48)) 18446744073709551615);
          [lia|done]).
    cbn [orb] in H.
    apply IH in H as (Hd & Hv & Hm); [|lia].
    simpl. rewrite Hc, Hd. done.
Qed.

Lemma digit_not_sign c :
  strconv.is_digit c = true -> Ascii.eqb c "-" = false /\ Ascii.eqb c "+" = false.
Proof. destruct c as [[] [] [] [] [] [] [] []]; intros H; try discriminate H; done. Qed.

(** [ParseInt] succeeds exactly on the decimal numerals of 64-bit
    integers, with their value. *)
Lemma ParseInt_spec s v : strconv.ParseInt s = inr v <-> is_decimal s v.
Proof.
  split.
  - unfold strconv.ParseInt. destruct s as [|c s]; [discriminate|].
    destruct (Ascii.eqb c "-") eqn:Hm; [apply Ascii.eqb_eq in Hm as ->|].
    + rewrite orb_true_r. unfold strconv.ParseUint.
      destruct s as [|d s]; [discriminate|].
      destruct (strconv.ParseUint_loop (String d s) 0) as [[]|un] eqn:Hu; try discriminate.
      apply ParseUint_loop_inv in Hu as (Hd & Hv & Hr); [|unfold strconv.maxUint64; lia].
      cbn [negb andb]. destruct (un >? 2 ^ 63) eqn:Hgt; [discriminate|].
      assert (un <= 2 ^ 63) by (destruct (Z.gtb_spec un (2 ^ 63)); [discriminate|lia]).
      intros [= <-]. exists (String d s). split; [done|]. split; [done|].
      split; [apply wrap64_in_range|]. right. split; [done|]. rewrite <- Hv.
      destruct (decide (un = 2 ^ 63)) as [->|]; [done|].
      rewrite (wrap64_id un) by (unfold in_range, min_int64, max_int64; lia).
      apply wrap64_id. unfold in_range, min_int64, max_int64; lia.
    + rewrite orb_false_r. cbn [negb andb].
      destruct (Ascii.eqb c "+") eqn:Hp; [apply Ascii.eqb_eq in Hp as ->|].
      * unfold strconv.ParseUint. destruct s as [|d s]; [discriminate|].
        destruct (strconv.ParseUint_loop (String d s) 0) as [[]|un] eqn:Hu; try discriminate.
        apply ParseUint_loop_inv in Hu as (Hd & Hv & Hr); [|unfold strconv.maxUint64; lia].
        destruct (un >=? 2 ^ 63) eqn:Hge; [discriminate|].
        assert (un < 2 ^ 63) by (destruct (Z.geb_spec un (2 ^ 63)); [discriminate|lia]).
        intros [= <-]. exists (String d s). split; [done|]. split; [done|].
        split; [apply wrap64_in_range|]. left. split; [by right|]. rewrite <- Hv.
        apply wrap64_id. unfold in_range, min_int64, max_int64; lia.
      * unfold strconv.ParseUint.
        destruct (strconv.ParseUint_loop (String c s) 0) as [[]|un] eqn:Hu; try discriminate.
        apply ParseUint_loop_inv in Hu as (Hd & Hv & Hr); [|unfold strconv.maxUint64; lia].
        destruct (un >=? 2 ^ 63) eqn:Hge; [discriminate|].
        assert (un < 2 ^ 63) by (destruct (Z.geb_spec un (2 ^ 63)); [discriminate|lia]).
        intros [= <-]. exists (String c s). split; [done|]. split; [done|].
        split; [apply wrap64_in_range|]. left. split; [by left|]. rewrite <- Hv.
        apply wrap64_id. unfold in_range, min_int64, max_int64; lia.
  - intros (ds & Hne & Hd & Hr & H). unfold in_range, min_int64, max_int64 in Hr.
    destruct ds as [|d ds]; [done|].
    pose proof Hd as Hd'. simpl in Hd'. apply andb_prop in Hd' as [Hd0 _].
    destruct (digit_not_sign d Hd0) as [Hdm Hdp].
    pose proof (digits_value_lower (String d ds) 0 ltac:(lia) Hd) as Hlow.
    destruct H as [[[-> | ->] ->]|[-> ->]]; unfold strconv.ParseInt.
    + rewrite Hdm, Hdp. cbn [orb negb andb]. unfold strconv.ParseUint.
      rewrite ParseUint_loop_digits by (done || unfold strconv.maxUint64; lia).
      destruct (digits_value (String d ds) 0 >=? 2 ^ 63) eqn:Hge;
        [apply Z.geb_le in Hge; lia|].
      f_equal. apply wrap64_id. unfold in_range, min_int64, max_int64; lia.
    + change (Ascii.eqb "+" "-") with false. change (Ascii.eqb "+" "+") with true.
      cbn [orb negb andb]. unfold strconv.ParseUint.
      rewrite ParseUint_loop_digits by (done || unfold strconv.maxUint64; lia).
      destruct (digits_value (String d ds) 0 >=? 2 ^ 63) eqn:Hge;
        [apply Z.geb_le in Hge; lia|].
      f_equal. apply wrap64_id. unfold in_range, min_int64, max_int64; lia.
    + change (Ascii.eqb "-" "-") with true. rewrite orb_true_r.
      cbn [negb andb]. unfold strconv.ParseUint.
      rewrite ParseUint_loop_digits by (done || unfold strconv.maxUint64; lia).
      destruct (digits_value (String d ds) 0 >? 2 ^ 63) eqn:Hgt;
        [apply Z.gtb_lt in Hgt; lia|].
      f_equal.
      destruct (decide (digits_value (String d ds) 0 = 2 ^ 63)) as [->|]; [done|].
      rewrite (wrap64_id (digits_value (String d ds) 0))
        by (unfold in_range, min_int64, max_int64; lia).
      apply wrap64_id. unfold in_range, min_int64, max_int64; lia.
Qed.

End ParseIntSpec.

(** ** C5: parsing the output of [df] *)

(** The fields of the data line: the lines after the header joined by a
    space and split on white space. *)
Definition df_fields (out : string) : list string :=
  Fields.Fields (strings.Join (tail (strings.Split out LF)) " ").

(** The third of them. *)
Definition df_used_field (out : string) : option string :=
  nth_error (df_fields out) 2.

(** The errors [getDFBytes] makes itself, as opposed to those of running
    the command. *)
Definition is_parse_error (e : error) : bool :=
  match e with
  | ErrDfOutput | ErrDfFormat | ErrDfParse _ _ => true
  | _ => false
  end.

Lemma Split_length s sep : (1 <= List.length (strings.Split s sep))%nat.
Proof.
  induction s as [|c s IH]; simpl; [lia|].
  destruct (Ascii.eqb c sep); simpl; [lia|].
  destruct (strings.Split s sep); simpl in *; lia.
Qed.

Lemma getDFBytes_eq (out : string) :
  getDFBytes (inr out) =
    match df_used_field out with
    | None =>
        inl (if (List.length (strings.Split out LF) <? 2)%nat
             then ErrDfOutput else ErrDfFormat)
    | Some field =>
        match strconv.ParseInt field with
        | inl e => inl (ErrDfParse e field)
        | inr usedBytes => inr usedBytes
        end
    end.
Proof.
  unfold getDFBytes, df_used_field, df_fields.
  pose proof (Split_length out LF) as Hlen.
  destruct (strings.Split out LF) as [|header [|l1 rest]]; [simpl in Hlen; lia|done|].
  replace (List.length (header :: l1 :: rest) <? 2)%nat with false
    by (symmetry; apply Nat.ltb_ge; simpl; lia).
  cbn [tail].
  destruct (Fields.Fields (strings.Join (l1 :: rest) " ")) as [|f0 [|f1 [|f2 fs]]]; done.
Qed.

Lemma df_used_field_None (out : string) :
  df_used_field out = None <-> (List.length (df_fields out) < 3)%nat.
Proof.
  unfold df_used_field.
  destruct (df_fields out) as [|f0 [|f1 [|f2 fs]]]; simpl; split; (done || lia).
Qed.

Lemma ParseInt_fails (field : string) :
  (exists e, strconv.ParseInt field = inl e) <-> forall v, ~ is_decimal field v.
Proof.
  split.
  - intros [e He] v Hv. apply ParseInt_spec in Hv. congruence.
  - intros H. destruct (strconv.ParseInt field) as [e|v] eqn:Hp; [by exists e|].
    apply ParseInt_spec in Hp. by destruct (H v).
Qed.

(** C5: on the captured output of the command, [getDFBytes] returns
    [usedBytes] exactly when the joined lines after the header have a
    third white-space separated field and that field is a decimal
    numeral of the [int64] [usedBytes]; every error it returns is one of
    its own parse errors, and it returns one exactly when there are
    fewer than three fields or the third is not such a numeral. *)
Theorem getDFBytes_parses_used_field (out : string) :
  (forall usedBytes,
      getDFBytes (inr out) = inr usedBytes <->
      exists field, df_used_field out = Some field /\
                    is_decimal field usedBytes) /\
  (forall err,
      getDFBytes (inr out) = inl err ->
      is_parse_error err = true /\
      (err = (if (List.length (strings.Split out LF) <? 2)%nat
              then ErrDfOutput else ErrDfFormat) \/
       exists field e, df_used_field out = Some field /\
                       strconv.ParseInt field = inl e /\
                       err = ErrDfParse e field)) /\
  ((exists err, getDFBytes (inr out) = inl err) <->
   (List.length (df_fields out) < 3)%nat \/
   exists field, df_used_field out = Some field /\
                 forall v, ~ is_decimal field v).
Proof.
  rewrite getDFBytes_eq, <- df_used_field_None.
  destruct (df_used_field out) as [field|].
  - split; [|split].
    + intros u.
      destruct (strconv.ParseInt field) as [e|v] eqn:Hp; split.
      * discriminate.
      * intros (f & [= <-] & Hu). apply ParseInt_spec in Hu. congruence.
      * intros [= <-]. exists field. split; [done|]. by apply ParseInt_spec.
      * intros (f & [= <-] & Hu). apply ParseInt_spec in Hu. congruence.
    + intros err. destruct (strconv.ParseInt field) as [e|v] eqn:Hp; [|discriminate].
      intros [= <-]. split; [done|]. right. by exists field, e.
    + split.
      * intros [err Herr]. right. exists field. split; [done|].
        apply ParseInt_fails.
        destruct (strconv.ParseInt field) as [e|v]; [by exists e|discriminate].
      * intros [Hn|(f & [= <-] & Hf)]; [discriminate|].
        apply ParseInt_fails in Hf as [e ->]. by eexists.
  - split; [|split].
    + intros u. split; [discriminate|]. intros (f & Hf & _). discriminate.
    + intros err [= <-]. split; [by destruct (_ <? _)%nat|]. by left.
    + split; [by left|]. intros _. by eexists.
Qed.

(** A report whose device name pushed the figures to a second line, and
    one whose third field is not a number. *)
Example getDFBytes_wrapped_line :
  getDFBytes (inr (df_header +:+ endl +:+ "srv:/export/a/very/long/name" +:+ endl
                   +:+ "      1000 250 750 25% /mnt/a" +:+ endl)) = inr 250.
Proof. vm_compute. reflexivity. Qed.

Example getDFBytes_not_a_number :
  getDFBytes (inr (df_header +:+ endl +:+ "srv:/export/a 1000 - 750 25% /mnt/a" +:+ endl))
  = inl (ErrDfParse strconv.ErrSyntax "-").
Proof. vm_compute. reflexivity. Qed.

(** ** C6 and C10: formatting *)

Section Formatting.

Lemma formatBytes_unit bytes :
  formatBytes bytes =
    float64.Sprintf_2f (float64.div_pow2 (float64.of_int bytes)
                                         (if bytes >=? 2 ^ 40 then 40 else 30))
      +:+ (if bytes >=? 2 ^ 40 then " TiB" else " GiB").
Proof.
  unfold formatBytes. change TiB with (2 ^ 40). by destruct (bytes >=? 2 ^ 40).
Qed.

Lemma formatBytes_examples :
  formatBytes 1073741824 = "1.00 GiB" /\
  formatBytes 1099511627776 = "1.00 TiB" /\
  formatBytes 500000000 = "0.47 GiB".
Proof. repeat split; vm_compute; reflexivity. Qed.

Lemma formatDiff_examples :
  formatDiff 2147483648 = "+2.00 GiB" /\ formatDiff (-1073741824) = "-1.00 GiB".
Proof. split; vm_compute; reflexivity. Qed.

Lemma formatDiff_nonneg diff : 0 <= diff -> formatDiff diff = "+" +:+ formatBytes diff.
Proof.
  intros H. unfold formatDiff.
  replace (diff >=? 0) with true by (symmetry; apply Z.geb_le; lia). done.
Qed.

Lemma formatDiff_neg diff :
  min_int64 < diff < 0 -> formatDiff diff = "-" +:+ formatBytes (- diff).
Proof.
  intros H. unfold formatDiff.
  destruct (diff >=? 0) eqn:Hge; [apply Z.geb_le in Hge; lia|].
  unfold neg64. rewrite wrap64_id; [done|].
  unfold in_range, min_int64, max_int64 in *. lia.
Qed.

(** Away from the least [int64], a difference is printed as its sign
    and its magnitude. *)
Lemma formatDiff_sign_magnitude diff :
  min_int64 < diff <= max_int64 ->
  formatDiff diff = (if diff >=? 0 then "+" else "-") +:+ formatBytes (Z.abs diff).
Proof.
  intros H. destruct (diff >=? 0) eqn:Hge.
  - apply Z.geb_le in Hge. rewrite formatDiff_nonneg, Z.abs_eq by lia. done.
  - assert (diff < 0) by (destruct (Z.geb_spec diff 0); [done|lia]).
    rewrite formatDiff_neg, Z.abs_neq by lia. done.
Qed.

End Formatting.

(** C6: [formatDiff] at the least [int64]. The negation of line 215
    overflows and gives the same negative number back, so the text after
    the minus sign is not the magnitude [2^63] formatted ([8388608.00
    TiB]) but the negative number formatted in GiB, with a second minus
    sign. *)
Theorem formatDiff_min_int64_doubles_sign :
  in_range min_int64 /\
  neg64 min_int64 = min_int64 /\
  formatDiff min_int64 = "--8589934592.00 GiB" /\
  "-" +:+ formatBytes (Z.abs min_int64) = "-8388608.00 TiB".
Proof. repeat split; vm_compute; try reflexivity; discriminate. Qed.

(** C10: for a negative difference above the least [int64],
    [formatDiff] is a minus sign and [formatBytes] of the positive
    magnitude; at the least [int64] the negation wraps around, and the
    result is a minus sign and [formatBytes] of the same negative
    number, which starts with a minus sign of its own. *)
Theorem formatDiff_negative :
  (forall diff, min_int64 < diff < 0 ->
                0 < - diff /\ formatDiff diff = "-" +:+ formatBytes (- diff)) /\
  neg64 min_int64 = min_int64 /\
  formatDiff min_int64 = "-" +:+ formatBytes min_int64 /\
  formatDiff min_int64 = "--8589934592.00 GiB".
Proof.
  split; [|repeat split; vm_compute; reflexivity].
  intros diff H. split; [lia|]. by apply formatDiff_neg.
Qed.

Lemma formatDiff_negative_witness :
  formatDiff (-1073741824) = "-" +:+ formatBytes (- (-1073741824)).
Proof.
  refine (proj2 (proj1 formatDiff_negative (-1073741824) _)).
  split; reflexivity.
Defined.

(** ** The rows of the comparison *)




Definition absent_from (current : UsageEntry) (kv : string * Z) : Prop :=
  map_get (Mounts current) kv.1 = None.

#[global] Instance absent_from_dec current kv : Decision (absent_from current kv).
Proof. unfold absent_from. apply _. Defined.

Section ComparisonRows.





Lemma neg64_exact a : min_int64 < a <= max_int64 -> neg64 a = - a.
Proof.
  intros Ha. apply wrap64_id. unfold in_range, min_int64, max_int64 in *. lia.
Qed.

End ComparisonRows.

(** ** C8: the first run with [-compare] *)

Definition with_compare (compare : bool) (env : Env) : Env :=
  mkEnv (flag_file env) compare (os_Getwd env) (filepath_Join env) (proc_mounts env)
        (df env) (time_Now_Unix env) (os_ReadFile env) (os_WriteFile env)
        (range_order env).

Section Run.

Variable env : Env.

Lemma report_single currentEntry :
  report env [currentEntry] currentEntry =
    printCurrent (range_order env 222 (entries_of (Mounts currentEntry)))
                 (range_order env 229 (entries_of (Mounts currentEntry)))
                 currentEntry.
Proof. unfold report. by destruct (flag_compare env). Qed.

Lemma report_no_compare entries currentEntry :
  flag_compare env = false ->
  report env entries currentEntry =
    printCurrent (range_order env 222 (entries_of (Mounts currentEntry)))
                 (range_order env 229 (entries_of (Mounts currentEntry)))
                 currentEntry.
Proof. unfold report. by intros ->. Qed.

(** What a run does once the mounts are known and not empty. *)
Lemma main_eq filePath nfsMounts :
  resolve_path env = inr filePath ->
  getNFSMounts (proc_mounts env) = (nfsMounts, None) ->
  nfsMounts <> [] ->
  main env =
    let currentEntry := (sample env nfsMounts).1 in
    let warnings := (sample env nfsMounts).2 in
    let loaded := (loadEntries (os_ReadFile env filePath)).1 in
    match (loadEntries (os_ReadFile env filePath)).2 with
    | Some e =>
        if negb (IsNotExist e) then mkResult EmptyString (warnings ++ [MsgLoad e]) 1 None
        else save_and_report env filePath loaded currentEntry warnings
    | None => save_and_report env filePath loaded currentEntry warnings
    end.
Proof.
  intros Hp Hm Hne. unfold main. rewrite Hp, Hm.
  destruct nfsMounts as [|m ms]; [done|]. cbn [List.length Nat.eqb].
  destruct (sample env (m :: ms)) as [cur warnings].
  destruct (loadEntries (os_ReadFile env filePath)) as [loaded err]. done.
Qed.

End Run.

Lemma sample_with_compare b env nfsMounts :
  sample (with_compare b env) nfsMounts = sample env nfsMounts.
Proof.
  unfold sample. change (time_Now_Unix (with_compare b env)) with (time_Now_Unix env).
  assert (H : forall l i m t w,
             sample_loop (with_compare b env) i l m t w = sample_loop env i l m t w).
  { induction l as [|mount l IH]; intros i m t w; simpl; [done|].
    destruct (getDFBytes (df env i mount)); apply IH. }
  by rewrite H.
Qed.

(** C8: when the comparison is asked for and no sample was stored
    before this run, the run is the run without the flag: the same
    output, the same messages, the same exit code and the same file
    written; its output, when it succeeds, is the current-only listing
    of the fresh sample, and its messages are the sampling warnings. *)
Theorem first_run_compare_prints_current (env : Env) :
  flag_compare env = true ->
  (forall filePath,
      resolve_path env = inr filePath ->
      default [] (loadEntries (os_ReadFile env filePath)).1 = []) ->
  main env = main (with_compare false env) /\
  (forall filePath nfsMounts,
      resolve_path env = inr filePath ->
      getNFSMounts (proc_mounts env) = (nfsMounts, None) ->
      nfsMounts <> [] ->
      exit_code (main env) = 0 ->
      let currentEntry := (sample env nfsMounts).1 in
      List.length (append_entry (loadEntries (os_ReadFile env filePath)).1 currentEntry) = 1%nat /\
      stdout (main env) =
        printCurrent (range_order env 222 (entries_of (Mounts currentEntry)))
                     (range_order env 229 (entries_of (Mounts currentEntry)))
                     currentEntry /\
      stderr (main env) = (sample env nfsMounts).2).
Proof.
  intros Hflag Hempty. split.
  - unfold main. change (resolve_path (with_compare false env)) with (resolve_path env).
    destruct (resolve_path env) as [err|filePath] eqn:Hp; [done|].
    change (proc_mounts (with_compare false env)) with (proc_mounts env).
    destruct (getNFSMounts (proc_mounts env)) as [nfsMounts [err|]]; [done|].
    destruct (List.length nfsMounts =? 0)%nat; [done|].
    rewrite sample_with_compare.
    destruct (sample env nfsMounts) as [cur warnings].
    change (os_ReadFile (with_compare false env)) with (os_ReadFile env).
    specialize (Hempty filePath eq_refl).
    destruct (loadEntries (os_ReadFile env filePath)) as [loaded err]. simpl in Hempty.
    assert (Hsr : save_and_report env filePath loaded cur warnings =
                  save_and_report (with_compare false env) filePath loaded cur warnings).
    { unfold save_and_report, append_entry. rewrite Hempty. simpl.
      destruct (os_WriteFile env filePath _); [done|].
      by rewrite report_single, (report_no_compare (with_compare false env)). }
    rewrite Hsr. done.
  - intros filePath nfsMounts Hp Hm Hne Hexit currentEntry.
    rewrite (main_eq env filePath nfsMounts Hp Hm Hne) in *.
    specialize (Hempty filePath Hp). fold currentEntry in Hexit |- *.
    destruct (loadEntries (os_ReadFile env filePath)) as [loaded err].
    simpl in Hempty. cbn [fst snd] in *.
    unfold append_entry. rewrite Hempty. split; [done|].
    assert (Hsr : forall w, exit_code (save_and_report env filePath loaded currentEntry w) = 0 ->
                  stdout (save_and_report env filePath loaded currentEntry w) =
                    printCurrent (range_order env 222 (entries_of (Mounts currentEntry)))
                                 (range_order env 229 (entries_of (Mounts currentEntry)))
                                 currentEntry /\
                  stderr (save_and_report env filePath loaded currentEntry w) = w).
    { intros w. unfold save_and_report, append_entry. rewrite Hempty. simpl.
      destruct (os_WriteFile env filePath _); simpl; [discriminate|].
      intros _. by rewrite report_single. }
    destruct err as [e|]; [|by apply Hsr].
    destruct (negb (IsNotExist e)); [simpl in Hexit; discriminate|by apply Hsr].
Qed.

(** A first run with the comparison flag: no history file yet. *)
Definition c8_env : Env :=
  mkEnv "/var/lib/nfsusage.json" true (inr "/")
        (fun dir name => dir +:+ "/" +:+ name)
        (inr ("srv:/export/a /mnt/a nfs4 rw 0 0" +:+ endl))
        (fun _ _ => inr (df_header +:+ endl +:+ "srv:/export/a 100 1 99 1% /mnt/a" +:+ endl))
        1700000000
        (fun _ => inl (SysError "open /var/lib/nfsusage.json: no such file or directory" true))
        (fun _ _ => None)
        (fun _ m => map_to_list m).

Lemma first_run_compare_prints_current_witness :
  main c8_env = main (with_compare false c8_env) /\
  stdout (main c8_env) = "/mnt/a  0.00 GiB" +:+ endl +:+ "total   0.00 GiB" +:+ endl.
Proof.
  split.
  - refine (proj1 (first_run_compare_prints_current c8_env _ _)).
    + reflexivity.
    + intros filePath _. reflexivity.
  - vm_compute. reflexivity.
Defined.

(** ** How a run ends *)

Section Outcomes.

Variable env : Env.

(** The ways through [main]. *)
Lemma main_cases :
  (exists err, resolve_path env = inl err /\
               main env = mkResult EmptyString [MsgGetwd err] 1 None) \/
  (exists p ms err, resolve_path env = inr p /\
                    getNFSMounts (proc_mounts env) = (ms, Some err) /\
                    main env = mkResult EmptyString [MsgMounts err] 1 None) \/
  (exists p, resolve_path env = inr p /\
             getNFSMounts (proc_mounts env) = ([], None) /\
             main env = mkResult EmptyString [MsgNoMounts] 0 None) \/
  (exists p ms e, resolve_path env = inr p /\
                  getNFSMounts (proc_mounts env) = (ms, None) /\ ms <> [] /\
                  (loadEntries (os_ReadFile env p)).2 = Some e /\ IsNotExist e = false /\
                  main env = mkResult EmptyString ((sample env ms).2 ++ [MsgLoad e]) 1 None) \/
  (exists p ms, resolve_path env = inr p /\
                getNFSMounts (proc_mounts env) = (ms, None) /\ ms <> [] /\
                (forall e, (loadEntries (os_ReadFile env p)).2 = Some e -> IsNotExist e = true) /\
                main env = save_and_report env p (loadEntries (os_ReadFile env p)).1
                                           (sample env ms).1 (sample env ms).2).
Proof.
  destruct (resolve_path env) as [err|p] eqn:Hp.
  { left. exists err. split; [done|]. unfold main. by rewrite Hp. }
  destruct (getNFSMounts (proc_mounts env)) as [ms [err|]] eqn:Hm.
  { right; left. exists p, ms, err. split; [done|]. split; [done|].
    unfold main. by rewrite Hp, Hm. }
  destruct ms as [|m ms].
  { right; right; left. exists p. split; [done|]. split; [done|].
    unfold main. by rewrite Hp, Hm. }
  pose proof (main_eq env p (m :: ms) Hp Hm ltac:(done)) as Heq. cbv zeta in Heq.
  destruct (loadEntries (os_ReadFile env p)).2 as [e|] eqn:He.
  - destruct (IsNotExist e) eqn:Hne; simpl in Heq.
    + right; right; right; right. exists p, (m :: ms).
      repeat (split; [done|]). split; [|done]. intros e' He'. congruence.
    + right; right; right; left. exists p, (m :: ms), e. by repeat (split; [done|]).
  - right; right; right; right. exists p, (m :: ms).
    repeat (split; [done|]). split; [|done]. intros e' He'. congruence.
Qed.

End Outcomes.

(** ** C7: the comparison table *)

(** The byte counts and the total of a Sample of the data model:
    integers that are not negative, held in [int64] fields. *)
Definition sample_values (e : UsageEntry) : Prop :=
  map_Forall (fun _ bytes => 0 <= bytes <= max_int64) (entries_of (Mounts e)) /\
  0 <= Total e <= max_int64.

#[global] Instance sample_values_dec e : Decision (sample_values e).
Proof. unfold sample_values. apply _. Defined.










Section ComparisonTable.












End ComparisonTable.


(** The scenario of the specification: one stored sample, two mounts
    now. *)
Definition c7_oldest : UsageEntry :=
  mkUsageEntry 1700000000 (Some {["/mnt/a" := 1073741824]}) 1073741824.

Definition c7_current : UsageEntry :=
  mkUsageEntry 1700003600
    (Some (<["/mnt/a" := 2147483648]> {["/mnt/b" := 1073741824]})) 3221225472.

Definition c7_env : Env :=
  mkEnv "/var/lib/nfsusage.json" true (inr "/")
        (fun dir name => dir +:+ "/" +:+ name)
        (inr ("srv:/export/a /mnt/a nfs4 rw 0 0" +:+ endl
              +:+ "srv:/export/b /mnt/b nfs4 rw 0 0" +:+ endl))
        (fun _ mount =>
           inr (df_header +:+ endl +:+
                (if String.eqb mount "/mnt/a"
                 then "srv:/export/a 4294967296 2147483648 2147483648 50% /mnt/a"
                 else "srv:/export/b 4294967296 1073741824 3221225472 25% /mnt/b")
                +:+ endl))
        1700003600
        (fun _ => inr (saveEntries_data (Some [c7_oldest])))
        (fun _ _ => None)
        (fun _ m => map_to_list m).

Definition c7_rows : list row :=
  [ mkRow "/mnt/a" "1.00 GiB" "2.00 GiB" "+1.00 GiB";
    mkRow "/mnt/b" "0.00 GiB" "1.00 GiB" "+1.00 GiB";
    mkRow "total" "1.00 GiB" "3.00 GiB" "+2.00 GiB" ].

Lemma comparison_scenario :
  comparison_rows (map_to_list (entries_of (Mounts c7_current)))
                  (map_to_list (entries_of (Mounts c7_oldest))) c7_oldest c7_current
  = c7_rows /\
  (sample c7_env ["/mnt/a"; "/mnt/b"]).1 = c7_current /\
  filterEntry c7_oldest = c7_oldest.
Proof. repeat split; vm_compute; reflexivity. Qed.


(** The text of that table. *)
Example comparison_output :
  stdout (main c7_env) =
    "Mountpoint    Oldest   Current  Difference" +:+ endl +:+
    "----------  --------  --------  ----------" +:+ endl +:+
    "/mnt/a      1.00 GiB  2.00 GiB   +1.00 GiB" +:+ endl +:+
    "/mnt/b      0.00 GiB  1.00 GiB   +1.00 GiB" +:+ endl +:+
    "total       1.00 GiB  3.00 GiB   +2.00 GiB" +:+ endl.
Proof. vm_compute. reflexivity. Qed.

(** ** UTF-8: decoding and encoding *)

Fixpoint all_high (s : string) : bool :=
  match s with
  | EmptyString => true
  | String c s' => (128 <=? byte_val c) && all_high s'
  end.

(** What [DecodeRuneInString] says of a string that is not empty: an
    ASCII byte, a byte that starts no valid encoding, or a valid
    encoding of two to four bytes, which [EncodeRune] writes back and
    which is decoded alike whatever follows it. *)
Definition decoded (s : string) (r : Z) (n : nat) : Prop :=
  match s with
  | EmptyString => False
  | String c _ =>
      (n = 1%nat /\ byte_val c < 128 /\ r = byte_val c) \/
      (n = 1%nat /\ 128 <= byte_val c /\ r = utf8.RuneError) \/
      ((2 <= n)%nat /\ (n <= String.length s)%nat /\ 128 <= r /\
       utf8.EncodeRune r = string_take n s /\ all_high (string_take n s) = true /\
       forall t, utf8.DecodeRuneInString (string_take n s +:+ t) = (r, n))
  end.

Section Utf8.

Lemma testbit_small lo k n : 0 <= lo < 2 ^ k -> 0 <= k <= n -> Z.testbit lo n = false.
Proof.
  intros Hlo Hk. destruct (decide (lo = 0)) as [->|Hne]; [apply Z.bits_0|].
  apply Z.bits_above_log2; [lia|].
  assert (Z.log2 lo < k) by (apply Z.log2_lt_pow2; lia). lia.
Qed.

(** Bits that do not overlap are added. *)
Lemma lor_add x lo k : 0 <= k -> x mod 2 ^ k = 0 -> 0 <= lo < 2 ^ k -> Z.lor x lo = x + lo.
Proof.
  intros Hk Hx Hlo.
  assert (H0 : Z.land x lo = 0).
  { apply Z.bits_inj'. intros n Hn. rewrite Z.land_spec, Z.bits_0.
    destruct (Z.ltb_spec n k).
    - rewrite <- (Z.mod_pow2_bits_low x k n) by lia. rewrite Hx, Z.bits_0. done.
    - rewrite (testbit_small lo k n) by lia. apply andb_false_r. }
  rewrite <- Z.lxor_lor by done. symmetry. by apply Z.add_nocarry_lxor.
Qed.

Ltac arith :=
  change (2 ^ 3) with 8 in *; change (2 ^ 4) with 16 in *; change (2 ^ 5) with 32 in *;
  change (2 ^ 6) with 64 in *; change (2 ^ 12) with 4096 in *;
  change (2 ^ 18) with 262144 in *;
  Z.div_mod_to_equations; lia.

Ltac lor_step k :=
  match goal with
  | |- context [Z.lor ?a ?b] =>
      lazymatch a with context [Z.lor _ _] => fail | _ => idtac end;
      lazymatch b with context [Z.lor _ _] => fail | _ => idtac end;
      rewrite (lor_add a b k) by arith
  end.

Ltac bits_to_arith :=
  change 63 with (Z.ones 6) in *; change 31 with (Z.ones 5) in *;
  change 15 with (Z.ones 4) in *; change 7 with (Z.ones 3) in *;
  rewrite ?Z.land_ones by lia;
  rewrite ?Z.shiftl_mul_pow2 by lia;
  rewrite ?Z.shiftr_div_pow2 by lia;
  repeat first [lor_step 18 | lor_step 12 | lor_step 6 | lor_step 4 | lor_step 3].

Ltac ztest :=
  repeat match goal with
  | |- context [?a <? ?b] =>
      first [ replace (a <? b) with true by (symmetry; apply Z.ltb_lt; lia)
            | replace (a <? b) with false by (symmetry; apply Z.ltb_ge; lia) ]
  | |- context [?a <=? ?b] =>
      first [ replace (a <=? b) with true by (symmetry; apply Z.leb_le; lia)
            | replace (a <=? b) with false by (symmetry; apply Z.leb_gt; lia) ]
  | |- context [?a =? ?b] =>
      first [ replace (a =? b) with true by (symmetry; apply Z.eqb_eq; lia)
            | replace (a =? b) with false by (symmetry; apply Z.eqb_neq; lia) ]
  end.

Lemma two_byte p0 b1 :
  194 <= p0 <= 223 -> 128 <= b1 <= 191 ->
  let r := Z.lor (Z.shiftl (Z.land p0 31) 6) (Z.land b1 63) in
  128 <= r <= 2047 /\ Z.lor 192 (Z.shiftr r 6) = p0 /\ Z.lor 128 (Z.land r 63) = b1.
Proof.
  intros H0 H1 r. subst r. bits_to_arith. repeat split; arith.
Qed.

Lemma three_byte p0 b1 b2 :
  224 <= p0 <= 239 -> 128 <= b1 <= 191 -> 128 <= b2 <= 191 ->
  (p0 = 224 -> 160 <= b1) -> (p0 = 237 -> b1 <= 159) ->
  let r := Z.lor (Z.lor (Z.shiftl (Z.land p0 15) 12) (Z.shiftl (Z.land b1 63) 6))
                 (Z.land b2 63) in
  (2048 <= r <= 65535 /\ (r < 55296 \/ 57343 < r)) /\
  Z.lor 224 (Z.shiftr r 12) = p0 /\
  Z.lor 128 (Z.land (Z.shiftr r 6) 63) = b1 /\
  Z.lor 128 (Z.land r 63) = b2.
Proof.
  intros H0 H1 H2 Hlo Hhi r. subst r. bits_to_arith. repeat split; arith.
Qed.

Lemma four_byte p0 b1 b2 b3 :
  240 <= p0 <= 244 -> 128 <= b1 <= 191 -> 128 <= b2 <= 191 -> 128 <= b3 <= 191 ->
  (p0 = 240 -> 144 <= b1) -> (p0 = 244 -> b1 <= 143) ->
  let r := Z.lor (Z.lor (Z.lor (Z.shiftl (Z.land p0 7) 18) (Z.shiftl (Z.land b1 63) 12))
                        (Z.shiftl (Z.land b2 63) 6))
                 (Z.land b3 63) in
  65536 <= r <= 1114111 /\
  Z.lor 240 (Z.shiftr r 18) = p0 /\
  Z.lor 128 (Z.land (Z.shiftr r 12) 63) = b1 /\
  Z.lor 128 (Z.land (Z.shiftr r 6) 63) = b2 /\
  Z.lor 128 (Z.land r 63) = b3.
Proof.
  intros H0 H1 H2 H3 Hlo Hhi r. subst r. bits_to_arith. repeat split; arith.
Qed.

Lemma EncodeRune_1 r : 0 <= r <= 127 -> utf8.EncodeRune r = String (byte_of r) EmptyString.
Proof. intros H. unfold utf8.EncodeRune, utf8.MaxRune. ztest. done. Qed.

Lemma EncodeRune_2 r :
  128 <= r <= 2047 ->
  utf8.EncodeRune r =
    String (byte_of (Z.lor 192 (Z.shiftr r 6)))
      (String (byte_of (Z.lor 128 (Z.land r 63))) EmptyString).
Proof. intros H. unfold utf8.EncodeRune, utf8.MaxRune. ztest. done. Qed.

Lemma EncodeRune_3 r :
  2048 <= r <= 65535 -> r < 55296 \/ 57343 < r -> utf8.EncodeRune r = utf8.enc3 r.
Proof.
  intros H Hs. unfold utf8.EncodeRune, utf8.MaxRune. ztest.
  destruct Hs; ztest; by rewrite ?andb_false_r.
Qed.

Lemma EncodeRune_4 r :
  65536 <= r <= 1114111 ->
  utf8.EncodeRune r =
    String (byte_of (Z.lor 240 (Z.shiftr r 18)))
      (String (byte_of (Z.lor 128 (Z.land (Z.shiftr r 12) 63)))
         (String (byte_of (Z.lor 128 (Z.land (Z.shiftr r 6) 63)))
            (String (byte_of (Z.lor 128 (Z.land r 63))) EmptyString))).
Proof. intros H. unfold utf8.EncodeRune, utf8.MaxRune. ztest. done. Qed.

Lemma high_true b : 128 <= b -> (128 <=? b) = true.
Proof. intros. by apply Z.leb_le. Qed.

(** A sequence that [decode_seq] accepts is written back by
    [EncodeRune], and read alike with anything after it. *)
Lemma decode_seq_spec sz lo hi c s :
  let p0 := byte_val c in
  (sz = 2%nat /\ 194 <= p0 <= 223 \/
   sz = 3%nat /\ 224 <= p0 <= 239 /\ (p0 = 224 -> 160 <= lo) /\ (p0 = 237 -> hi <= 159) \/
   sz = 4%nat /\ 240 <= p0 <= 244 /\ (p0 = 240 -> 144 <= lo) /\ (p0 = 244 -> hi <= 143)) ->
  128 <= lo -> hi <= 191 ->
  let r := (utf8.decode_seq sz lo hi p0 s).1 in
  let n := (utf8.decode_seq sz lo hi p0 s).2 in
  (n = 1%nat /\ r = utf8.RuneError) \/
  ((2 <= n)%nat /\ (n <= S (String.length s))%nat /\ 128 <= r /\
   utf8.EncodeRune r = string_take n (String c s) /\
   all_high (string_take n (String c s)) = true /\
   forall t, utf8.decode_seq sz lo hi p0 (string_take (n - 1) s +:+ t) = (r, n)).
Proof.
  intros p0 Hsz Hlo Hhi. unfold utf8.decode_seq.
  pose proof (byte_val_range c) as Hc. fold p0 in Hc.
  destruct s as [|c1 s]; [left; done|].
  pose proof (byte_val_range c1) as Hc1. cbv zeta.
  destruct ((byte_val c1 <? lo) || (hi <? byte_val c1)) eqn:T1; [left; done|].
  apply orb_false_elim in T1 as [T1a T1b].
  pose proof T1a as T1a'. pose proof T1b as T1b'.
  apply Z.ltb_ge in T1a'. apply Z.ltb_ge in T1b'.
  destruct Hsz as [[-> Hp]|[(-> & Hp & H1 & H2)|(-> & Hp & H1 & H2)]]; cbn [Nat.leb].
  - right. cbn [fst snd].
    destruct (two_byte p0 (byte_val c1) ltac:(lia) ltac:(lia)) as (Hr & E0 & E1).
    split; [lia|]. split; [simpl; lia|]. split; [lia|].
    rewrite EncodeRune_2 by done. rewrite E0, E1. unfold p0. rewrite !byte_of_val.
    split; [done|]. split.
    + simpl. fold p0. rewrite !high_true by lia. done.
    + intros t. simpl. rewrite ?append_cons. rewrite T1a, T1b. done.
  - destruct s as [|c2 s]; [left; done|].
    pose proof (byte_val_range c2) as Hc2.
    destruct (utf8.cont (byte_val c2)) eqn:T2; [|left; done].
    pose proof T2 as T2'. unfold utf8.cont, utf8.locb, utf8.hicb in T2'.
    apply andb_prop in T2' as [T2a T2b]. apply Z.leb_le in T2a, T2b.
    right. cbn [negb fst snd].
    destruct (three_byte p0 (byte_val c1) (byte_val c2)
                ltac:(lia) ltac:(lia) ltac:(lia) ltac:(lia) ltac:(lia))
      as ((Hr & Hsur) & E0 & E1 & E2).
    split; [lia|]. split; [simpl; lia|]. split; [lia|].
    rewrite EncodeRune_3 by done. unfold utf8.enc3. rewrite E0, E1, E2.
    unfold p0. rewrite !byte_of_val.
    split; [done|]. split.
    + simpl. fold p0. rewrite !high_true by lia. done.
    + intros t. simpl. rewrite ?append_cons. rewrite T1a, T1b, T2. done.
  - destruct s as [|c2 s]; [left; done|].
    pose proof (byte_val_range c2) as Hc2.
    destruct (utf8.cont (byte_val c2)) eqn:T2; [|left; done].
    pose proof T2 as T2'. unfold utf8.cont, utf8.locb, utf8.hicb in T2'.
    apply andb_prop in T2' as [T2a T2b]. apply Z.leb_le in T2a, T2b.
    cbn [negb].
    destruct s as [|c3 s]; [left; done|].
    pose proof (byte_val_range c3) as Hc3.
    destruct (utf8.cont (byte_val c3)) eqn:T3; [|left; done].
    pose proof T3 as T3'. unfold utf8.cont, utf8.locb, utf8.hicb in T3'.
    apply andb_prop in T3' as [T3a T3b]. apply Z.leb_le in T3a, T3b.
    right. cbn [negb fst snd].
    destruct (four_byte p0 (byte_val c1) (byte_val c2) (byte_val c3)
                ltac:(lia) ltac:(lia) ltac:(lia) ltac:(lia) ltac:(lia) ltac:(lia))
      as (Hr & E0 & E1 & E2 & E3).
    split; [lia|]. split; [simpl; lia|]. split; [lia|].
    rewrite EncodeRune_4 by done. rewrite E0, E1, E2, E3.
    unfold p0. rewrite !byte_of_val.
    split; [done|]. split.
    + simpl. fold p0. rewrite !high_true by lia. done.
    + intros t. simpl. rewrite ?append_cons. rewrite T1a, T1b, T2, T3. done.
Qed.

Lemma decode_spec c s :
  decoded (String c s) (utf8.DecodeRuneInString (String c s)).1
          (utf8.DecodeRuneInString (String c s)).2.
Proof.
  unfold utf8.DecodeRuneInString, decoded.
  pose proof (byte_val_range c) as Hc. cbv zeta.
  assert (Hseq : forall sz lo hi,
    utf8.first (byte_val c) = utf8.LeadSeq sz lo hi ->
    128 <= byte_val c ->
    (sz = 2%nat /\ 194 <= byte_val c <= 223 \/
     sz = 3%nat /\ 224 <= byte_val c <= 239 /\
       (byte_val c = 224 -> 160 <= lo) /\ (byte_val c = 237 -> hi <= 159) \/
     sz = 4%nat /\ 240 <= byte_val c <= 244 /\
       (byte_val c = 240 -> 144 <= lo) /\ (byte_val c = 244 -> hi <= 143)) /\
    128 <= lo /\ hi <= 191).
  { intros sz lo hi. unfold utf8.first, utf8.locb, utf8.hicb.
    repeat match goal with
           | |- context [Z.ltb ?a ?b] => destruct (Z.ltb_spec a b)
           | |- context [Z.eqb ?a ?b] => destruct (Z.eqb_spec a b)
           end; intros [= <- <- <-] Hh; try discriminate; (split; [|lia]);
      first [left; split; [done|lia] | right; left; repeat split; (done || lia)
            | right; right; repeat split; (done || lia)]. }
  destruct (utf8.first (byte_val c)) as [| |sz lo hi] eqn:Hf.
  - left. unfold utf8.first in Hf.
    destruct (Z.ltb_spec (byte_val c) 128); [done|].
    repeat match type of Hf with
           | context [Z.ltb ?a ?b] => destruct (Z.ltb_spec a b)
           | context [Z.eqb ?a ?b] => destruct (Z.eqb_spec a b)
           end; discriminate.
  - right. left. unfold utf8.first in Hf.
    destruct (Z.ltb_spec (byte_val c) 128); [discriminate|done].
  - assert (128 <= byte_val c).
    { unfold utf8.first in Hf.
      destruct (Z.ltb_spec (byte_val c) 128); [discriminate|done]. }
    destruct (Hseq sz lo hi eq_refl H) as (Hsz & Hlo & Hhi).
    destruct (decode_seq_spec sz lo hi c s Hsz Hlo Hhi) as [[H1 H2]|(H1 & H2 & H3 & H4 & H5 & H6)].
    + right. left. done.
    + right. right. repeat split; try done.
      intros t.
      destruct (utf8.decode_seq sz lo hi (byte_val c) s) as [r n] eqn:Hd.
      cbn [fst snd] in *.
      destruct n as [|n]; [lia|]. cbn [string_take]. rewrite append_cons.
      unfold utf8.DecodeRuneInString. rewrite Hf.
      replace (S n - 1)%nat with n in H6 by lia. apply H6.
Qed.

(** *** The runes of a string *)

Lemma string_drop_length n s : String.length (string_drop n s) = (String.length s - n)%nat.
Proof.
  revert s. induction n as [|n IH]; intros [|c s]; simpl; done.
Qed.

Lemma string_take_drop n s : string_take n s +:+ string_drop n s = s.
Proof.
  revert s. induction n as [|n IH]; intros [|c s]; simpl; try done.
  rewrite append_cons. by rewrite IH.
Qed.

Lemma string_take_length n s :
  (n <= String.length s)%nat -> String.length (string_take n s) = n.
Proof.
  revert s. induction n as [|n IH]; intros [|c s]; simpl; try done; try lia.
  intros H. rewrite IH; lia.
Qed.

Lemma decode_size c s :
  (1 <= (utf8.DecodeRuneInString (String c s)).2 <= S (String.length s))%nat.
Proof.
  pose proof (decode_spec c s) as H. unfold decoded in H.
  destruct H as [(-> & _)|[(-> & _)|(H1 & H2 & _)]]; simpl in *; lia.
Qed.

Lemma runes_fuel_enough f1 : forall f2 s,
  (String.length s <= f1)%nat -> (String.length s <= f2)%nat ->
  utf8.runes_fuel f1 s = utf8.runes_fuel f2 s.
Proof.
  induction f1 as [|f1 IH]; intros f2 s H1 H2.
  - destruct s; [|simpl in H1; lia]. by destruct f2.
  - destruct s as [|c s]; [by destruct f2|].
    destruct f2 as [|f2]; [simpl in H2; lia|].
    cbn [utf8.runes_fuel].
    pose proof (decode_size c s) as Hn.
    destruct (utf8.DecodeRuneInString (String c s)) as [r n]. cbn [snd] in Hn.
    f_equal. apply IH; rewrite string_drop_length; simpl in *; lia.
Qed.

Lemma runes_nil : utf8.runes EmptyString = [].
Proof. done. Qed.

Lemma runes_cons c s :
  utf8.runes (String c s) =
    ((utf8.DecodeRuneInString (String c s)).1,
     string_take (utf8.DecodeRuneInString (String c s)).2 (String c s))
      :: utf8.runes (string_drop (utf8.DecodeRuneInString (String c s)).2 (String c s)).
Proof.
  unfold utf8.runes at 1. cbn [String.length utf8.runes_fuel].
  pose proof (decode_size c s) as Hn.
  destruct (utf8.DecodeRuneInString (String c s)) as [r n]. cbn [fst snd] in *.
  f_equal. unfold utf8.runes. apply runes_fuel_enough; [|done].
  rewrite string_drop_length. simpl. lia.
Qed.

(** Induction over a string rune by rune. *)
Lemma runes_ind (P : string -> Prop) :
  P EmptyString ->
  (forall c s, P (string_drop (utf8.DecodeRuneInString (String c s)).2 (String c s)) ->
               P (String c s)) ->
  forall s, P s.
Proof.
  intros Hnil Hcons s.
  remember (String.length s) as k eqn:Hk. revert s Hk.
  induction k as [k IH] using lt_wf_ind. intros [|c s] Hk; [done|].
  apply Hcons. eapply IH; [|reflexivity].
  rewrite string_drop_length. pose proof (decode_size c s). simpl in *. lia.
Qed.

End Utf8.

(** ** Strings in JSON: [appendString], the scanner and [unquote] *)

(** A byte that is no UTF-8: [DecodeRuneInString] gives [RuneError]
    with width 1. *)
Definition invalid_rune (rs : Z * string) : bool :=
  (rs.1 =? utf8.RuneError) && (String.length rs.2 =? 1)%nat.

(** What is read back for one rune: itself, or [U+FFFD] for a byte that
    is no UTF-8. *)
Definition coerce_rune (rs : Z * string) : string :=
  if invalid_rune rs then utf8.EncodeRune utf8.RuneError else rs.2.

Fixpoint coerce_runes (rs : list (Z * string)) : string :=
  match rs with
  | [] => EmptyString
  | r :: rs' => coerce_rune r +:+ coerce_runes rs'
  end.

(** The string with every byte that is no UTF-8 replaced by [U+FFFD]. *)
Definition coerce_utf8 (s : string) : string := coerce_runes (utf8.runes s).

Section JsonStrings.

Lemma append_length (s t : string) :
  String.length (s +:+ t) = (String.length s + String.length t)%nat.
Proof. induction s as [|c s IH]; [done|]. rewrite append_cons. simpl. by rewrite IH. Qed.

Lemma string_drop_app s t : string_drop (String.length s) (s +:+ t) = t.
Proof. induction s as [|c s IH]; [done|]. rewrite append_cons. simpl. apply IH. Qed.

Lemma prepend_prepend a b x :
  json.prepend a (json.prepend b x) = json.prepend (a +:+ b) x.
Proof. destruct x as [t|]; simpl; [|done]. by rewrite append_assoc. Qed.

Lemma cons_raw_cons_raw a b x :
  json.cons_raw a (json.cons_raw b x) = json.cons_raw (a +:+ b) x.
Proof. destruct x as [[raw rest]|]; simpl; [|done]. by rewrite append_assoc. Qed.

Lemma cons_raw_Some a raw rest :
  json.cons_raw a (Some (raw, rest)) = Some (a +:+ raw, rest).
Proof. done. Qed.

(** *** One rune at a time *)

Lemma unquote_step_ascii c r fuel tail :
  byte_val c < 128 ->
  json.unquote_loop (S fuel) (json.escape_rune (r, String c EmptyString) +:+ tail) =
    json.prepend (String c EmptyString) (json.unquote_loop fuel tail).
Proof.
  intros H. destruct c as [[] [] [] [] [] [] [] []]; try (by vm_compute in H); reflexivity.
Qed.

Lemma scan_step_ascii c r tail :
  byte_val c < 128 ->
  json.scan_string (json.escape_rune (r, String c EmptyString) +:+ tail) =
    json.cons_raw (json.escape_rune (r, String c EmptyString)) (json.scan_string tail).
Proof.
  intros H. destruct c as [[] [] [] [] [] [] [] []]; try (by vm_compute in H); reflexivity.
Qed.

Lemma unquote_step_invalid c fuel tail :
  128 <= byte_val c ->
  json.unquote_loop (S fuel)
      (json.escape_rune (utf8.RuneError, String c EmptyString) +:+ tail) =
    json.prepend (utf8.EncodeRune utf8.RuneError) (json.unquote_loop fuel tail).
Proof.
  intros H. destruct c as [[] [] [] [] [] [] [] []];
    try (exfalso; apply H; reflexivity); reflexivity.
Qed.

Lemma scan_step_invalid c tail :
  128 <= byte_val c ->
  json.scan_string (json.escape_rune (utf8.RuneError, String c EmptyString) +:+ tail) =
    json.cons_raw (json.escape_rune (utf8.RuneError, String c EmptyString))
                  (json.scan_string tail).
Proof.
  intros H. destruct c as [[] [] [] [] [] [] [] []];
    try (exfalso; apply H; reflexivity); reflexivity.
Qed.

Lemma unquote_loop_high c s fuel :
  128 <= byte_val c ->
  json.unquote_loop (S fuel) (String c s) =
    json.prepend (utf8.EncodeRune (utf8.DecodeRuneInString (String c s)).1)
      (json.unquote_loop fuel
         (string_drop (utf8.DecodeRuneInString (String c s)).2 (String c s))).
Proof.
  intros H. cbn [json.unquote_loop].
  assert (Hb : Ascii.eqb c BSLASH = false).
  { apply Ascii.eqb_neq. intros ->. apply H. reflexivity. }
  assert (Hq : Ascii.eqb c DQUOTE = false).
  { apply Ascii.eqb_neq. intros ->. apply H. reflexivity. }
  rewrite Hb, Hq.
  replace (byte_val c <? 32) with false by (symmetry; apply Z.ltb_ge; lia).
  replace (byte_val c <? utf8.RuneSelf) with false
    by (symmetry; apply Z.ltb_ge; unfold utf8.RuneSelf; lia).
  cbn [orb]. by destruct (utf8.DecodeRuneInString (String c s)).
Qed.

Lemma scan_string_high chunk : forall tail,
  all_high chunk = true ->
  json.scan_string (chunk +:+ tail) = json.cons_raw chunk (json.scan_string tail).
Proof.
  induction chunk as [|c chunk IH]; intros tail Hh.
  - rewrite append_nil_l. by destruct (json.scan_string tail) as [[]|].
  - simpl in Hh. apply andb_prop in Hh as [Hc Hh]. apply Z.leb_le in Hc.
    rewrite append_cons. cbn [json.scan_string].
    assert (Hb : Ascii.eqb c BSLASH = false).
    { apply Ascii.eqb_neq. intros ->. apply Hc. reflexivity. }
    assert (Hq : Ascii.eqb c DQUOTE = false).
    { apply Ascii.eqb_neq. intros ->. apply Hc. reflexivity. }
    rewrite Hb, Hq.
    replace (byte_val c <? 32) with false by (symmetry; apply Z.ltb_ge; lia).
    rewrite IH by done. by rewrite cons_raw_cons_raw.
Qed.

(** The text written for a valid encoding of several bytes. *)
Lemma escape_rune_multi r chunk :
  (2 <= String.length chunk)%nat -> all_high chunk = true ->
  json.escape_rune (r, chunk) =
    if r =? 8232 then String BSLASH "u2028"
    else if r =? 8233 then String BSLASH "u2029" else chunk.
Proof.
  intros Hn Hh. destruct chunk as [|c chunk]; [simpl in Hn; lia|].
  simpl in Hh. apply andb_prop in Hh as [Hc _]. apply Z.leb_le in Hc.
  unfold json.escape_rune.
  replace (byte_val c <? utf8.RuneSelf) with false
    by (symmetry; apply Z.ltb_ge; unfold utf8.RuneSelf; lia).
  replace (String.length (String c chunk) =? 1)%nat with false
    by (symmetry; apply Nat.eqb_neq; lia).
  by rewrite andb_false_r.
Qed.

(** [unquote] reads one escaped rune in one step. *)
Lemma unquote_step c s fuel tail :
  let rs := ((utf8.DecodeRuneInString (String c s)).1,
             string_take (utf8.DecodeRuneInString (String c s)).2 (String c s)) in
  json.unquote_loop (S fuel) (json.escape_rune rs +:+ tail) =
    json.prepend (coerce_rune rs) (json.unquote_loop fuel tail).
Proof.
  intros rs. subst rs. pose proof (decode_spec c s) as Hd. unfold decoded in Hd.
  destruct (utf8.DecodeRuneInString (String c s)) as [r n]. cbn [fst snd] in *.
  destruct Hd as [(-> & Hc & ->)|[(-> & Hc & ->)|(Hn & Hlen & Hr & Henc & Hh & Hdec)]].
  - cbn [string_take]. rewrite unquote_step_ascii by done.
    unfold coerce_rune, invalid_rune. cbn [fst snd].
    replace (byte_val c =? utf8.RuneError) with false
      by (symmetry; apply Z.eqb_neq; unfold utf8.RuneError; lia).
    done.
  - cbn [string_take]. rewrite unquote_step_invalid by done. done.
  - assert (Hl : String.length (string_take n (String c s)) = n)
      by (apply string_take_length; done).
    rewrite escape_rune_multi by (done || lia).
    unfold coerce_rune, invalid_rune. cbn [fst snd]. rewrite Hl.
    replace (n =? 1)%nat with false by (symmetry; apply Nat.eqb_neq; lia).
    rewrite andb_false_r.
    destruct (Z.eqb_spec r 8232) as [->|]; [by rewrite <- Henc|].
    destruct (Z.eqb_spec r 8233) as [->|]; [by rewrite <- Henc|].
    remember (string_take n (String c s)) as chunk eqn:Hchunk.
    destruct chunk as [|c0 chunk]; [simpl in Hl; lia|].
    rewrite append_cons. pose proof Hh as Hh'. simpl in Hh'.
    apply andb_prop in Hh' as [Hc0 _]. apply Z.leb_le in Hc0.
    rewrite unquote_loop_high by done. rewrite <- append_cons, Hdec.
    cbn [fst snd]. rewrite Henc. rewrite <- Hl. by rewrite string_drop_app.
Qed.

(** The scanner reads one escaped rune and goes on. *)
Lemma scan_step c s tail :
  let rs := ((utf8.DecodeRuneInString (String c s)).1,
             string_take (utf8.DecodeRuneInString (String c s)).2 (String c s)) in
  json.scan_string (json.escape_rune rs +:+ tail) =
    json.cons_raw (json.escape_rune rs) (json.scan_string tail).
Proof.
  intros rs. subst rs. pose proof (decode_spec c s) as Hd. unfold decoded in Hd.
  destruct (utf8.DecodeRuneInString (String c s)) as [r n]. cbn [fst snd] in *.
  destruct Hd as [(-> & Hc & ->)|[(-> & Hc & ->)|(Hn & Hlen & Hr & Henc & Hh & Hdec)]].
  - cbn [string_take]. by apply scan_step_ascii.
  - cbn [string_take]. by apply scan_step_invalid.
  - assert (Hl : String.length (string_take n (String c s)) = n)
      by (apply string_take_length; done).
    rewrite escape_rune_multi by (done || lia).
    destruct (r =? 8232); [reflexivity|]. destruct (r =? 8233); [reflexivity|].
    by apply scan_string_high.
Qed.

Lemma escape_rune_nonempty c s :
  (1 <= String.length
          (json.escape_rune ((utf8.DecodeRuneInString (String c s)).1,
                             string_take (utf8.DecodeRuneInString (String c s)).2
                                         (String c s))))%nat.
Proof.
  pose proof (decode_spec c s) as Hd. unfold decoded in Hd.
  destruct (utf8.DecodeRuneInString (String c s)) as [r n]. cbn [fst snd] in *.
  destruct Hd as [(-> & Hc & ->)|[(-> & Hc & ->)|(Hn & Hlen & Hr & Henc & Hh & Hdec)]].
  - cbn [string_take].
    destruct c as [[] [] [] [] [] [] [] []]; try (by vm_compute in Hc); vm_compute; lia.
  - cbn [string_take].
    destruct c as [[] [] [] [] [] [] [] []];
      try (exfalso; apply Hc; reflexivity); vm_compute; lia.
  - assert (Hl : String.length (string_take n (String c s)) = n)
      by (apply string_take_length; done).
    rewrite escape_rune_multi by (done || lia).
    destruct (r =? 8232); [simpl; lia|]. destruct (r =? 8233); [simpl; lia|]. lia.
Qed.

(** *** Whole strings *)

Lemma escape_cons c s :
  json.escape (String c s) =
    json.escape_rune ((utf8.DecodeRuneInString (String c s)).1,
                      string_take (utf8.DecodeRuneInString (String c s)).2 (String c s))
      +:+ json.escape (string_drop (utf8.DecodeRuneInString (String c s)).2 (String c s)).
Proof. unfold json.escape. by rewrite runes_cons. Qed.

Lemma coerce_cons c s :
  coerce_utf8 (String c s) =
    coerce_rune ((utf8.DecodeRuneInString (String c s)).1,
                 string_take (utf8.DecodeRuneInString (String c s)).2 (String c s))
      +:+ coerce_utf8 (string_drop (utf8.DecodeRuneInString (String c s)).2 (String c s)).
Proof. unfold coerce_utf8. by rewrite runes_cons. Qed.

Lemma runes_length_escape s :
  (List.length (utf8.runes s) <= String.length (json.escape s))%nat.
Proof.
  induction s as [|c s IH] using runes_ind; [done|].
  rewrite escape_cons, runes_cons, append_length. cbn [List.length].
  pose proof (escape_rune_nonempty c s). lia.
Qed.

Lemma unquote_loop_escape s : forall fuel,
  (List.length (utf8.runes s) <= fuel)%nat ->
  json.unquote_loop fuel (json.escape s) = Some (coerce_utf8 s).
Proof.
  induction s as [|c s IH] using runes_ind; intros fuel Hf.
  - by destruct fuel.
  - rewrite runes_cons in Hf. cbn [List.length] in Hf.
    destruct fuel as [|fuel]; [lia|].
    rewrite escape_cons, unquote_step, IH by lia.
    by rewrite coerce_cons.
Qed.

(** What [appendString] writes is read back by [unquote] as the string
    itself, with [U+FFFD] in place of every byte that is no UTF-8. *)
Lemma unquote_escape s : json.unquote (json.escape s) = Some (coerce_utf8 s).
Proof. apply unquote_loop_escape, runes_length_escape. Qed.

(** The scanner finds the end of what [appendString] writes. *)
Lemma scan_string_escape s rest :
  json.scan_string (json.escape s +:+ String DQUOTE rest) = Some (json.escape s, rest).
Proof.
  induction s as [|c s IH] using runes_ind.
  - reflexivity.
  - rewrite escape_cons, append_assoc, scan_step, IH, cons_raw_Some. done.
Qed.

(** A string that is UTF-8 is read back unchanged. *)
Lemma coerce_utf8_valid s : utf8.ValidString s = true -> coerce_utf8 s = s.
Proof.
  unfold utf8.ValidString, coerce_utf8.
  induction s as [|c s IH] using runes_ind; [done|].
  rewrite runes_cons. cbn [forallb coerce_runes]. intros [Hv Hrest]%andb_prop.
  rewrite IH by done. unfold coerce_rune, invalid_rune.
  destruct (_ && _); [discriminate|]. cbn [snd]. apply string_take_drop.
Qed.

End JsonStrings.

(** ** The encoded history is read back *)

(** The values the scanner sees in what [MarshalIndent] writes. *)
Definition member_value (kv : string * Z) : string * json.value :=
  (json.escape kv.1, json.Number (strconv.FormatInt kv.2)).

Definition mounts_value (m : option (gmap string Z)) : json.value :=
  match m with
  | None => json.Null
  | Some g => json.Object (map member_value (json.sorted_entries g))
  end.

Definition entry_value (e : UsageEntry) : json.value :=
  json.Object
    [ ("timestamp", json.Number (strconv.FormatInt (Timestamp e)));
      ("mounts", mounts_value (Mounts e));
      ("total", json.Number (strconv.FormatInt (Total e))) ].

Definition entries_value (entries : option (list UsageEntry)) : json.value :=
  match entries with
  | None => json.Null
  | Some es => json.Array (map entry_value es)
  end.

(** A byte that may follow a number in the output: a comma or the end
    of the line. *)
Definition closes_number (c : ascii) : Prop := c = ","%char \/ c = LF.

Section JsonDocument.

Lemma skip_space_nonspace c s :
  json.is_space c = false -> json.skip_space (String c s) = String c s.
Proof. intros H. simpl. by rewrite H. Qed.

Lemma skip_space_indent d s :
  json.skip_space (strings.Repeat "  " d +:+ s) = json.skip_space s.
Proof. induction d as [|d IH]; [done|]. simpl. exact IH. Qed.

Lemma skip_space_newline d s :
  json.skip_space (json.newline d +:+ s) = json.skip_space s.
Proof. unfold json.newline. rewrite append_cons. simpl. apply skip_space_indent. Qed.

Definition number_start (c : ascii) : bool := Ascii.eqb c "-" || strconv.is_digit c.

Lemma number_start_tests c :
  number_start c = true ->
  json.is_space c = false /\ Ascii.eqb c "{" = false /\ Ascii.eqb c "[" = false /\
  Ascii.eqb c DQUOTE = false.
Proof. destruct c as [[] [] [] [] [] [] [] []]; intros H; try discriminate H; done. Qed.

Lemma digit_tests c :
  strconv.is_digit c = true ->
  Ascii.eqb c "-" = false /\ (49 <= byte_val c -> Ascii.eqb c "0" = false).
Proof.
  destruct c as [[] [] [] [] [] [] [] []]; intros H; try discriminate H;
    (split; [done|]); intros H1; try done; by vm_compute in H1.
Qed.

Lemma FormatInt_head z :
  exists c s, strconv.FormatInt z = String c s /\ number_start c = true.
Proof.
  unfold strconv.FormatInt. destruct (z <? 0) eqn:Hz.
  - eexists _, _. split; [reflexivity|done].
  - apply Z.ltb_ge in Hz. destruct (FormatUint_digits z Hz) as (Hd & _ & Hh).
    destruct (strconv.FormatUint z) as [|c s]; [done|].
    exists c, s. split; [done|]. simpl in Hd. apply andb_prop in Hd as [Hc _].
    unfold number_start. by rewrite Hc, orb_true_r.
Qed.

Lemma span_digits_app ds c t :
  all_digits ds = true -> strconv.is_digit c = false ->
  json.span_digits (ds +:+ String c t) = (ds, String c t).
Proof.
  intros Hd Hc. induction ds as [|d ds IH].
  - rewrite append_nil_l. simpl. by rewrite Hc.
  - simpl in Hd. apply andb_prop in Hd as [Hd1 Hd2].
    rewrite append_cons. simpl. rewrite Hd1, IH by done. done.
Qed.

Lemma closes_number_not_digit c : closes_number c -> strconv.is_digit c = false.
Proof. by intros [-> | ->]. Qed.

Lemma scan_int_FormatUint u c t :
  0 <= u -> closes_number c ->
  json.scan_int (strconv.FormatUint u +:+ String c t) =
    Some (strconv.FormatUint u, String c t).
Proof.
  intros Hu Hc. destruct (FormatUint_digits u Hu) as (Hd & _ & Hh).
  destruct (strconv.FormatUint u) as [|c0 ds]; [done|].
  rewrite append_cons. simpl in Hd, Hh. apply andb_prop in Hd as [Hd0 Hd].
  destruct Hh as [[_ [= -> ->]]|Hh]; [done|].
  unfold json.scan_int.
  destruct (digit_tests c0 Hd0) as [_ H0]. rewrite (H0 ltac:(lia)), Hd0.
  rewrite span_digits_app; [done|done|by apply closes_number_not_digit].
Qed.

Lemma scan_frac_exp_closed c t :
  closes_number c ->
  json.scan_frac (String c t) = Some (EmptyString, String c t) /\
  json.scan_exp (String c t) = Some (EmptyString, String c t).
Proof. by intros [-> | ->]. Qed.

(** The scanner reads a number written by [FormatInt] up to the comma
    or the end of the line after it. *)
Lemma scan_number_FormatInt z c t :
  closes_number c ->
  json.scan_number (strconv.FormatInt z +:+ String c t) =
    Some (strconv.FormatInt z, String c t).
Proof.
  intros Hc. destruct (scan_frac_exp_closed c t Hc) as [Hf He].
  unfold strconv.FormatInt. destruct (z <? 0) eqn:Hz.
  - apply Z.ltb_lt in Hz. rewrite append_cons. unfold json.scan_number.
    change (Ascii.eqb "-" "-") with true. cbv iota.
    rewrite scan_int_FormatUint by (done || lia). rewrite Hf, He.
    by rewrite !append_nil_r.
  - apply Z.ltb_ge in Hz. pose proof (scan_int_FormatUint z c t Hz Hc) as Hi.
    destruct (FormatUint_digits z Hz) as (Hd & _ & Hh).
    destruct (strconv.FormatUint z) as [|c0 ds]; [done|].
    simpl in Hd. apply andb_prop in Hd as [Hd0 _].
    rewrite append_cons in *. unfold json.scan_number.
    destruct (digit_tests c0 Hd0) as [Hm _]. rewrite Hm, Hi, Hf, He.
    by rewrite append_nil_l, !append_nil_r.
Qed.

Lemma parse_value_FormatInt fuel depth z c t :
  closes_number c ->
  json.parse_value (S fuel) depth (strconv.FormatInt z +:+ String c t) =
    Some (json.Number (strconv.FormatInt z), String c t).
Proof.
  intros Hc. pose proof (scan_number_FormatInt z c t Hc) as Hn.
  destruct (FormatInt_head z) as (c0 & s0 & Heq & Hs).
  rewrite Heq in *. rewrite append_cons in *.
  destruct (number_start_tests c0 Hs) as (_ & H1 & H2 & H3).
  cbn [json.parse_value]. unfold json.value_step. rewrite H1, H2, H3.
  unfold number_start in Hs. rewrite Hs, Hn. done.
Qed.

Lemma skip_space_FormatInt z t :
  json.skip_space (strconv.FormatInt z +:+ t) = strconv.FormatInt z +:+ t.
Proof.
  destruct (FormatInt_head z) as (c0 & s0 & Heq & Hs).
  rewrite Heq, append_cons. apply skip_space_nonspace.
  by destruct (number_start_tests c0 Hs).
Qed.

Definition member_text (kv : string * Z) : string :=
  String DQUOTE (json.escape kv.1
                 +:+ String DQUOTE (String ":" (String " " (strconv.FormatInt kv.2)))).

Lemma encode_member_eq d kv : json.encode_member d kv = member_text kv.
Proof.
  unfold json.encode_member, json.appendString, json.quoted, member_text.
  rewrite append_cons, append_assoc. reflexivity.
Qed.

Lemma parse_members_S fuel depth s :
  json.parse_members (S fuel) depth s =
    json.members_step (json.parse_value fuel depth) (json.parse_members fuel depth) s.
Proof. reflexivity. Qed.

Lemma parse_elements_S fuel depth s :
  json.parse_elements (S fuel) depth s =
    json.elements_step (json.parse_value fuel depth) (json.parse_elements fuel depth) s.
Proof. reflexivity. Qed.

Lemma parse_value_S fuel depth s :
  json.parse_value (S fuel) depth s =
    json.value_step (json.parse_elements fuel (depth + 1))
                    (json.parse_members fuel (depth + 1)) depth s.
Proof. reflexivity. Qed.

(** One member of a map object, up to the comma or the line end. *)
Lemma members_step_member value_at members fuel depth kv c t :
  closes_number c ->
  value_at = json.parse_value (S fuel) depth ->
  json.members_step value_at members (member_text kv +:+ String c t) =
    match json.after "," (json.skip_space (String c t)),
          json.after "}" (json.skip_space (String c t)) with
    | Some rest3, _ =>
        match members (json.skip_space rest3) with
        | Some (ms, rest4) => Some (member_value kv :: ms, rest4)
        | None => None
        end
    | None, Some rest3 => Some ([member_value kv], rest3)
    | None, None => None
    end.
Proof.
  intros Hc ->. unfold member_text, json.members_step.
  rewrite append_cons, append_assoc, !append_cons.
  cbn [json.after]. change (Ascii.eqb DQUOTE DQUOTE) with true. cbv iota.
  rewrite scan_string_escape.
  change (json.skip_space (String ":" ?x)) with (String ":" x).
  cbn [json.after]. change (Ascii.eqb ":" ":") with true. cbv iota.
  change (json.skip_space (String " " ?x)) with (json.skip_space x).
  rewrite skip_space_FormatInt, parse_value_FormatInt by done.
  reflexivity.
Qed.

Lemma member_text_head kv t :
  json.skip_space (member_text kv +:+ t) = member_text kv +:+ t.
Proof. reflexivity. Qed.

Lemma after_brace_member kv t : json.after "}" (member_text kv +:+ t) = None.
Proof. reflexivity. Qed.

Lemma encode_items_cons d x y l :
  json.encode_items d (x :: y :: l) =
    x +:+ String "," (json.newline d +:+ json.encode_items d (y :: l)).
Proof. reflexivity. Qed.

(** The members of a map object that is not empty. *)
Lemma parse_members_items depth d d2 rest kvs : forall fuel,
  kvs <> [] -> (List.length kvs < fuel)%nat ->
  json.parse_members fuel depth
      (json.encode_items d (map (json.encode_member d) kvs)
       +:+ json.newline d2 +:+ String "}" rest) =
    Some (map member_value kvs, rest).
Proof.
  induction kvs as [|kv kvs IH]; intros fuel Hne Hf; [done|].
  destruct fuel as [|[|fuel]]; [simpl in Hf; lia|simpl in Hf; lia|].
  rewrite parse_members_S.
  destruct kvs as [|kv2 kvs].
  - cbn [map json.encode_items]. rewrite encode_member_eq.
    unfold json.newline at 1. rewrite append_cons.
    rewrite (members_step_member _ _ fuel depth) by (done || by right).
    change (json.skip_space (String LF ?x)) with (json.skip_space x).
    rewrite skip_space_indent. reflexivity.
  - cbn [map]. rewrite encode_items_cons, encode_member_eq, append_assoc, append_cons.
    rewrite (members_step_member _ _ fuel depth) by (done || by left).
    change (json.skip_space (String "," ?x)) with (String "," x).
    cbn [json.after]. change (Ascii.eqb "," ",") with true. cbv iota.
    rewrite append_assoc, skip_space_newline.
    change (json.encode_member d kv2 :: map (json.encode_member d) kvs)
      with (map (json.encode_member d) (kv2 :: kvs)).
    assert (Hhead : forall t,
               json.skip_space (json.encode_items d (map (json.encode_member d) (kv2 :: kvs)) +:+ t)
               = json.encode_items d (map (json.encode_member d) (kv2 :: kvs)) +:+ t).
    { intros t. cbn [map]. destruct kvs; cbn [map json.encode_items];
        rewrite encode_member_eq; reflexivity. }
    rewrite Hhead, IH by (done || simpl in *; lia). reflexivity.
Qed.

(** The number of members of the [mounts] object of an entry. *)
Definition weight (m : option (gmap string Z)) : nat :=
  List.length (json.sorted_entries (entries_of m)).

Lemma depth_ok depth : depth + 1 <= json.maxNestingDepth -> (depth + 1 >? json.maxNestingDepth) = false.
Proof. intros H. destruct (Z.gtb_spec (depth + 1) json.maxNestingDepth); [lia|done]. Qed.

Lemma encode_items_members_head d kv kvs t :
  json.encode_items d (map (json.encode_member d) (kv :: kvs)) +:+ t =
    String DQUOTE (string_drop 1
      (json.encode_items d (map (json.encode_member d) (kv :: kvs)) +:+ t)).
Proof.
  cbn [map]. destruct kvs; cbn [map json.encode_items]; rewrite encode_member_eq; reflexivity.
Qed.

Lemma scan_literal_app lit v rest :
  json.scan_literal lit v (lit +:+ rest) = Some (v, rest).
Proof.
  unfold json.scan_literal.
  replace (String.prefix lit (lit +:+ rest)) with true
    by (symmetry; apply prefix_spec; by exists rest).
  by rewrite string_drop_app.
Qed.

Lemma parse_value_null fuel depth rest :
  json.parse_value (S fuel) depth ("null" +:+ rest) = Some (json.Null, rest).
Proof.
  rewrite parse_value_S. unfold json.value_step.
  rewrite <- (scan_literal_app "null" json.Null rest). reflexivity.
Qed.

(** The value of the [mounts] field: [null], [{}] or an object with one
    member per line. *)
Lemma parse_value_mounts m fuel depth d rest :
  (weight m + 1 < fuel)%nat -> depth + 1 <= json.maxNestingDepth ->
  json.parse_value fuel depth (json.encode_mounts d m +:+ rest) =
    Some (mounts_value m, rest).
Proof.
  intros Hf Hd. destruct fuel as [|fuel]; [lia|].
  destruct m as [g|]; [|apply parse_value_null]. rewrite parse_value_S.
  unfold json.encode_mounts, mounts_value, weight in *.
  change (entries_of (Some g)) with g in Hf.
  destruct (json.sorted_entries g) as [|kv kvs] eqn:Hs.
  - unfold json.value_step. cbn [String.append]. change (Ascii.eqb "{" "{") with true.
    cbv iota. rewrite depth_ok by done. reflexivity.
  - rewrite !append_assoc. rewrite append_cons, append_nil_l.
    unfold json.value_step. change (Ascii.eqb "{" "{") with true. cbv iota.
    rewrite depth_ok by done. rewrite skip_space_newline.
    rewrite encode_items_members_head.
    change (json.skip_space (String DQUOTE ?x)) with (String DQUOTE x).
    cbn [json.after]. change (Ascii.eqb DQUOTE "}") with false. cbv iota.
    rewrite <- encode_items_members_head.
    rewrite (append_cons "}" EmptyString rest), append_nil_l.
    rewrite parse_members_items by (done || simpl in *; lia). reflexivity.
Qed.

Lemma skip_space_encode_mounts d m t :
  json.skip_space (json.encode_mounts d m +:+ t) = json.encode_mounts d m +:+ t.
Proof.
  destruct m as [g|]; [|reflexivity]. unfold json.encode_mounts.
  destruct (json.sorted_entries g); reflexivity.
Qed.

(** The member [mounts] of an entry, up to the comma after it. *)
Lemma members_step_mounts members fuel depth d m t :
  (weight m + 1 < fuel)%nat -> depth + 1 <= json.maxNestingDepth ->
  json.members_step (json.parse_value fuel depth) members
      (String DQUOTE ("mounts" +:+ String DQUOTE (String ":" (String " "
         (json.encode_mounts d m +:+ String "," t))))) =
    match members (json.skip_space t) with
    | Some (ms, rest4) => Some (("mounts", mounts_value m) :: ms, rest4)
    | None => None
    end.
Proof.
  intros Hf Hd. unfold json.members_step.
  cbn [json.after]. change (Ascii.eqb DQUOTE DQUOTE) with true. cbv iota.
  change "mounts" with (json.escape "mounts") at 1.
  rewrite scan_string_escape.
  change (json.skip_space (String ":" ?x)) with (String ":" x).
  cbn [json.after]. change (Ascii.eqb ":" ":") with true. cbv iota.
  change (json.skip_space (String " " ?x)) with (json.skip_space x).
  rewrite skip_space_encode_mounts, parse_value_mounts by done.
  reflexivity.
Qed.

Lemma encode_entry_eq d e rest :
  json.encode_entry d e +:+ rest =
    String "{"
      (json.newline (S d) +:+
       (member_text ("timestamp", Timestamp e) +:+
        String ","
          (json.newline (S d) +:+
           String DQUOTE
             ("mounts" +:+
              String DQUOTE
                (String ":"
                   (String " "
                      (json.encode_mounts (S d) (Mounts e) +:+
                       String ","
                         (json.newline (S d) +:+
                          (member_text ("total", Total e) +:+
                           String LF (strings.Repeat "  " d +:+ String "}" rest)))))))))).
Proof.
  unfold json.encode_entry, member_text, json.quoted. cbn [fst snd].
  replace (json.escape "timestamp") with "timestamp" by (by vm_compute).
  replace (json.escape "total") with "total" by (by vm_compute).
  unfold json.newline at 4.
  repeat (rewrite append_assoc || rewrite append_cons || rewrite append_nil_l).
  reflexivity.
Qed.

(** One entry of the array. *)
Lemma parse_value_entry e fuel depth d rest :
  (weight (Mounts e) + 5 <= fuel)%nat -> depth + 2 <= json.maxNestingDepth ->
  json.parse_value fuel depth (json.encode_entry d e +:+ rest) =
    Some (entry_value e, rest).
Proof.
  intros Hf Hd.
  destruct fuel as [|[|[|[|[|fuel]]]]]; try lia.
  rewrite encode_entry_eq, parse_value_S. unfold json.value_step.
  change (Ascii.eqb "{" "{") with true. cbv iota.
  rewrite depth_ok by lia. rewrite skip_space_newline, member_text_head.
  rewrite after_brace_member, parse_members_S.
  rewrite (members_step_member _ _ (S (S fuel)) (depth + 1)) by (done || by left).
  change (json.skip_space (String "," ?x)) with (String "," x).
  cbn [json.after]. change (Ascii.eqb "," ",") with true. cbv iota.
  rewrite skip_space_newline.
  change (json.skip_space (String DQUOTE ?x)) with (String DQUOTE x).
  rewrite parse_members_S, members_step_mounts by (lia || (unfold weight in *; lia)).
  rewrite skip_space_newline, member_text_head.
  rewrite parse_members_S.
  rewrite (members_step_member _ _ fuel (depth + 1)) by (done || by right).
  change (json.skip_space (String LF ?x)) with (json.skip_space x).
  rewrite skip_space_indent. reflexivity.
Qed.

(** Fuel that is enough for the elements of the array. *)
Fixpoint need (es : list UsageEntry) : nat :=
  match es with
  | [] => 0
  | e :: es' => weight (Mounts e) + 6 + need es'
  end.

Lemma entries_head d e es t :
  json.encode_items d (map (json.encode_entry d) (e :: es)) +:+ t =
    String "{" (string_drop 1 (json.encode_items d (map (json.encode_entry d) (e :: es)) +:+ t)).
Proof.
  cbn [map]. destruct es; cbn [map json.encode_items].
  - rewrite encode_entry_eq. reflexivity.
  - rewrite append_assoc, encode_entry_eq. reflexivity.
Qed.

Lemma skip_space_entries d e es t :
  json.skip_space (json.encode_items d (map (json.encode_entry d) (e :: es)) +:+ t) =
    json.encode_items d (map (json.encode_entry d) (e :: es)) +:+ t.
Proof. by rewrite entries_head. Qed.

Lemma after_bracket_entries d e es t :
  json.after "]" (json.encode_items d (map (json.encode_entry d) (e :: es)) +:+ t) = None.
Proof. by rewrite entries_head. Qed.

(** The elements of an array that is not empty. *)
Lemma parse_elements_entries rest es : forall fuel,
  es <> [] -> (need es <= fuel)%nat ->
  json.parse_elements fuel 1
      (json.encode_items 1 (map (json.encode_entry 1) es)
       +:+ json.newline 0 +:+ String "]" rest) =
    Some (map entry_value es, rest).
Proof.
  induction es as [|e es IH]; intros fuel Hne Hf; [done|].
  cbn [need] in Hf. destruct fuel as [|fuel]; [lia|].
  rewrite parse_elements_S. unfold json.elements_step.
  destruct es as [|e2 es].
  - cbn [map json.encode_items].
    rewrite parse_value_entry by (lia || (unfold json.maxNestingDepth; lia)).
    reflexivity.
  - cbn [map]. rewrite encode_items_cons, append_assoc, append_cons.
    rewrite parse_value_entry by (lia || (unfold json.maxNestingDepth; lia)).
    change (json.skip_space (String "," ?x)) with (String "," x).
    cbn [json.after]. change (Ascii.eqb "," ",") with true. cbv iota.
    rewrite append_assoc, skip_space_newline.
    change (json.encode_entry 1 e2 :: map (json.encode_entry 1) es)
      with (map (json.encode_entry 1) (e2 :: es)).
    rewrite skip_space_entries.
    rewrite IH by (done || cbn [need] in *; lia). reflexivity.
Qed.

Lemma encode_items_length (f : UsageEntry -> string) (w : UsageEntry -> nat) d es :
  (forall e, (w e <= String.length (f e))%nat) ->
  (foldr (fun e acc => w e + acc)%nat 0%nat es
   <= String.length (json.encode_items d (map f es)))%nat.
Proof.
  intros Hw. induction es as [|e es IH]; [simpl; lia|].
  destruct es as [|e2 es].
  - cbn [map json.encode_items foldr]. specialize (Hw e). lia.
  - cbn [map]. rewrite encode_items_cons.
    repeat (rewrite append_length || cbn [String.length]).
    cbn [map foldr] in *. specialize (Hw e). lia.
Qed.

Lemma members_length d kvs :
  (List.length kvs <= String.length (json.encode_items d (map (json.encode_member d) kvs)))%nat.
Proof.
  induction kvs as [|kv kvs IH]; [simpl; lia|].
  destruct kvs as [|kv2 kvs].
  - cbn [map json.encode_items]. rewrite encode_member_eq. simpl. lia.
  - cbn [map]. rewrite encode_items_cons, encode_member_eq. unfold member_text.
    repeat (rewrite append_length || cbn [String.length]).
    cbn [map List.length] in *. lia.
Qed.

Lemma encode_mounts_length d m : (weight m <= String.length (json.encode_mounts d m))%nat.
Proof.
  destruct m as [g|]; [|vm_compute; lia].
  unfold weight, json.encode_mounts. change (entries_of (Some g)) with g.
  destruct (json.sorted_entries g) as [|kv kvs]; [simpl; lia|].
  rewrite !append_length. pose proof (members_length (S d) (kv :: kvs)). lia.
Qed.

Lemma encode_entry_length d e :
  (weight (Mounts e) + 6 <= String.length (json.encode_entry d e))%nat.
Proof.
  unfold json.encode_entry. rewrite !append_length.
  pose proof (encode_mounts_length (S d) (Mounts e)). simpl. lia.
Qed.

Lemma need_length d es :
  (need es <= String.length (json.encode_items d (map (json.encode_entry d) es)))%nat.
Proof.
  assert (Hn : need es = foldr (fun e acc => weight (Mounts e) + 6 + acc)%nat 0%nat es).
  { induction es as [|e es IH]; [done|]. cbn [need foldr]. lia. }
  rewrite Hn.
  apply (encode_items_length (json.encode_entry d) (fun e => weight (Mounts e) + 6)%nat).
  apply encode_entry_length.
Qed.

(** The scanner reads what [MarshalIndent] writes. *)
Lemma parse_MarshalIndent entries :
  json.parse (json.MarshalIndent entries) = Some (entries_value entries).
Proof.
  destruct entries as [[|e es]|]; [by vm_compute| |by vm_compute].
  unfold json.MarshalIndent, json.parse, entries_value.
  set (items := json.encode_items 1 (map (json.encode_entry 1) (e :: es))).
  assert (Hlen : (need (e :: es) <= String.length
                    ("[" +:+ json.newline 1 +:+ items +:+ json.newline 0 +:+ "]"))%nat).
  { rewrite !append_length. pose proof (need_length 1 (e :: es)). fold items in H. lia. }
  rewrite (append_cons "[" EmptyString), append_nil_l in *.
  change (json.skip_space (String "[" ?x)) with (String "[" x).
  rewrite parse_value_S. unfold json.value_step.
  change (Ascii.eqb "[" "{") with false. change (Ascii.eqb "[" "[") with true. cbv iota.
  rewrite depth_ok by (unfold json.maxNestingDepth; lia).
  rewrite skip_space_newline. unfold items.
  rewrite skip_space_entries, after_bracket_entries.
  change "]" with (String "]" EmptyString).
  change (0 + 1) with 1.
  rewrite parse_elements_entries; [reflexivity|done|].
  fold items. cbn [String.length] in *. lia.
Qed.

End JsonDocument.

(** *** Storing the values *)

(** The values of a sample fit their Go types. *)
Definition wf_entry (e : UsageEntry) : Prop :=
  in_range (Timestamp e) /\ in_range (Total e) /\
  map_Forall (fun _ bytes => in_range bytes) (entries_of (Mounts e)).

#[global] Instance in_range_dec z : Decision (in_range z).
Proof. unfold in_range. apply _. Defined.

(** The mount paths of a sample are UTF-8. *)
Definition utf8_paths (e : UsageEntry) : Prop :=
  map_Forall (fun mount _ => utf8.ValidString mount = true) (entries_of (Mounts e)).

Definition coerce_kv (kv : string * Z) : string * Z := (coerce_utf8 kv.1, kv.2).

(** What is read back for a map: its entries in the order they were
    written, each path with [U+FFFD] for the bytes that are no UTF-8;
    of two paths that become equal the later one stays. *)
Definition coerce_map (g : gmap string Z) : gmap string Z :=
  foldl put ∅ (map coerce_kv (json.sorted_entries g)).

Definition coerce_entry (e : UsageEntry) : UsageEntry :=
  mkUsageEntry (Timestamp e) (coerce_map <$> Mounts e) (Total e).

Section JsonStore.

Lemma store_int64_FormatInt z cur :
  in_range z -> json.store_int64 (json.Number (strconv.FormatInt z)) cur = Some z.
Proof. intros H. unfold json.store_int64. by rewrite ParseInt_FormatInt. Qed.

Lemma store_members_values kvs : forall g,
  Forall (fun kv => in_range kv.2) kvs ->
  json.store_members (map member_value kvs) g = Some (foldl put g (map coerce_kv kvs)).
Proof.
  induction kvs as [|[k v] kvs IH]; intros g Hwf; [done|].
  apply Forall_cons in Hwf as [Hv Hwf]. cbn [map json.store_members member_value fst snd].
  rewrite unquote_escape, store_int64_FormatInt by done.
  rewrite IH by done. reflexivity.
Qed.

Lemma sorted_entries_perm (g : gmap string Z) : json.sorted_entries g ≡ₚ map_to_list g.
Proof. apply merge_sort_Permutation. Qed.

Lemma store_map_mounts m :
  map_Forall (fun _ bytes => in_range bytes) (entries_of m) ->
  json.store_map (mounts_value m) None = Some (coerce_map <$> m).
Proof.
  intros Hwf. destruct m as [g|]; [|done].
  unfold mounts_value, json.store_map. change (entries_of None) with (∅ : gmap string Z).
  rewrite store_members_values; [done|].
  apply Forall_forall. intros [k v] Hin.
  apply list_elem_of_In, (Permutation_in _ (sorted_entries_perm g)) in Hin.
  apply list_elem_of_In, elem_of_map_to_list in Hin. exact (Hwf k v Hin).
Qed.

Lemma store_entry_value e :
  wf_entry e -> json.store_entry (entry_value e) = Some (coerce_entry e).
Proof.
  intros (Hts & Htot & Hm). unfold entry_value, json.store_entry.
  cbn [json.store_fields].
  replace (json.unquote "timestamp") with (Some "timestamp") by (by vm_compute).
  replace (json.unquote "mounts") with (Some "mounts") by (by vm_compute).
  replace (json.unquote "total") with (Some "total") by (by vm_compute).
  replace (json.field_of "timestamp") with (Some json.FTimestamp) by (by vm_compute).
  replace (json.field_of "mounts") with (Some json.FMounts) by (by vm_compute).
  replace (json.field_of "total") with (Some json.FTotal) by (by vm_compute).
  cbn [Timestamp Mounts Total].
  rewrite store_int64_FormatInt by done. cbn [Timestamp Mounts Total].
  rewrite store_map_mounts by done. cbn [Timestamp Mounts Total].
  rewrite store_int64_FormatInt by done. reflexivity.
Qed.

Lemma store_elements_values es :
  Forall wf_entry es ->
  json.store_elements (map entry_value es) = Some (map coerce_entry es).
Proof.
  induction es as [|e es IH]; intros Hwf; [done|].
  apply Forall_cons in Hwf as [He Hwf]. cbn [map json.store_elements].
  rewrite store_entry_value, IH by done. reflexivity.
Qed.

(** [Unmarshal] reads what [MarshalIndent] writes: the same samples,
    with [U+FFFD] in the mount paths for the bytes that are no UTF-8. *)
Lemma Unmarshal_MarshalIndent entries :
  Forall wf_entry (default [] entries) ->
  json.Unmarshal (json.MarshalIndent entries) = inr (map coerce_entry <$> entries).
Proof.
  intros Hwf. unfold json.Unmarshal. rewrite parse_MarshalIndent.
  destruct entries as [es|]; [|done]. cbn [entries_value json.store_entries].
  rewrite store_elements_values by done. reflexivity.
Qed.

Lemma coerce_map_valid g :
  map_Forall (fun mount _ => utf8.ValidString mount = true) g -> coerce_map g = g.
Proof.
  intros Hv. unfold coerce_map.
  assert (Hid : map coerce_kv (json.sorted_entries g) = json.sorted_entries g).
  { rewrite <- (map_id (json.sorted_entries g)) at 2. apply map_ext_in.
    intros [k v] Hin. unfold coerce_kv. cbn [fst snd]. f_equal.
    apply coerce_utf8_valid.
    apply (Permutation_in _ (sorted_entries_perm g)) in Hin.
    apply list_elem_of_In, elem_of_map_to_list in Hin. exact (Hv k v Hin). }
  rewrite Hid, foldl_put_list_to_map.
  - rewrite (right_id_L ∅ (∪)).
    rewrite (list_to_map_proper _ (map_to_list g)).
    + apply list_to_map_to_list.
    + rewrite sorted_entries_perm. apply NoDup_fst_map_to_list.
    + apply sorted_entries_perm.
  - rewrite sorted_entries_perm. apply NoDup_fst_map_to_list.
  - intros. apply lookup_empty.
Qed.

Lemma coerce_entry_valid e : utf8_paths e -> coerce_entry e = e.
Proof.
  intros Hv. destruct e as [ts [g|] tot]; [|done]. unfold coerce_entry. simpl.
  by rewrite coerce_map_valid.
Qed.

End JsonStore.

(** ** C3: the round trip of the history file *)

Definition c3_path : string := "/mnt/" +:+ String "255" EmptyString.

Definition c3_entry : UsageEntry :=
  mkUsageEntry 1700000000 (Some {[c3_path := 1024]}) 1024.

Definition c3_read_back : UsageEntry :=
  mkUsageEntry 1700000000
    (Some {["/mnt/" +:+ utf8.EncodeRune utf8.RuneError := 1024]}) 1024.

(** C3, as stated, fails: a mount path need not be UTF-8 (here [/mnt/]
    and the byte 255), JSON strings are, and the path comes back with
    [U+FFFD] in place of the byte: the sample read back has no entry
    for the path that was written. *)
Lemma round_trip_loses_path_bytes :
  loadEntries (inr (saveEntries_data (Some [c3_entry]))) = (Some [c3_read_back], None) /\
  map_get (Mounts c3_entry) c3_path = Some 1024 /\
  map_get (Mounts c3_read_back) c3_path = None.
Proof. repeat split; vm_compute; reflexivity. Qed.

(** C3 (amended): for every history whose mount paths are UTF-8
    ([timestamp], [total] and byte counts being [int64] values), writing
    it with the encoding of [saveEntries] and reading the result with
    the decoding of [loadEntries] gives the same history back: the same
    samples in the same order, each with its timestamp, its map from
    mount path to bytes, and its total. *)
Theorem history_round_trip (entries : option (list UsageEntry)) :
  Forall wf_entry (default [] entries) ->
  Forall utf8_paths (default [] entries) ->
  loadEntries (inr (saveEntries_data entries)) = (entries, None).
Proof.
  intros Hwf Hutf. unfold loadEntries, saveEntries_data.
  rewrite Unmarshal_MarshalIndent by done. f_equal.
  destruct entries as [es|]; [|done]. simpl in *. f_equal.
  rewrite <- (map_id es) at 2. apply map_ext_in.
  intros e Hin. apply coerce_entry_valid.
  rewrite Forall_forall in Hutf. apply Hutf. by apply list_elem_of_In.
Qed.

Definition c3_stored : UsageEntry :=
  mkUsageEntry 1699990000 (Some {["/mnt/a" := 1073741824]}) 1073741824.

Definition c3_fresh : UsageEntry :=
  mkUsageEntry 1700000000
    (Some (<["/mnt/a" := 2147483648]> {["/mnt/b" := 1073741824]})) 3221225472.

Lemma history_round_trip_witness :
  loadEntries (inr (saveEntries_data (Some [c3_stored; c3_fresh])))
    = (Some [c3_stored; c3_fresh], None).
Proof.
  apply history_round_trip.
  - apply Forall_cons; split; [|apply Forall_cons; split; [|by apply Forall_nil]].
    + split; [|split]; [by vm_compute|by vm_compute|].
      apply (bool_decide_unpack _). vm_compute. exact I.
    + split; [|split]; [by vm_compute|by vm_compute|].
      apply (bool_decide_unpack _). vm_compute. exact I.
  - apply Forall_cons; split; [|apply Forall_cons; split; [|by apply Forall_nil]].
    + apply (bool_decide_unpack _). vm_compute. exact I.
    + apply (bool_decide_unpack _). vm_compute. exact I.
Defined.

(** ** The sampling loop of [main] *)

(** The calls of [getDFBytes] the loop of lines 83-91 makes, numbered
    from [i] on, each with what it returned. *)
Fixpoint df_calls (env : Env) (i : nat) (nfsMounts : list string)
  : list (string * (error + Z)) :=
  match nfsMounts with
  | [] => []
  | mount :: rest => (mount, getDFBytes (df env i mount)) :: df_calls env (S i) rest
  end.

(** The calls that returned a number, and the warnings for the others. *)
Definition sampled (c : string * (error + Z)) : option (string * Z) :=
  match c.2 with
  | inr bytes => Some (c.1, bytes)
  | inl _ => None
  end.

Definition warned (c : string * (error + Z)) : option message :=
  match c.2 with
  | inl err => Some (MsgDfWarning c.1 err)
  | inr _ => None
  end.

Section SamplingLoop.

Variable env : Env.

Lemma sample_loop_calls l : forall i m t w,
  sample_loop env i l m t w =
    (foldl put m (omap sampled (df_calls env i l)),
     foldl (fun t kv => add64 t kv.2) t (omap sampled (df_calls env i l)),
     w ++ omap warned (df_calls env i l)).
Proof.
  induction l as [|k l IH]; intros i m t w; simpl.
  - by rewrite app_nil_r.
  - unfold sampled at 1 2, warned at 1. simpl.
    destruct (getDFBytes (df env i k)) as [e|v]; rewrite IH; simpl.
    + by rewrite <- app_assoc.
    + done.
Qed.

Lemma elem_of_df_calls l : forall i k r,
  (k, r) ∈ df_calls env i l <->
  exists j, l !! j = Some k /\ r = getDFBytes (df env (i + j) k).
Proof.
  induction l as [|k0 l IH]; intros i k r; simpl.
  - split; [by intros ?%elem_of_nil|]. by intros (j & ? & _).
  - rewrite elem_of_cons, IH. split.
    + intros [[= -> ->]|(j & Hj & ->)].
      * exists 0%nat. by rewrite Nat.add_0_r.
      * exists (S j). split; [done|]. by rewrite Nat.add_succ_r.
    + intros ([|j] & Hj & ->); simpl in Hj.
      * left. injection Hj as ->. by rewrite Nat.add_0_r.
      * right. exists j. split; [done|]. by rewrite Nat.add_succ_r.
Qed.

Lemma length_df_calls l i : List.length (df_calls env i l) = List.length l.
Proof. revert i. induction l as [|k l IH]; intros i; simpl; [done|]. by rewrite IH. Qed.

Lemma sample_loop_lookup_inv l : forall i m t w k v,
  (sample_loop env i l m t w).1.1 !! k = Some v ->
  m !! k = Some v \/
  exists j, l !! j = Some k /\ getDFBytes (df env (i + j) k) = inr v.
Proof.
  induction l as [|k0 l IH]; intros i m t w k v; simpl; [by left|].
  destruct (getDFBytes (df env i k0)) as [e|v0] eqn:Hc; intros H; apply IH in H.
  - destruct H as [H|(j & Hj & Hv)]; [by left|].
    right. exists (S j). by rewrite Nat.add_succ_r.
  - destruct H as [H|(j & Hj & Hv)].
    + destruct (decide (k0 = k)) as [->|Hne].
      * rewrite lookup_insert_eq in H. injection H as ->.
        right. exists 0%nat. by rewrite Nat.add_0_r.
      * rewrite lookup_insert_ne in H by done. by left.
    + right. exists (S j). by rewrite Nat.add_succ_r.
Qed.

Lemma sample_loop_lookup_kept l : forall i m t w k,
  (forall j v, l !! j = Some k -> getDFBytes (df env (i + j) k) = inr v -> False) ->
  (sample_loop env i l m t w).1.1 !! k = m !! k.
Proof.
  induction l as [|k0 l IH]; intros i m t w k Hno; simpl; [done|].
  assert (Hrest : forall j v, l !! j = Some k ->
                              getDFBytes (df env (S i + j) k) = inr v -> False).
  { intros j v Hj Hv. apply (Hno (S j) v); [done|]. by rewrite Nat.add_succ_r. }
  destruct (getDFBytes (df env i k0)) as [e|v0] eqn:Hc; rewrite IH by done; [done|].
  destruct (decide (k0 = k)) as [->|Hne].
  - exfalso. apply (Hno 0%nat v0); [done|]. by rewrite Nat.add_0_r.
  - by rewrite lookup_insert_ne.
Qed.

Lemma sample_loop_lookup_last l : forall i m t w j k v,
  l !! j = Some k ->
  getDFBytes (df env (i + j) k) = inr v ->
  (forall j' v', (j < j')%nat -> l !! j' = Some k ->
                 getDFBytes (df env (i + j') k) = inr v' -> False) ->
  (sample_loop env i l m t w).1.1 !! k = Some v.
Proof.
  induction l as [|k0 l IH]; intros i m t w j k v Hj Hv Hlast; [done|].
  destruct j as [|j]; simpl in Hj |- *.
  - injection Hj as ->. rewrite Nat.add_0_r in Hv. rewrite Hv.
    rewrite sample_loop_lookup_kept; [by rewrite lookup_insert_eq|].
    intros j v' Hj Hv'. apply (Hlast (S j) v'); [lia|done|]. by rewrite Nat.add_succ_r.
  - assert (Hv2 : getDFBytes (df env (S i + j) k) = inr v)
      by (by rewrite Nat.add_succ_r in Hv).
    assert (Hlast2 : forall j' v', (j < j')%nat -> l !! j' = Some k ->
                                   getDFBytes (df env (S i + j') k) = inr v' -> False).
    { intros j' v' Hlt Hj' Hv'. apply (Hlast (S j') v'); [lia|done|].
      by rewrite Nat.add_succ_r. }
    destruct (getDFBytes (df env i k0)); by eapply IH.
Qed.

End SamplingLoop.

Lemma getDFBytes_in_range (output : error + string) (bytes : Z) :
  getDFBytes output = inr bytes -> in_range bytes.
Proof.
  destruct output as [err|out]; [discriminate|]. rewrite getDFBytes_eq.
  destruct (df_used_field out) as [field|]; [|discriminate].
  destruct (strconv.ParseInt field) as [e|v] eqn:Hp; [discriminate|].
  intros [= <-]. apply ParseInt_spec in Hp as (ds & _ & _ & Hr & _). exact Hr.
Qed.

Lemma sample_total_wrap (env : Env) (nfsMounts : list string) :
  Total (sample env nfsMounts).1 =
    wrap64 (sum_pairs (omap sampled (df_calls env 0 nfsMounts))).
Proof.
  unfold sample. rewrite sample_loop_calls. cbn [fst Total].
  pose proof (foldl_add64_sum (omap sampled (df_calls env 0 nfsMounts)) 0) as H.
  change (wrap64 0) with 0 in H. rewrite Z.add_0_l in H. exact H.
Qed.

Lemma sample_mounts (env : Env) (nfsMounts : list string) :
  Mounts (sample env nfsMounts).1 = Some (sample_loop env 0 nfsMounts ∅ 0 []).1.1 /\
  Timestamp (sample env nfsMounts).1 = time_Now_Unix env /\
  (sample env nfsMounts).2 = omap warned (df_calls env 0 nfsMounts).
Proof.
  unfold sample. rewrite sample_loop_calls. done.
Qed.

(** The values of a fresh sample fit their Go types when the clock
    does. *)
Lemma sample_wf (env : Env) (nfsMounts : list string) :
  in_range (time_Now_Unix env) -> wf_entry (sample env nfsMounts).1.
Proof.
  intros Ht. destruct (sample_mounts env nfsMounts) as (Hm & Hts & _).
  split; [by rewrite Hts|]. split; [rewrite sample_total_wrap; apply wrap64_in_range|].
  rewrite Hm. intros k v Hkv. simpl in Hkv.
  apply sample_loop_lookup_inv in Hkv as [Hkv|(j & _ & Hv)]; [done|].
  by eapply getDFBytes_in_range.
Qed.

(** ** What [loadEntries] returns *)

Section Loaded.

Lemma store_int64_in_range v cur n :
  in_range cur -> json.store_int64 v cur = Some n -> in_range n.
Proof.
  intros Hc. destruct v; simpl; try discriminate.
  - by intros [= <-].
  - destruct (strconv.ParseInt lit) as [e|z] eqn:Hp; [discriminate|].
    intros [= <-]. apply ParseInt_spec in Hp as (ds & _ & _ & Hr & _). exact Hr.
Qed.

Lemma in_range_0 : in_range 0.
Proof. unfold in_range, min_int64, max_int64. lia. Qed.

Lemma store_members_in_range ms : forall g g',
  map_Forall (fun _ bytes => in_range bytes) g ->
  json.store_members ms g = Some g' ->
  map_Forall (fun _ bytes => in_range bytes) g'.
Proof.
  induction ms as [|[raw v] ms IH]; intros g g' Hg; simpl.
  - by intros [= <-].
  - destruct (json.unquote raw) as [key|]; [|discriminate].
    destruct (json.store_int64 v 0) as [n|] eqn:Hn; [|discriminate].
    apply IH. apply map_Forall_insert_2; [|done].
    by apply (store_int64_in_range v 0 n in_range_0).
Qed.

Lemma store_fields_wf ms : forall e e',
  wf_entry e -> json.store_fields ms e = Some e' -> wf_entry e'.
Proof.
  induction ms as [|[raw v] ms IH]; intros e e' (Hts & Ht & Hm); simpl.
  - by intros [= <-].
  - destruct (json.unquote raw) as [key|]; [|discriminate].
    destruct (json.field_of key) as [[]|].
    + destruct (json.store_int64 v (Timestamp e)) as [n|] eqn:Hn; [|discriminate].
      apply IH. split; [|done]. by apply (store_int64_in_range v (Timestamp e)).
    + destruct (json.store_map v (Mounts e)) as [m|] eqn:Hs; [|discriminate].
      apply IH. split; [done|]. split; [done|]. simpl.
      destruct v; simpl in Hs; try discriminate.
      * injection Hs as <-. simpl. apply map_Forall_empty.
      * destruct (json.store_members members (entries_of (Mounts e))) as [g|] eqn:Hg;
          [|discriminate].
        injection Hs as <-. simpl. by eapply store_members_in_range.
    + destruct (json.store_int64 v (Total e)) as [n|] eqn:Hn; [|discriminate].
      apply IH. split; [done|]. split; [|done]. by apply (store_int64_in_range v (Total e)).
    + apply IH. done.
Qed.

Lemma wf_entry_zero : wf_entry (mkUsageEntry 0 None 0).
Proof. split; [apply in_range_0|]. split; [apply in_range_0|]. apply map_Forall_empty. Qed.

Lemma store_elements_wf vs : forall es,
  json.store_elements vs = Some es -> Forall wf_entry es.
Proof.
  induction vs as [|v vs IH]; intros es; simpl.
  - intros [= <-]. by apply Forall_nil.
  - destruct (json.store_entry v) as [e|] eqn:He; [|discriminate].
    destruct (json.store_elements vs) as [es'|]; [|discriminate].
    intros [= <-]. apply Forall_cons. split; [|by apply IH].
    destruct v; simpl in He; try discriminate.
    + injection He as <-. apply wf_entry_zero.
    + by apply (store_fields_wf members _ e wf_entry_zero).
Qed.

(** Every sample [loadEntries] returns has values of 64 bits. *)
Lemma loadEntries_wf (file : error + string) :
  Forall wf_entry (default [] (loadEntries file).1).
Proof.
  destruct file as [err|data]; simpl; [by apply Forall_nil|].
  unfold json.Unmarshal. destruct (json.parse data) as [v|]; simpl; [|by apply Forall_nil].
  destruct (json.store_entries v) as [entries|] eqn:Hs; simpl; [|by apply Forall_nil].
  destruct v; simpl in Hs; try discriminate.
  - injection Hs as <-. by apply Forall_nil.
  - destruct (json.store_elements elems) as [es|] eqn:He; [|discriminate].
    injection Hs as <-. simpl. by apply store_elements_wf in He.
Qed.

Lemma map_coerce_entry_valid (es : list UsageEntry) :
  Forall utf8_paths es -> map coerce_entry es = es.
Proof.
  induction 1 as [|e es He _ IH]; [done|]. simpl. by rewrite coerce_entry_valid, IH.
Qed.

End Loaded.

(** ** Paths read from a history file are UTF-8 *)

Section EncodedRunes.

Local Ltac darith :=
  change (2 ^ 3) with 8 in *; change (2 ^ 4) with 16 in *; change (2 ^ 6) with 64 in *;
  change (2 ^ 12) with 4096 in *; change (2 ^ 18) with 262144 in *;
  change (Z.ones 6) with 63 in *;
  Z.div_mod_to_equations; lia.

Local Ltac decide_tests :=
  repeat match goal with
  | |- context [?a <? ?b] =>
      first [ replace (a <? b) with true by (symmetry; apply Z.ltb_lt; lia)
            | replace (a <? b) with false by (symmetry; apply Z.ltb_ge; lia) ]
  | |- context [?a <=? ?b] =>
      first [ replace (a <=? b) with true by (symmetry; apply Z.leb_le; lia)
            | replace (a <=? b) with false by (symmetry; apply Z.leb_gt; lia) ]
  | |- context [?a =? ?b] =>
      first [ replace (a =? b) with true by (symmetry; apply Z.eqb_eq; lia)
            | replace (a =? b) with false by (symmetry; apply Z.eqb_neq; lia) ]
  end.

Lemma split2 r :
  128 <= r <= 2047 ->
  exists a b, 2 <= a <= 31 /\ 0 <= b <= 63 /\
              Z.lor 192 (Z.shiftr r 6) = 192 + a /\
              Z.lor 128 (Z.land r 63) = 128 + b.
Proof.
  intros Hr. exists (r / 64), (r mod 64).
  change 63 with (Z.ones 6). rewrite Z.land_ones, Z.shiftr_div_pow2 by lia.
  rewrite (lor_add 192 (r / 2 ^ 6) 6) by darith.
  rewrite (lor_add 128 (r mod 2 ^ 6) 6) by darith.
  change (2 ^ 6) with 64. repeat split; darith.
Qed.

Lemma split3 r :
  2048 <= r <= 65535 -> r < 55296 \/ 57343 < r ->
  exists a b c, 0 <= a <= 15 /\ 0 <= b <= 63 /\ 0 <= c <= 63 /\
                (a = 0 -> 32 <= b) /\ (a = 13 -> b <= 31) /\
                Z.lor 224 (Z.shiftr r 12) = 224 + a /\
                Z.lor 128 (Z.land (Z.shiftr r 6) 63) = 128 + b /\
                Z.lor 128 (Z.land r 63) = 128 + c.
Proof.
  intros Hr Hs. exists (r / 4096), ((r / 64) mod 64), (r mod 64).
  change 63 with (Z.ones 6). rewrite !Z.land_ones, !Z.shiftr_div_pow2 by lia.
  rewrite (lor_add 224 (r / 2 ^ 12) 4) by darith.
  rewrite (lor_add 128 ((r / 2 ^ 6) mod 2 ^ 6) 6) by darith.
  rewrite (lor_add 128 (r mod 2 ^ 6) 6) by darith.
  change (2 ^ 6) with 64. change (2 ^ 12) with 4096. repeat split; darith.
Qed.

Lemma split4 r :
  65536 <= r <= 1114111 ->
  exists a b c d, 0 <= a <= 4 /\ 0 <= b <= 63 /\ 0 <= c <= 63 /\ 0 <= d <= 63 /\
                  (a = 0 -> 16 <= b) /\ (a = 4 -> b <= 15) /\
                  Z.lor 240 (Z.shiftr r 18) = 240 + a /\
                  Z.lor 128 (Z.land (Z.shiftr r 12) 63) = 128 + b /\
                  Z.lor 128 (Z.land (Z.shiftr r 6) 63) = 128 + c /\
                  Z.lor 128 (Z.land r 63) = 128 + d.
Proof.
  intros Hr.
  exists (r / 262144), ((r / 4096) mod 64), ((r / 64) mod 64), (r mod 64).
  change 63 with (Z.ones 6). rewrite !Z.land_ones, !Z.shiftr_div_pow2 by lia.
  rewrite (lor_add 240 (r / 2 ^ 18) 3) by darith.
  rewrite (lor_add 128 ((r / 2 ^ 12) mod 2 ^ 6) 6) by darith.
  rewrite (lor_add 128 ((r / 2 ^ 6) mod 2 ^ 6) 6) by darith.
  rewrite (lor_add 128 (r mod 2 ^ 6) 6) by darith.
  change (2 ^ 6) with 64. change (2 ^ 12) with 4096. change (2 ^ 18) with 262144.
  repeat split; darith.
Qed.

(** What [EncodeRune] writes is read back as one rune of that many
    bytes, whatever follows. *)
Lemma decode_EncodeRune r t :
  exists r',
    utf8.DecodeRuneInString (utf8.EncodeRune r +:+ t)
    = (r', String.length (utf8.EncodeRune r)) /\
    (String.length (utf8.EncodeRune r) = 1%nat -> r' < 128).
Proof.
  unfold utf8.EncodeRune, utf8.MaxRune.
  destruct ((r <? 0) || (1114111 <? r)) eqn:Hout.
  { eexists. split; [reflexivity|]. discriminate. }
  apply orb_false_elim in Hout as [H0 H1]. apply Z.ltb_ge in H0, H1.
  destruct (Z.leb_spec r 127) as [Hle1|Hgt1].
  { exists r. rewrite append_cons, append_nil_l.
    unfold utf8.DecodeRuneInString. rewrite byte_val_of by lia.
    unfold utf8.first. decide_tests. split; [done|]. intros _. lia. }
  destruct (Z.leb_spec r 2047) as [Hle2|Hgt2].
  { destruct (split2 r ltac:(lia)) as (a & b & Ha & Hb & -> & ->).
    eexists. rewrite !append_cons, append_nil_l.
    unfold utf8.DecodeRuneInString. rewrite byte_val_of by lia.
    unfold utf8.first, utf8.decode_seq, utf8.locb, utf8.hicb. decide_tests.
    cbv zeta. rewrite byte_val_of by lia. decide_tests. cbn [orb Nat.leb].
    split; [reflexivity|]. discriminate. }
  destruct ((55296 <=? r) && (r <=? 57343)) eqn:Hsur.
  { eexists. split; [reflexivity|]. discriminate. }
  assert (Hns : r < 55296 \/ 57343 < r).
  { apply andb_false_iff in Hsur as [Hs|Hs]; apply Z.leb_gt in Hs; lia. }
  destruct (Z.leb_spec r 65535) as [Hle3|Hgt3].
  { destruct (split3 r ltac:(lia) Hns) as (a & b & c & Ha & Hb & Hc & Ha0 & Ha13 & E0 & E1 & E2).
    unfold utf8.enc3. rewrite E0, E1, E2.
    eexists. rewrite !append_cons, append_nil_l.
    unfold utf8.DecodeRuneInString. rewrite byte_val_of by lia.
    unfold utf8.first, utf8.decode_seq, utf8.cont, utf8.locb, utf8.hicb.
    destruct (decide (a = 0)) as [->|Hn0];
      [|destruct (decide (a = 13)) as [->|Hn13];
        [|destruct (decide (a < 13)) as [Hlt13|Hgt13]]];
      decide_tests; cbv zeta; rewrite !byte_val_of by lia; decide_tests;
      cbn [orb andb negb Nat.leb]; (split; [reflexivity|discriminate]). }
  destruct (split4 r ltac:(lia)) as
    (a & b & c & d & Ha & Hb & Hc & Hd & Ha0 & Ha4 & E0 & E1 & E2 & E3).
  rewrite E0, E1, E2, E3.
  eexists. rewrite !append_cons, append_nil_l.
  unfold utf8.DecodeRuneInString. rewrite byte_val_of by lia.
  unfold utf8.first, utf8.decode_seq, utf8.cont, utf8.locb, utf8.hicb.
  destruct (decide (a = 0)) as [->|Hn0];
    [|destruct (decide (a = 4)) as [->|Hn4]];
    decide_tests; cbv zeta; rewrite !byte_val_of by lia; decide_tests;
    cbn [orb andb negb Nat.leb]; (split; [reflexivity|discriminate]).
Qed.

End EncodedRunes.

Section ValidPaths.

Lemma EncodeRune_length r : (1 <= String.length (utf8.EncodeRune r))%nat.
Proof.
  unfold utf8.EncodeRune, utf8.enc3.
  repeat match goal with |- context [if ?b then _ else _] => destruct b end; simpl; lia.
Qed.

Lemma string_take_app s t : string_take (String.length s) (s +:+ t) = s.
Proof. induction s as [|c s IH]; simpl; [by destruct t|]. by rewrite IH. Qed.

(** A piece of text that is whole runes: what follows it is read on
    its own. *)
Definition whole_runes (p : string) : Prop :=
  forall t, utf8.ValidString (p +:+ t) = utf8.ValidString t.

Lemma whole_runes_EncodeRune r : whole_runes (utf8.EncodeRune r).
Proof.
  intros t. destruct (decode_EncodeRune r t) as (r' & Hd & Hone).
  pose proof (EncodeRune_length r) as Hlen.
  destruct (utf8.EncodeRune r) as [|c e] eqn:He; [simpl in Hlen; lia|].
  unfold utf8.ValidString. rewrite append_cons in *. rewrite runes_cons, Hd.
  cbn [fst snd forallb].
  change (String c (e +:+ t)) with (String c e +:+ t).
  rewrite string_take_app, string_drop_app.
  replace ((r' =? utf8.RuneError) && (String.length (String c e) =? 1)%nat) with false; [done|].
  symmetry. apply andb_false_iff.
  destruct (decide (String.length (String c e) = 1%nat)) as [H1|H1].
  - left. apply Z.eqb_neq. specialize (Hone H1). unfold utf8.RuneError. lia.
  - right. by apply Nat.eqb_neq.
Qed.

Lemma whole_runes_ascii c : byte_val c < 128 -> whole_runes (String c EmptyString).
Proof.
  intros Hc. pose proof (byte_val_range c) as Hr.
  rewrite <- (byte_of_val c), <- EncodeRune_1 by lia. apply whole_runes_EncodeRune.
Qed.

Lemma prepend_valid p r out :
  whole_runes p ->
  (forall out', r = Some out' -> utf8.ValidString out' = true) ->
  json.prepend p r = Some out -> utf8.ValidString out = true.
Proof.
  intros Hp Hr. destruct r as [out'|]; [|discriminate]. simpl. intros [= <-].
  rewrite Hp. by apply Hr.
Qed.

Lemma unquote_loop_valid fuel : forall s out,
  json.unquote_loop fuel s = Some out -> utf8.ValidString out = true.
Proof.
  induction fuel as [|fuel IH]; intros [|c s] out; cbn [json.unquote_loop];
    try (intros [= <-]; reflexivity); try discriminate.
  assert (Hok : forall p x, whole_runes p ->
                  json.prepend p (json.unquote_loop fuel x) = Some out ->
                  utf8.ValidString out = true).
  { intros p x Hp. apply prepend_valid; [done|]. intros out'. apply IH. }
  destruct (Ascii.eqb c BSLASH).
  - destruct s as [|e s]; [discriminate|]. cbv zeta.
    pose proof (byte_val_range e) as He.
    destruct ((byte_val e =? 34) || (byte_val e =? 92) || (byte_val e =? 47)
              || (byte_val e =? 39)) eqn:Hq.
    { apply Hok, whole_runes_ascii.
      repeat (apply orb_prop in Hq as [Hq|Hq]); apply Z.eqb_eq in Hq; lia. }
    repeat (match goal with
            | |- context [if (byte_val e =? ?n) then _ else _] =>
                destruct (byte_val e =? n);
                [try (apply Hok, whole_runes_ascii; vm_compute; reflexivity)|]
            end); try discriminate.
    destruct (json.getu4 _ <? 0); [discriminate|].
    destruct (utf16.IsSurrogate _); [destruct (negb _)|];
      apply Hok, whole_runes_EncodeRune.
  - destruct (Ascii.eqb c DQUOTE || (byte_val c <? 32)); [discriminate|].
    destruct (Z.ltb_spec (byte_val c) utf8.RuneSelf) as [Hlt|Hge].
    + apply Hok, whole_runes_ascii. exact Hlt.
    + destruct (utf8.DecodeRuneInString (String c s)) as [rr size].
      apply Hok, whole_runes_EncodeRune.
Qed.

Lemma unquote_valid raw key : json.unquote raw = Some key -> utf8.ValidString key = true.
Proof. apply unquote_loop_valid. Qed.

Lemma store_members_valid ms : forall g g',
  map_Forall (fun mount _ => utf8.ValidString mount = true) g ->
  json.store_members ms g = Some g' ->
  map_Forall (fun mount (_ : Z) => utf8.ValidString mount = true) g'.
Proof.
  induction ms as [|[raw v] ms IH]; intros g g' Hg; simpl.
  - by intros [= <-].
  - destruct (json.unquote raw) as [key|] eqn:Hk; [|discriminate].
    destruct (json.store_int64 v 0) as [n|]; [|discriminate].
    apply IH. apply map_Forall_insert_2; [|done]. by eapply unquote_valid.
Qed.

Lemma store_fields_valid ms : forall e e',
  utf8_paths e -> json.store_fields ms e = Some e' -> utf8_paths e'.
Proof.
  induction ms as [|[raw v] ms IH]; intros e e' He; simpl.
  - by intros [= <-].
  - destruct (json.unquote raw) as [key|]; [|discriminate].
    destruct (json.field_of key) as [[]|].
    + destruct (json.store_int64 v (Timestamp e)) as [n|]; [|discriminate]. by apply IH.
    + destruct (json.store_map v (Mounts e)) as [m|] eqn:Hs; [|discriminate].
      apply IH. unfold utf8_paths. simpl.
      destruct v; simpl in Hs; try discriminate.
      * injection Hs as <-. simpl. apply map_Forall_empty.
      * destruct (json.store_members members (entries_of (Mounts e))) as [g|] eqn:Hg;
          [|discriminate].
        injection Hs as <-. simpl. by eapply store_members_valid.
    + destruct (json.store_int64 v (Total e)) as [n|]; [|discriminate]. by apply IH.
    + by apply IH.
Qed.

Lemma utf8_paths_zero : utf8_paths (mkUsageEntry 0 None 0).
Proof. apply map_Forall_empty. Qed.

Lemma store_elements_valid vs : forall es,
  json.store_elements vs = Some es -> Forall utf8_paths es.
Proof.
  induction vs as [|v vs IH]; intros es; simpl.
  - intros [= <-]. by apply Forall_nil.
  - destruct (json.store_entry v) as [e|] eqn:He; [|discriminate].
    destruct (json.store_elements vs) as [es'|]; [|discriminate].
    intros [= <-]. apply Forall_cons. split; [|by apply IH].
    destruct v; simpl in He; try discriminate.
    + injection He as <-. apply utf8_paths_zero.
    + by apply (store_fields_valid members _ e utf8_paths_zero).
Qed.

(** The mount paths of every sample [loadEntries] returns are UTF-8. *)
Lemma loadEntries_utf8 (file : error + string) :
  Forall utf8_paths (default [] (loadEntries file).1).
Proof.
  destruct file as [err|data]; simpl; [by apply Forall_nil|].
  unfold json.Unmarshal. destruct (json.parse data) as [v|]; simpl; [|by apply Forall_nil].
  destruct (json.store_entries v) as [entries|] eqn:Hs; simpl; [|by apply Forall_nil].
  destruct v; simpl in Hs; try discriminate.
  - injection Hs as <-. by apply Forall_nil.
  - destruct (json.store_elements elems) as [es|] eqn:He; [|discriminate].
    injection Hs as <-. simpl. by apply store_elements_valid in He.
Qed.

End ValidPaths.

(** ** C9: the history after a run *)

(** A run that finds no NFS mount, with a history of one sample on
    disk. *)
Definition c9_idle_env : Env :=
  mkEnv "/var/lib/nfsusage.json" false (inr "/")
        (fun dir name => dir +:+ "/" +:+ name)
        (inr ("/dev/sda1 / ext4 rw 0 0" +:+ endl))
        (fun _ _ => inl (SysError "exit status 1" false))
        1700000000
        (fun _ => inr (saveEntries_data
                         (Some [mkUsageEntry 1699990000 (Some {["/mnt/a" := 1073741824]})
                                             1073741824])))
        (fun _ _ => None)
        (fun _ m => map_to_list m).

(** A first run on a host with an NFS mount whose path is [/mnt/] and
    the byte 255. *)
Definition c9_bytes_env : Env :=
  mkEnv "/var/lib/nfsusage.json" false (inr "/")
        (fun dir name => dir +:+ "/" +:+ name)
        (inr ("srv:/export/x " +:+ c3_path +:+ " nfs4 rw 0 0" +:+ endl))
        (fun _ _ => inr (df_header +:+ endl +:+ "srv:/export/x 4096 1024 3072 25% /mnt/x" +:+ endl))
        1700000000
        (fun _ => inl (SysError "open /var/lib/nfsusage.json: no such file or directory" true))
        (fun _ _ => None)
        (fun _ m => map_to_list m).

(** C9, as stated, fails twice. A run that finds no NFS mount ends
    with status 0 and writes nothing: the history on disk is as it was,
    no sample appended. And a run whose fresh sample has a mount path
    that is no UTF-8 ends with status 0 having written a history whose
    last sample, read back, is not the fresh one: the path has [U+FFFD]
    for the byte. *)
Lemma main_success_without_append :
  (exit_code (main c9_idle_env) = 0 /\ write_call (main c9_idle_env) = None) /\
  (exit_code (main c9_bytes_env) = 0 /\
   (sample c9_bytes_env [c3_path]).1 = c3_entry /\
   write_call (main c9_bytes_env)
     = Some ("/var/lib/nfsusage.json", saveEntries_data (Some [c3_entry])) /\
   loadEntries (inr (saveEntries_data (Some [c3_entry]))) = (Some [c3_read_back], None) /\
   map_get (Mounts c3_entry) c3_path = Some 1024 /\
   map_get (Mounts c3_read_back) c3_path = None).
Proof. repeat split; vm_compute; reflexivity. Qed.

(** C9 (amended): on every run that finds at least one NFS mount and
    ends with status 0, [main] has written the history file, the write
    succeeded, and the file, read back by [loadEntries], holds the
    history loaded at the start (empty when the file did not exist)
    followed by the fresh sample: the stored samples unchanged and in
    their order, the history longer by one. The fresh sample comes back
    as it was built when its mount paths are UTF-8; bytes of a path that
    are not come back as [U+FFFD]. *)
Theorem main_appends_sample (env : Env) :
  in_range (time_Now_Unix env) ->
  exit_code (main env) = 0 ->
  (getNFSMounts (proc_mounts env)).1 <> [] ->
  exists filePath nfsMounts data,
    resolve_path env = inr filePath /\
    getNFSMounts (proc_mounts env) = (nfsMounts, None) /\
    let loaded := default [] (loadEntries (os_ReadFile env filePath)).1 in
    let currentEntry := (sample env nfsMounts).1 in
    write_call (main env) = Some (filePath, data) /\
    os_WriteFile env filePath data = None /\
    loadEntries (inr data) = (Some (loaded ++ [coerce_entry currentEntry]), None) /\
    (utf8_paths currentEntry ->
     loadEntries (inr data) = (Some (loaded ++ [currentEntry]), None)) /\
    List.length (loaded ++ [currentEntry]) = S (List.length loaded) /\
    (forall i e, loaded !! i = Some e -> (loaded ++ [currentEntry]) !! i = Some e) /\
    last (loaded ++ [currentEntry]) = Some currentEntry /\
    (forall err, os_ReadFile env filePath = inl err -> IsNotExist err = true /\ loaded = []).
Proof.
  intros Ht Hexit Hmounts.
  destruct (main_cases env) as
    [(err & _ & Hmain)|[(p & ms & err & _ & _ & Hmain)|[(p & _ & Hm & _)|
     [(p & ms & e & _ & _ & _ & _ & _ & Hmain)|(p & ms & Hp & Hm & Hne & Hload & Hmain)]]]];
    try (rewrite Hmain in Hexit; discriminate).
  { rewrite Hm in Hmounts. done. }
  set (loaded := default [] (loadEntries (os_ReadFile env p)).1).
  set (cur := (sample env ms).1).
  exists p, ms, (saveEntries_data (Some (loaded ++ [cur]))).
  split; [done|]. split; [done|]. cbv zeta. fold loaded cur.
  assert (Hsr : main env = save_and_report env p (loadEntries (os_ReadFile env p)).1
                                           cur (sample env ms).2) by exact Hmain.
  unfold save_and_report, append_entry in Hsr. cbv zeta in Hsr. fold loaded in Hsr.
  destruct (os_WriteFile env p (saveEntries_data (Some (loaded ++ [cur])))) as [err|] eqn:Hw;
    [rewrite Hsr in Hexit; discriminate|].
  assert (Hread : loadEntries (inr (saveEntries_data (Some (loaded ++ [cur]))))
                  = (Some (loaded ++ [coerce_entry cur]), None)).
  { unfold loadEntries at 1, saveEntries_data.
    rewrite Unmarshal_MarshalIndent.
    - cbn [fmap option_fmap option_map]. rewrite map_app. cbn [map].
      rewrite map_coerce_entry_valid by apply loadEntries_utf8. done.
    - cbn [default from_option id]. apply Forall_app. split; [apply loadEntries_wf|].
      apply Forall_cons. split; [by apply sample_wf|by apply Forall_nil]. }
  split; [by rewrite Hsr|]. split; [done|]. split; [exact Hread|].
  split; [intros Hutf; rewrite Hread; by rewrite coerce_entry_valid|].
  split; [rewrite length_app; simpl; lia|].
  split; [intros i e Hi; by apply lookup_app_l_Some|].
  split; [apply last_snoc|].
  intros err Herr. unfold loaded. specialize (Hload err). rewrite Herr in *. simpl in *.
  split; [by apply Hload|done].
Qed.

(** A later run: the history file holds one sample. *)
Definition c9_stored : UsageEntry :=
  mkUsageEntry 1699990000 (Some {["/mnt/a" := 1073741824]}) 1073741824.

Definition c9_env : Env :=
  mkEnv "/var/lib/nfsusage.json" false (inr "/")
        (fun dir name => dir +:+ "/" +:+ name)
        (inr ("srv:/export/a /mnt/a nfs4 rw 0 0" +:+ endl))
        (fun _ _ => inr (df_header +:+ endl
                         +:+ "srv:/export/a 4294967296 2147483648 2147483648 50% /mnt/a" +:+ endl))
        1700000000
        (fun _ => inr (saveEntries_data (Some [c9_stored])))
        (fun _ _ => None)
        (fun _ m => map_to_list m).

Definition c9_fresh : UsageEntry :=
  mkUsageEntry 1700000000 (Some {["/mnt/a" := 2147483648]}) 2147483648.

Lemma main_appends_sample_witness :
  exists filePath nfsMounts data,
    resolve_path c9_env = inr filePath /\
    getNFSMounts (proc_mounts c9_env) = (nfsMounts, None) /\
    let loaded := default [] (loadEntries (os_ReadFile c9_env filePath)).1 in
    let currentEntry := (sample c9_env nfsMounts).1 in
    write_call (main c9_env) = Some (filePath, data) /\
    os_WriteFile c9_env filePath data = None /\
    loadEntries (inr data) = (Some (loaded ++ [coerce_entry currentEntry]), None) /\
    (utf8_paths currentEntry ->
     loadEntries (inr data) = (Some (loaded ++ [currentEntry]), None)) /\
    List.length (loaded ++ [currentEntry]) = S (List.length loaded) /\
    (forall i e, loaded !! i = Some e -> (loaded ++ [currentEntry]) !! i = Some e) /\
    last (loaded ++ [currentEntry]) = Some currentEntry /\
    (forall err, os_ReadFile c9_env filePath = inl err ->
                 IsNotExist err = true /\ loaded = []).
Proof.
  apply (main_appends_sample c9_env).
  - unfold in_range, min_int64, max_int64. simpl. lia.
  - vm_compute. reflexivity.
  - vm_compute. discriminate.
Defined.

(** What that run leaves on disk. *)
Example main_appends_sample_scenario :
  write_call (main c9_env)
    = Some ("/var/lib/nfsusage.json", saveEntries_data (Some [c9_stored; c9_fresh])) /\
  loadEntries (inr (saveEntries_data (Some [c9_stored; c9_fresh])))
    = (Some [c9_stored; c9_fresh], None).
Proof. split; vm_compute; reflexivity. Qed.

(** * Further properties of the program *)

(** ** [isSnapshotMount] and [filterEntry] *)

(** X1: [isSnapshotMount] holds exactly of the paths that have
    [.snapshot] somewhere inside: at the start, in the middle of a
    component or at the end. *)
Theorem isSnapshotMount_substring (mountPoint : string) :
  isSnapshotMount mountPoint = true <->
  exists before after, mountPoint = before +:+ ".snapshot" +:+ after.
Proof. unfold isSnapshotMount. apply Contains_spec. Qed.

Lemma filter_live_idemp (g : gmap string Z) : filter live (filter live g) = filter live g.
Proof.
  apply map_filter_id. intros k v Hkv. by apply map_lookup_filter_Some in Hkv as [_ H].
Qed.

(** X2: filtering twice is filtering once. *)
Theorem filterEntry_idempotent (e : UsageEntry) :
  filterEntry (filterEntry e) = filterEntry e.
Proof.
  rewrite (filterEntry_eq (filterEntry e)), (filterEntry_eq e). simpl.
  by rewrite filter_live_idemp.
Qed.

(** X3: the order in which the [range] of line 35 visits the map does
    not show in the result: the map built, the total and the time stamp
    are the same for every order. *)
Theorem filterEntry_any_order (it1 it2 : list (string * Z)) (e : UsageEntry) :
  it1 ≡ₚ map_to_list (entries_of (Mounts e)) ->
  it2 ≡ₚ map_to_list (entries_of (Mounts e)) ->
  filterEntry_in it1 e = filterEntry_in it2 e /\
  filterEntry_loop it1 ∅ 0 = filterEntry_loop it2 ∅ 0.
Proof.
  intros H1 H2.
  assert (H : filterEntry_in it1 e = filterEntry_in it2 e)
    by (by rewrite !filterEntry_order_irrelevant).
  split; [done|]. unfold filterEntry_in in H.
  destruct (filterEntry_loop it1 ∅ 0) as [m1 t1], (filterEntry_loop it2 ∅ 0) as [m2 t2].
  by injection H as -> ->.
Qed.

Lemma filterEntry_any_order_witness :
  filterEntry_in (reverse (map_to_list (entries_of (Mounts c2_witness_entry)))) c2_witness_entry
  = filterEntry_in (map_to_list (entries_of (Mounts c2_witness_entry))) c2_witness_entry.
Proof.
  refine (proj1 (filterEntry_any_order
                   (reverse (map_to_list (entries_of (Mounts c2_witness_entry))))
                   (map_to_list (entries_of (Mounts c2_witness_entry))) c2_witness_entry _ _)).
  - apply reverse_Permutation.
  - reflexivity.
Defined.

(** X4: a sample that has a map, no snapshot mount in it and its total
    equal to the sum of its values is returned as it is. *)
Theorem filterEntry_fixes_clean_sample (e : UsageEntry) (g : gmap string Z) :
  Mounts e = Some g ->
  map_Forall (fun mount _ => isSnapshotMount mount = false) g ->
  total_is_sum e ->
  filterEntry e = e.
Proof.
  intros Hg Hclean Hsum. rewrite filterEntry_eq.
  unfold total_is_sum, sum64 in Hsum. destruct e as [ts m t]. simpl in *. subst m.
  simpl in *.
  assert (Hf : filter live g = g).
  { apply map_filter_id. intros k v Hkv. exact (Hclean k v Hkv). }
  rewrite Hf. by rewrite <- Hsum.
Qed.

Lemma filterEntry_fixes_clean_sample_witness :
  filterEntry c7_current = c7_current.
Proof.
  apply (filterEntry_fixes_clean_sample c7_current
           (<["/mnt/a" := 2147483648]> {["/mnt/b" := 1073741824]})).
  - reflexivity.
  - apply (bool_decide_unpack _). vm_compute. exact I.
  - vm_compute. reflexivity.
Defined.

(** ** The fresh sample *)

(** X5: the map of a fresh sample is never nil, its keys are mount
    paths for which a call of [df] gave a number, and each holds the
    number of the last such call for its path; a path whose calls all
    failed is not in the map. *)
Theorem sample_keeps_last_result (env : Env) (nfsMounts : list string) :
  let entry := (sample env nfsMounts).1 in
  Timestamp entry = time_Now_Unix env /\
  (exists g, Mounts entry = Some g) /\
  (forall mount bytes,
      map_get (Mounts entry) mount = Some bytes ->
      in_range bytes /\
      exists i, nfsMounts !! i = Some mount /\ getDFBytes (df env i mount) = inr bytes) /\
  (forall i mount bytes,
      nfsMounts !! i = Some mount ->
      getDFBytes (df env i mount) = inr bytes ->
      (forall j bytes', (i < j)%nat -> nfsMounts !! j = Some mount ->
                        getDFBytes (df env j mount) = inr bytes' -> False) ->
      map_get (Mounts entry) mount = Some bytes) /\
  (forall mount,
      (forall i bytes, nfsMounts !! i = Some mount ->
                       getDFBytes (df env i mount) = inr bytes -> False) ->
      map_get (Mounts entry) mount = None).
Proof.
  unfold sample.
  destruct (sample_loop env 0 nfsMounts ∅ 0 []) as [[g t] w] eqn:Hl.
  assert (Hg : g = (sample_loop env 0 nfsMounts ∅ 0 []).1.1) by (by rewrite Hl).
  cbn [fst Timestamp Mounts]. unfold map_get. cbn [entries_of default from_option id].
  split; [done|]. split; [by exists g|]. rewrite Hg. split; [|split].
  - intros mount bytes H. apply sample_loop_lookup_inv in H as [H|(j & Hj & Hv)]; [done|].
    split; [by eapply getDFBytes_in_range|]. by exists j.
  - intros i mount bytes Hi Hv Hlast.
    by apply (sample_loop_lookup_last env nfsMounts 0 ∅ 0 [] i mount bytes).
  - intros mount Hno. rewrite sample_loop_lookup_kept; [done|].
    intros j v Hj Hv. by apply (Hno j v).
Qed.

(** X6: the total of a fresh sample is the [int64] sum of the numbers
    of all the calls of [df] that gave one, a path sampled twice counted
    twice. *)
Theorem sample_total_sums_every_call (env : Env) (nfsMounts : list string) :
  Total (sample env nfsMounts).1 =
    wrap64 (sum_pairs (omap sampled (df_calls env 0 nfsMounts))) /\
  in_range (Total (sample env nfsMounts).1).
Proof.
  rewrite sample_total_wrap. split; [done|]. apply wrap64_in_range.
Qed.

Lemma length_warned_sampled (calls : list (string * (error + Z))) :
  (List.length (omap warned calls) + List.length (omap sampled calls)
   = List.length calls)%nat.
Proof.
  induction calls as [|[k [e|v]] l IH]; [done| |].
  - change (omap warned ((k, inl e) :: l)) with (MsgDfWarning k e :: omap warned l).
    change (omap sampled ((k, inl e) :: l)) with (omap sampled l). simpl. lia.
  - change (omap warned ((k, inr v) :: l)) with (omap warned l).
    change (omap sampled ((k, inr v) :: l)) with ((k, v) :: omap sampled l). simpl. lia.
Qed.

(** X7: the warnings of a fresh sample are one for each call of [df]
    that failed, in the order of the calls, with the path and the error
    of the call; every call gives either a number or a warning. *)
Theorem sample_warns_once_per_failure (env : Env) (nfsMounts : list string) :
  let warnings := (sample env nfsMounts).2 in
  warnings = omap warned (df_calls env 0 nfsMounts) /\
  (List.length warnings + List.length (omap sampled (df_calls env 0 nfsMounts))
   = List.length nfsMounts)%nat /\
  (forall mount err,
      MsgDfWarning mount err ∈ warnings <->
      exists i, nfsMounts !! i = Some mount /\ getDFBytes (df env i mount) = inl err) /\
  (forall msg, msg ∈ warnings -> exists mount err, msg = MsgDfWarning mount err).
Proof.
  unfold sample. rewrite sample_loop_calls. cbn [snd app].
  split; [done|]. split; [|split].
  - rewrite <- (length_df_calls env nfsMounts 0). apply length_warned_sampled.
  - intros mount err. rewrite list_elem_of_omap. split.
    + intros ([k r] & Hin & Hw). unfold warned in Hw. simpl in Hw.
      destruct r as [e|v]; [|discriminate]. injection Hw as -> ->.
      apply elem_of_df_calls in Hin as (j & Hj & Hr). by exists j.
    + intros (i & Hi & Hr). exists (mount, inl err). split; [|done].
      apply elem_of_df_calls. exists i. by rewrite Nat.add_0_l.
  - intros msg. rewrite list_elem_of_omap. intros ([k r] & _ & Hw).
    unfold warned in Hw. simpl in Hw. destruct r as [e|v]; [|discriminate].
    injection Hw as <-. by exists k, e.
Qed.

(** ** How a run ends *)


Section Reports.

Variable env : Env.

Lemma append_not_nil_r (s t : string) : t <> EmptyString -> s +:+ t <> EmptyString.
Proof.
  intros Ht H. apply (f_equal String.length) in H. rewrite append_length in H.
  destruct t; [done|]. simpl in H. lia.
Qed.

Lemma printCurrent_not_empty it1 it2 entry : printCurrent it1 it2 entry <> EmptyString.
Proof. unfold printCurrent. repeat apply append_not_nil_r. done. Qed.

Lemma table_line_not_empty w a b c d : table_line w a b c d <> EmptyString.
Proof. unfold table_line. repeat apply append_not_nil_r. done. Qed.

Lemma printComparison_not_empty itc ito oldest current :
  printComparison itc ito oldest current <> EmptyString.
Proof.
  unfold printComparison. cbv zeta. intros H.
  apply (f_equal String.length) in H. rewrite append_length in H.
  match type of H with
  | (String.length ?l + _)%nat = _ =>
      pose proof (table_line_not_empty
                    (widths_loop (comparison_rows itc ito oldest current)
                       (mkWidths (len "Mountpoint") (len "Oldest") (len "Current")
                                 (len "Difference")))
                    "Mountpoint" "Oldest" "Current" "Difference") as Hne;
      destruct l; [done|simpl in H; lia]
  end.
Qed.

Lemma report_not_empty entries currentEntry :
  report env entries currentEntry <> EmptyString.
Proof.
  unfold report. destruct (flag_compare env); [destruct entries as [|? [|? ?]]|];
    auto using printCurrent_not_empty, printComparison_not_empty.
Qed.

End Reports.

(** X8: something is written to standard output exactly when the
    history file has been written without an error: the report of a run
    is never shown for a sample that was not saved, and every run that
    saved a sample reports. *)
Theorem main_reports_iff_saved (env : Env) :
  stdout (main env) <> EmptyString <->
  exists filePath data,
    write_call (main env) = Some (filePath, data) /\
    os_WriteFile env filePath data = None.
Proof.
  destruct (main_cases env) as
    [(err & _ & ->)|[(p & ms & err & _ & _ & ->)|[(p & _ & _ & ->)|
     [(p & ms & e & _ & _ & _ & _ & _ & ->)|(p & ms & _ & _ & _ & _ & ->)]]]];
    try (simpl; split; [done|by intros (? & ? & ? & _)]).
  unfold save_and_report. cbv zeta.
  destruct (os_WriteFile env p _) as [err|] eqn:Hw; cbn [stdout write_call].
  - split; [done|]. intros (? & ? & [= <- <-] & Hw').
    assert (Some err = None) by (rewrite <- Hw; exact Hw'). done.
  - split; [|intros _; apply report_not_empty]. intros _. by eexists _, _.
Qed.


(** X10: a history file that is there but cannot be read or decoded is
    never written over: the run makes no call of [os.WriteFile], prints
    no report and, when there were mounts to sample, ends with status 1
    after the warnings and the loading error. *)
Theorem main_load_error_keeps_file (env : Env) (filePath : string) (e : error) :
  resolve_path env = inr filePath ->
  (loadEntries (os_ReadFile env filePath)).2 = Some e ->
  IsNotExist e = false ->
  write_call (main env) = None /\
  stdout (main env) = EmptyString /\
  (forall nfsMounts,
      getNFSMounts (proc_mounts env) = (nfsMounts, None) -> nfsMounts <> [] ->
      exit_code (main env) = 1 /\
      stderr (main env) = (sample env nfsMounts).2 ++ [MsgLoad e]).
Proof.
  intros Hp He Hne.
  destruct (main_cases env) as
    [(err & Hp' & ->)|[(p & ms & err & Hp' & Hm & ->)|[(p & Hp' & Hm & ->)|
     [(p & ms & e' & Hp' & Hm & _ & He' & _ & ->)|(p & ms & Hp' & Hm & _ & Hok & ->)]]]];
    simpl; try (split; [done|]; split; [done|]; intros l Hl Hnil; congruence).
  - rewrite Hp in Hp'. injection Hp' as <-. rewrite He in He'. injection He' as <-.
    split; [done|]. split; [done|]. intros l Hl _. rewrite Hm in Hl. by injection Hl as <-.
  - rewrite Hp in Hp'. injection Hp' as <-. apply Hok in He. congruence.
Qed.

(** A run whose history file holds text that is no JSON. *)
Definition x10_env : Env :=
  mkEnv "/var/lib/nfsusage.json" false (inr "/")
        (fun dir name => dir +:+ "/" +:+ name)
        (inr ("srv:/export/a /mnt/a nfs4 rw 0 0" +:+ endl))
        (fun _ _ => inr (df_header +:+ endl +:+ "srv:/export/a 100 1 99 1% /mnt/a" +:+ endl))
        1700000000
        (fun _ => inr "[{")
        (fun _ _ => None)
        (fun _ m => map_to_list m).

Lemma main_load_error_keeps_file_witness :
  write_call (main x10_env) = None /\
  stdout (main x10_env) = EmptyString /\
  (forall nfsMounts,
      getNFSMounts (proc_mounts x10_env) = (nfsMounts, None) -> nfsMounts <> [] ->
      exit_code (main x10_env) = 1 /\
      stderr (main x10_env) = (sample x10_env nfsMounts).2 ++ [MsgLoad ErrJsonSyntax]).
Proof.
  apply (main_load_error_keeps_file x10_env "/var/lib/nfsusage.json" ErrJsonSyntax).
  - reflexivity.
  - vm_compute. reflexivity.
  - reflexivity.
Defined.

(** ** Runs in which [df] fails for every mount *)

Lemma sample_loop_all_fail (env : Env) l : forall i m t w,
  (forall j mount, l !! j = Some mount ->
                   exists err, getDFBytes (df env (i + j) mount) = inl err) ->
  exists w', sample_loop env i l m t w = (m, t, w ++ w') /\
             List.length w' = List.length l.
Proof.
  induction l as [|k l IH]; intros i m t w Hfail; simpl.
  - exists []. by rewrite app_nil_r.
  - destruct (Hfail 0%nat k eq_refl) as [err Herr]. rewrite Nat.add_0_r in Herr.
    rewrite Herr.
    destruct (IH (S i) m t (w ++ [MsgDfWarning k err])) as (w' & -> & Hlen).
    { intros j mount Hj. destruct (Hfail (S j) mount Hj) as [e He].
      exists e. by rewrite Nat.add_succ_r in He. }
    exists (MsgDfWarning k err :: w'). rewrite <- app_assoc. simpl. by rewrite Hlen.
Qed.

(** X11: when [df] fails for every mount the run goes on: the sample
    has an empty map and total 0, there is one warning for each mount,
    and the empty sample is appended to the history and written like any
    other; the run ends with status 0 when the file can be written. *)
Theorem main_saves_empty_sample (env : Env) (filePath : string) (nfsMounts : list string) :
  resolve_path env = inr filePath ->
  getNFSMounts (proc_mounts env) = (nfsMounts, None) ->
  nfsMounts <> [] ->
  (forall i mount, nfsMounts !! i = Some mount ->
                   exists err, getDFBytes (df env i mount) = inl err) ->
  (forall e, (loadEntries (os_ReadFile env filePath)).2 = Some e -> IsNotExist e = true) ->
  let empty := mkUsageEntry (time_Now_Unix env) (Some ∅) 0 in
  let data := saveEntries_data
                (Some (default [] (loadEntries (os_ReadFile env filePath)).1 ++ [empty])) in
  (sample env nfsMounts).1 = empty /\
  List.length (sample env nfsMounts).2 = List.length nfsMounts /\
  write_call (main env) = Some (filePath, data) /\
  (os_WriteFile env filePath data = None ->
   exit_code (main env) = 0 /\ stderr (main env) = (sample env nfsMounts).2).
Proof.
  intros Hp Hm Hne Hfail Hload. cbv zeta.
  destruct (sample_loop_all_fail env nfsMounts 0 ∅ 0 []) as (w' & Hloop & Hlen);
    [intros j mount Hj; by apply Hfail|].
  assert (Hs : sample env nfsMounts =
               (mkUsageEntry (time_Now_Unix env) (Some ∅) 0, w'))
    by (unfold sample; by rewrite Hloop).
  rewrite Hs. cbn [fst snd]. split; [done|]. split; [done|].
  destruct (main_cases env) as
    [(err & Hp' & _)|[(p & ms & err & _ & Hm' & _)|[(p & _ & Hm' & _)|
     [(p & ms & e & Hp' & _ & _ & He & Hne' & _)|(p & ms & Hp' & Hm' & _ & _ & ->)]]]];
    try congruence.
  - rewrite Hp in Hp'. injection Hp' as <-. apply Hload in He. congruence.
  - rewrite Hp in Hp'. injection Hp' as <-. rewrite Hm in Hm'. injection Hm' as <-.
    rewrite Hs. cbn [fst snd]. unfold save_and_report, append_entry. cbv zeta.
    destruct (os_WriteFile env filePath _) as [err|]; cbn [write_call exit_code stderr].
    + split; [done|]. done.
    + split; [done|]. done.
Qed.

(** A first run on a host where [df] is not to be had. *)
Definition x11_env : Env :=
  mkEnv "/var/lib/nfsusage.json" false (inr "/")
        (fun dir name => dir +:+ "/" +:+ name)
        (inr ("srv:/export/a /mnt/a nfs4 rw 0 0" +:+ endl
              +:+ "srv:/export/b /mnt/b nfs rw 0 0" +:+ endl))
        (fun _ _ => inl (SysError "exec: df: executable file not found in $PATH" false))
        1700000000
        (fun _ => inl (SysError "open /var/lib/nfsusage.json: no such file or directory" true))
        (fun _ _ => None)
        (fun _ m => map_to_list m).

Lemma main_saves_empty_sample_witness :
  let empty := mkUsageEntry (time_Now_Unix x11_env) (Some ∅) 0 in
  let data := saveEntries_data
                (Some (default [] (loadEntries (os_ReadFile x11_env "/var/lib/nfsusage.json")).1
                       ++ [empty])) in
  (sample x11_env ["/mnt/a"; "/mnt/b"]).1 = empty /\
  List.length (sample x11_env ["/mnt/a"; "/mnt/b"]).2 = 2%nat /\
  write_call (main x11_env) = Some ("/var/lib/nfsusage.json", data) /\
  (os_WriteFile x11_env "/var/lib/nfsusage.json" data = None ->
   exit_code (main x11_env) = 0 /\
   stderr (main x11_env) = (sample x11_env ["/mnt/a"; "/mnt/b"]).2).
Proof.
  apply (main_saves_empty_sample x11_env "/var/lib/nfsusage.json" ["/mnt/a"; "/mnt/b"]).
  - reflexivity.
  - vm_compute. reflexivity.
  - discriminate.
  - intros i mount _. eexists. reflexivity.
  - intros e. simpl. intros [= <-]. reflexivity.
Defined.

(** ** The path of the history file *)






(** ** Errors of [getNFSMounts] and of [getDFBytes] *)

Lemma scan_error (raws : list string) :
  (bufio.scan raws).2 = None \/ (bufio.scan raws).2 = Some ErrTooLong.
Proof.
  induction raws as [|raw [|raw' rest] IH].
  - by left.
  - simpl. destruct (String.eqb raw EmptyString); [by left|].
    destruct (bufio.too_long raw); [by right|by left].
  - change (bufio.scan (raw :: raw' :: rest))
      with (if bufio.too_long raw then ([], Some ErrTooLong)
            else let '(lines, err) := bufio.scan (raw' :: rest) in
                 (bufio.dropCR raw :: lines, err)).
    destruct (bufio.too_long raw); [by right|].
    destruct (bufio.scan (raw' :: rest)) as [lines err]. exact IH.
Qed.

Lemma scan_fails_iff (raws : list string) :
  (bufio.scan raws).2 = Some ErrTooLong <->
  exists raw, raw ∈ raws /\ bufio.too_long raw = true.
Proof.
  induction raws as [|raw [|raw' rest] IH].
  - simpl. split; [done|]. by intros (raw & ?%elem_of_nil & _).
  - simpl. destruct (String.eqb_spec raw EmptyString) as [->|Hne].
    + simpl. split; [done|]. intros (raw & Hin & Hl).
      apply list_elem_of_singleton in Hin as ->. done.
    + destruct (bufio.too_long raw) eqn:Hl; simpl.
      * split; [|done]. intros _. exists raw. split; [apply list_elem_of_singleton|]; done.
      * split; [done|]. intros (r & Hin & Hl').
        apply list_elem_of_singleton in Hin as ->. congruence.
  - change (bufio.scan (raw :: raw' :: rest))
      with (if bufio.too_long raw then ([], Some ErrTooLong)
            else let '(lines, err) := bufio.scan (raw' :: rest) in
                 (bufio.dropCR raw :: lines, err)).
    destruct (bufio.too_long raw) eqn:Hl.
    + simpl. split; [|done]. intros _. exists raw. split; [left|done].
    + destruct (bufio.scan (raw' :: rest)) as [lines err]. simpl in *.
      rewrite IH. split.
      * intros (r & Hin & Hr). exists r. split; [by right|done].
      * intros (r & Hin & Hr). apply elem_of_cons in Hin as [->|Hin]; [congruence|].
        by exists r.
Qed.

(** X13: reading a mount table that can be opened, [getNFSMounts]
    fails only with [bufio.ErrTooLong], and exactly when one of the
    pieces of the content between line feeds is 64 KiB long or longer;
    [main] then stops with status 1 and without touching the history. *)
Theorem getNFSMounts_fails_iff_long_line (content : string) :
  ((getNFSMounts (inr content)).2 = None \/
   (getNFSMounts (inr content)).2 = Some ErrTooLong) /\
  ((getNFSMounts (inr content)).2 = Some ErrTooLong <->
   exists raw, raw ∈ strings.Split content LF /\ 65536 <= len raw) /\
  (forall env,
      proc_mounts env = inr content ->
      (getNFSMounts (inr content)).2 = Some ErrTooLong ->
      exit_code (main env) = 1 /\ write_call (main env) = None /\
      stdout (main env) = EmptyString).
Proof.
  assert (He : (getNFSMounts (inr content)).2 = (bufio.scan (strings.Split content LF)).2).
  { unfold getNFSMounts, bufio.ScanLines.
    by destruct (bufio.scan (strings.Split content LF)). }
  rewrite He. split; [apply scan_error|]. split.
  - rewrite scan_fails_iff. unfold bufio.too_long, bufio.MaxScanTokenSize.
    split; intros (raw & Hin & Hl); exists raw; (split; [done|]).
    + apply Z.geb_le in Hl. lia.
    + apply Z.geb_le. lia.
  - intros env Hpm Herr. rewrite <- He in Herr.
    destruct (main_cases env) as
      [(err & _ & ->)|[(p & ms & err & _ & _ & ->)|[(p & _ & Hm & _)|
       [(p & ms & e & _ & Hm & _)|(p & ms & _ & Hm & _)]]]];
      try done; rewrite Hpm in Hm; rewrite Hm in Herr; discriminate.
Qed.

(** ** [getDFBytes] on output of one line *)

Lemma Split_one_iff (s : string) (sep : ascii) :
  (List.length (strings.Split s sep) < 2)%nat <->
  forall a b, s <> a +:+ String sep b.
Proof.
  induction s as [|c s IH]; simpl.
  - split; [|lia]. intros _ [|? a] b; discriminate.
  - destruct (Ascii.eqb_spec c sep) as [->|Hne].
    + pose proof (Split_length s sep) as Hs. simpl. split; [lia|].
      intros Hno. by destruct (Hno EmptyString s).
    + assert (Hl : List.length (match strings.Split s sep with
                                | [] => [String c EmptyString]
                                | f :: fs => String c f :: fs
                                end) = List.length (strings.Split s sep)).
      { pose proof (Split_length s sep) as Hs.
        destruct (strings.Split s sep); [simpl in Hs; lia|done]. }
      rewrite Hl, IH. split.
      * intros Hno [|c' a] b; rewrite ?append_nil_l, ?append_cons; intros [= E1 E2]; [done|].
        by eapply Hno.
      * intros H a b ->. apply (H (String c a) b). by rewrite append_cons.
Qed.

(** X14: [getDFBytes] answers "unexpected df output" exactly when the
    output of the command has no line feed in it, the empty output
    included. *)
Theorem getDFBytes_needs_two_lines (out : string) :
  getDFBytes (inr out) = inl ErrDfOutput <->
  forall a b, out <> a +:+ String LF b.
Proof.
  rewrite <- Split_one_iff. unfold getDFBytes. cbv zeta.
  destruct (Nat.ltb_spec (List.length (strings.Split out LF)) 2) as [Hlt|Hge].
  - split; done.
  - split; [|lia].
    destruct (List.length (Fields.Fields _) <? 3)%nat; [discriminate|].
    destruct (strconv.ParseInt _); discriminate.
Qed.

(** ** [getDFBytes] on wrapped output *)

(** The text with every line feed turned into a space. *)
Definition unwrap_byte (c : ascii) : ascii := if Ascii.eqb c LF then SP else c.

Fixpoint unwrap (s : string) : string :=
  match s with
  | EmptyString => EmptyString
  | String c s' => String (unwrap_byte c) (unwrap s')
  end.

Section Unwrap.

Lemma Split_header (header rest : string) :
  (forall a b, header <> a +:+ String LF b) ->
  strings.Split (header +:+ String LF rest) LF = header :: strings.Split rest LF.
Proof.
  induction header as [|c h IH]; intros Hno.
  - rewrite append_nil_l. simpl. done.
  - rewrite append_cons. simpl.
    destruct (Ascii.eqb_spec c LF) as [->|Hne]; [by destruct (Hno EmptyString h)|].
    rewrite IH; [done|]. intros a b ->. apply (Hno (String c a) b). by rewrite append_cons.
Qed.

Lemma Join_Split_unwrap (s : string) :
  strings.Join (strings.Split s LF) " " = unwrap s.
Proof.
  induction s as [|c s IH]; [done|].
  cbn [strings.Split unwrap]. unfold unwrap_byte.
  pose proof (Split_length s LF) as Hl.
  destruct (Ascii.eqb c LF).
  - destruct (strings.Split s LF) as [|f fs] eqn:Hs; [simpl in Hl; lia|].
    change (strings.Join (EmptyString :: f :: fs) " ")
      with (EmptyString +:+ " " +:+ strings.Join (f :: fs) " ").
    by rewrite IH.
  - destruct (strings.Split s LF) as [|f fs] eqn:Hs; [simpl in Hl; lia|].
    rewrite <- IH. destruct fs as [|f' fs]; [done|].
    change (strings.Join (String c f :: f' :: fs) " ")
      with (String c f +:+ " " +:+ strings.Join (f' :: fs) " ").
    change (strings.Join (f :: f' :: fs) " ")
      with (f +:+ " " +:+ strings.Join (f' :: fs) " ").
    by rewrite append_cons.
Qed.

Lemma all_ascii_unwrap (s : string) : Fields.all_ascii (unwrap s) = Fields.all_ascii s.
Proof.
  induction s as [|c s IH]; [done|]. simpl. rewrite IH. unfold unwrap_byte.
  by destruct (Ascii.eqb_spec c LF) as [->|].
Qed.

Lemma fields_ascii_unwrap (s : string) : forall cur,
  Fields.fields_ascii (unwrap s) cur = Fields.fields_ascii s cur.
Proof.
  induction s as [|c s IH]; intros cur; [done|]. simpl. unfold unwrap_byte.
  destruct (Ascii.eqb_spec c LF) as [->|]; [|by rewrite !IH].
  change (Fields.asciiSpace SP) with true. change (Fields.asciiSpace LF) with true.
  by rewrite IH.
Qed.

Lemma first_lo p0 sz lo hi : utf8.first p0 = utf8.LeadSeq sz lo hi -> 128 <= lo.
Proof.
  unfold utf8.first, utf8.locb.
  repeat (match goal with |- context [if ?b then _ else _] => destruct b end);
    intros [= <- <- <-]; lia.
Qed.

Lemma unwrap_byte_test c lo hi :
  128 <= lo ->
  ((byte_val (unwrap_byte c) <? lo) || (hi <? byte_val (unwrap_byte c)))
  = ((byte_val c <? lo) || (hi <? byte_val c)).
Proof.
  intros Hlo. unfold unwrap_byte. destruct (Ascii.eqb_spec c LF) as [->|]; [|done].
  change (byte_val SP) with 32. change (byte_val LF) with 10.
  destruct (Z.ltb_spec 32 lo); [|lia]. destruct (Z.ltb_spec 10 lo); [|lia]. done.
Qed.

Lemma unwrap_byte_cont c :
  utf8.cont (byte_val (unwrap_byte c)) = utf8.cont (byte_val c).
Proof. unfold unwrap_byte. by destruct (Ascii.eqb_spec c LF) as [->|]. Qed.

Lemma unwrap_byte_passed c lo hi :
  128 <= lo -> ((byte_val c <? lo) || (hi <? byte_val c)) = false -> unwrap_byte c = c.
Proof.
  intros Hlo H. unfold unwrap_byte. destruct (Ascii.eqb_spec c LF) as [->|]; [|done].
  change (byte_val LF) with 10 in H. destruct (Z.ltb_spec 10 lo); [done|lia].
Qed.

Lemma unwrap_byte_is_cont c : utf8.cont (byte_val c) = true -> unwrap_byte c = c.
Proof.
  unfold unwrap_byte. destruct (Ascii.eqb_spec c LF) as [->|]; [|done]. discriminate.
Qed.

Lemma decode_seq_unwrap sz lo hi p0 (s : string) :
  128 <= lo ->
  utf8.decode_seq sz lo hi p0 (unwrap s) = utf8.decode_seq sz lo hi p0 s.
Proof.
  intros Hlo. unfold utf8.decode_seq.
  destruct s as [|c1 s]; [done|]. cbn [unwrap].
  rewrite unwrap_byte_test by done.
  destruct ((byte_val c1 <? lo) || (hi <? byte_val c1)) eqn:H1; [done|].
  rewrite (unwrap_byte_passed c1 lo hi) by done.
  destruct (sz <=? 2)%nat; [done|].
  destruct s as [|c2 s]; [done|]. cbn [unwrap].
  rewrite unwrap_byte_cont.
  destruct (utf8.cont (byte_val c2)) eqn:H2; [|done]. cbn [negb].
  rewrite (unwrap_byte_is_cont c2) by done.
  destruct (sz <=? 3)%nat; [done|].
  destruct s as [|c3 s]; [done|]. cbn [unwrap].
  rewrite unwrap_byte_cont.
  destruct (utf8.cont (byte_val c3)) eqn:H3; [|done]. cbn [negb].
  by rewrite (unwrap_byte_is_cont c3).
Qed.

Lemma decode_unwrap c s :
  c <> LF ->
  utf8.DecodeRuneInString (String c (unwrap s)) = utf8.DecodeRuneInString (String c s).
Proof.
  intros Hc. unfold utf8.DecodeRuneInString.
  destruct (utf8.first (byte_val c)) as [| |sz lo hi] eqn:Hf; [done|done|].
  apply decode_seq_unwrap. by eapply first_lo.
Qed.

Lemma unwrap_drop n : forall s, string_drop n (unwrap s) = unwrap (string_drop n s).
Proof. induction n as [|n IH]; intros [|c s]; simpl; try done. Qed.

Lemma unwrap_take n : forall s, string_take n (unwrap s) = unwrap (string_take n s).
Proof. induction n as [|n IH]; intros [|c s]; simpl; try done. by rewrite IH. Qed.

Lemma unwrap_all_high s : all_high s = true -> unwrap s = s.
Proof.
  induction s as [|c s IH]; [done|]. simpl. intros [Hc Hs]%andb_prop.
  rewrite IH by done. f_equal. unfold unwrap_byte.
  destruct (Ascii.eqb_spec c LF) as [->|]; [discriminate|done].
Qed.

Lemma unwrap_not_LF c : c <> LF -> unwrap_byte c = c.
Proof. intros H. unfold unwrap_byte. by destruct (Ascii.eqb_spec c LF). Qed.

Lemma decode_LF s : utf8.DecodeRuneInString (String LF s) = (10, 1%nat).
Proof. done. Qed.

Lemma decode_SP s : utf8.DecodeRuneInString (String SP s) = (32, 1%nat).
Proof. done. Qed.

Lemma FieldsFunc_unwrap (s : string) : forall cur,
  Fields.FieldsFunc_loop unicode.IsSpace (utf8.runes (unwrap s)) cur
  = Fields.FieldsFunc_loop unicode.IsSpace (utf8.runes s) cur.
Proof.
  induction s as [|c s IH] using runes_ind; intros cur; [done|].
  cbn [unwrap]. rewrite !runes_cons.
  destruct (Ascii.eqb_spec c LF) as [->|Hne].
  - change (unwrap_byte LF) with SP. rewrite decode_SP. rewrite decode_LF in IH |- *.
    cbn [fst snd string_drop string_take Fields.FieldsFunc_loop].
    change (unicode.IsSpace 32) with true. change (unicode.IsSpace 10) with true.
    cbn [string_drop] in IH. by rewrite IH.
  - rewrite (unwrap_not_LF c Hne). rewrite decode_unwrap by done.
    pose proof (decode_spec c s) as Hd.
    destruct (utf8.DecodeRuneInString (String c s)) as [r n] eqn:Hdec.
    cbn [fst snd] in *.
    assert (Hdrop : string_drop n (String c (unwrap s)) = unwrap (string_drop n (String c s))).
    { change (String c (unwrap s)) with (String c (unwrap s)).
      destruct n as [|n]; [simpl; by rewrite (unwrap_not_LF c Hne)|].
      simpl. apply unwrap_drop. }
    assert (Htake : string_take n (String c (unwrap s)) = string_take n (String c s)).
    { destruct n as [|n]; [done|]. simpl. f_equal. rewrite unwrap_take.
      unfold decoded in Hd.
      destruct Hd as [(Hn & _)|[(Hn & _)|(Hn & _ & _ & _ & Hhigh & _)]].
      - injection Hn as ->. by destruct s.
      - injection Hn as ->. by destruct s.
      - simpl in Hhigh. apply andb_prop in Hhigh as [_ Hhigh]. by apply unwrap_all_high. }
    rewrite Hdrop, Htake. cbn [Fields.FieldsFunc_loop].
    destruct (unicode.IsSpace r); by rewrite IH.
Qed.

Lemma Fields_unwrap (s : string) : Fields.Fields (unwrap s) = Fields.Fields s.
Proof.
  unfold Fields.Fields, Fields.FieldsFunc. rewrite all_ascii_unwrap.
  destruct (Fields.all_ascii s); [apply fields_ascii_unwrap|apply FieldsFunc_unwrap].
Qed.

End Unwrap.

(** X15: the header line is dropped and the line feeds after it count
    as white space: the fields [getDFBytes] reads are the white-space
    separated fields of everything after the first line feed, so a
    report that [df] wrapped after a long device name is read like the
    unwrapped one. *)
Theorem getDFBytes_line_breaks_are_spaces (header rest : string) :
  (forall a b, header <> a +:+ String LF b) ->
  df_fields (header +:+ String LF rest) = Fields.Fields rest /\
  df_fields (header +:+ String LF rest) = df_fields (header +:+ String LF (unwrap rest)) /\
  getDFBytes (inr (header +:+ String LF rest)) =
    match Fields.Fields rest with
    | _ :: _ :: used :: _ =>
        match strconv.ParseInt used with
        | inl e => inl (ErrDfParse e used)
        | inr usedBytes => inr usedBytes
        end
    | _ => inl ErrDfFormat
    end.
Proof.
  intros Hno.
  assert (Hf : forall r, df_fields (header +:+ String LF r) = Fields.Fields r).
  { intros r. unfold df_fields. rewrite Split_header by done. cbn [tail].
    rewrite Join_Split_unwrap. apply Fields_unwrap. }
  split; [apply Hf|]. split; [by rewrite !Hf, Fields_unwrap|].
  rewrite getDFBytes_eq. unfold df_used_field. rewrite Hf.
  rewrite Split_header by done.
  pose proof (Split_length rest LF) as Hl.
  destruct (Fields.Fields rest) as [|f0 [|f1 [|f2 fs]]]; simpl;
    try (destruct (strings.Split rest LF); [simpl in Hl; lia|done]).
Qed.

Lemma getDFBytes_line_breaks_are_spaces_witness :
  df_fields (df_header +:+ String LF
               ("srv:/export/a/very/long/name" +:+ endl +:+ "   1000 250 750 25% /mnt/a" +:+ endl))
  = Fields.Fields ("srv:/export/a/very/long/name" +:+ endl +:+ "   1000 250 750 25% /mnt/a" +:+ endl).
Proof.
  refine (proj1 (getDFBytes_line_breaks_are_spaces df_header
                   ("srv:/export/a/very/long/name" +:+ endl
                    +:+ "   1000 250 750 25% /mnt/a" +:+ endl) _)).
  apply Split_one_iff. vm_compute. lia.
Defined.

(** ** Rounding in [formatBytes] *)

Section Rounding.

Lemma round_half_even_zero n d :
  0 <= n -> 2 * n < d -> float64.round_half_even n d = 0.
Proof.
  intros Hn Hd. unfold float64.round_half_even. cbv zeta.
  rewrite Z.mod_small, Z.div_small by lia.
  destruct (Z.ltb_spec (2 * n) d); [done|lia].
Qed.

Lemma round_half_even_up n d q :
  0 < d -> q * d <= n < (q + 1) * d -> d < 2 * (n - q * d) ->
  float64.round_half_even n d = q + 1.
Proof.
  intros Hd Hq Hr. unfold float64.round_half_even. cbv zeta.
  assert (Hdiv : n / d = q) by (symmetry; apply (Z.div_unique n d q (n - q * d)); lia).
  assert (Hmod : n mod d = n - q * d) by (symmetry; apply (Z.mod_unique n d q); lia).
  rewrite Hdiv, Hmod.
  destruct (Z.ltb_spec (2 * (n - q * d)) d); [lia|].
  destruct (Z.gtb_spec (2 * (n - q * d)) d); [done|lia].
Qed.

Lemma formatBytes_GiB_hundredths bytes :
  - 2 ^ 53 < bytes < 2 ^ 40 ->
  formatBytes bytes =
    (if bytes <? 0 then "-" else EmptyString)
      +:+ strconv.FormatUint (float64.round_half_even (Z.abs bytes * 100) (2 ^ 30) / 100)
      +:+ "." +:+ float64.two_digits (float64.round_half_even (Z.abs bytes * 100) (2 ^ 30) mod 100)
      +:+ " GiB".
Proof.
  intros Hb. unfold formatBytes, TiB, GiB.
  destruct (Z.geb_spec bytes (1024 * (1024 * 1024 * 1024))); [lia|].
  unfold float64.of_int. cbv zeta.
  destruct (Z.ltb_spec (Z.abs bytes) (2 ^ 53)); [|lia].
  unfold float64.div_pow2, float64.Sprintf_2f. cbn [float64.mant float64.expo]. cbv zeta.
  change (Z.max (0 - 30) 0) with 0. change (Z.max (- (0 - 30)) 0) with 30.
  change (2 ^ 0) with 1. rewrite Z.mul_1_r.
  by rewrite !append_assoc.
Qed.

End Rounding.

(** X16: amounts of up to 5368709 bytes are shown as zero: [formatBytes]
    gives [0.00 GiB] for such a count and [-0.00 GiB] for its negative,
    and [formatDiff] gives [+0.00 GiB] and [-0.00 GiB]; and a count in
    the last 5368709 bytes below 2^40 is shown as [1024.00 GiB], not in
    TiB. *)
Theorem formatBytes_rounding_edges (bytes : Z) :
  (0 <= bytes <= 5368709 ->
   formatBytes bytes = "0.00 GiB" /\ formatDiff bytes = "+0.00 GiB") /\
  (-5368709 <= bytes < 0 ->
   formatBytes bytes = "-0.00 GiB" /\ formatDiff bytes = "-0.00 GiB") /\
  (2 ^ 40 - 5368709 <= bytes < 2 ^ 40 -> formatBytes bytes = "1024.00 GiB").
Proof.
  assert (Hz : forall b, 0 <= b <= 5368709 -> formatBytes b = "0.00 GiB").
  { intros b Hb. rewrite formatBytes_GiB_hundredths by lia.
    rewrite Z.abs_eq by lia.
    rewrite round_half_even_zero by (change (2 ^ 30) with 1073741824; lia).
    destruct (Z.ltb_spec b 0); [lia|]. reflexivity. }
  split; [|split].
  - intros Hb. split; [by apply Hz|].
    unfold formatDiff. destruct (Z.geb_spec bytes 0); [|lia]. by rewrite Hz.
  - intros Hb. split.
    + rewrite formatBytes_GiB_hundredths by lia.
      rewrite Z.abs_neq by lia.
      rewrite round_half_even_zero by (change (2 ^ 30) with 1073741824; lia).
      destruct (Z.ltb_spec bytes 0); [|lia]. reflexivity.
    + unfold formatDiff. destruct (Z.geb_spec bytes 0); [lia|].
      rewrite neg64_exact by (unfold min_int64, max_int64; lia).
      by rewrite Hz by lia.
  - intros Hb. change (2 ^ 40) with 1099511627776 in Hb.
    rewrite formatBytes_GiB_hundredths by (change (2 ^ 40) with 1099511627776; lia).
    rewrite Z.abs_eq by lia.
    rewrite (round_half_even_up _ _ 102399)
      by (change (2 ^ 30) with 1073741824; lia).
    destruct (Z.ltb_spec bytes 0); [lia|]. reflexivity.
Qed.

(** ** A history file with nothing in it *)

Fixpoint blank (data : string) : bool :=
  match data with
  | EmptyString => true
  | String c data' => json.is_space c && blank data'
  end.

(** X17: a history file that is empty or holds only white space is an
    error of syntax for [loadEntries], and not the error of a file that
    is not there: [main] does not take it for an empty history. *)
Theorem loadEntries_blank_file (data : string) :
  blank data = true ->
  loadEntries (inr data) = (None, Some ErrJsonSyntax) /\
  IsNotExist ErrJsonSyntax = false.
Proof.
  intros Hb. split; [|done].
  assert (Hs : json.skip_space data = EmptyString).
  { induction data as [|c data IH]; [done|]. simpl in Hb |- *.
    apply andb_prop in Hb as [Hc Hd]. rewrite Hc. by apply IH. }
  unfold loadEntries, json.Unmarshal, json.parse. rewrite Hs. rewrite parse_value_S. done.
Qed.

Lemma loadEntries_blank_file_witness :
  loadEntries (inr (" " +:+ endl)) = (None, Some ErrJsonSyntax) /\
  IsNotExist ErrJsonSyntax = false.
Proof. apply (loadEntries_blank_file (" " +:+ endl)). reflexivity. Defined.

(** ** The layout of [printCurrent] *)

Section CurrentLayout.

Lemma maxMountWidth_loop_spec it : forall w0,
  w0 <= maxMountWidth_loop it w0 /\
  (forall kv, kv ∈ it -> len kv.1 <= maxMountWidth_loop it w0) /\
  (maxMountWidth_loop it w0 = w0 \/
   exists kv, kv ∈ it /\ maxMountWidth_loop it w0 = len kv.1).
Proof.
  induction it as [|[mount bytes] it IH]; intros w0; simpl.
  - split; [lia|]. split; [by intros kv ?%elem_of_nil|by left].
  - destruct (IH (if len mount >? w0 then len mount else w0)) as (Hle & Hall & Hatt).
    destruct (Z.gtb_spec (len mount) w0) as [Hgt|Hngt].
    + split; [lia|]. split.
      * intros kv [->|Hin]%elem_of_cons; [simpl; lia|by apply Hall].
      * right. destruct Hatt as [->|(kv & Hin & ->)].
        -- exists (mount, bytes). split; [left|done].
        -- exists kv. split; [by right|done].
    + split; [lia|]. split.
      * intros kv [->|Hin]%elem_of_cons; [simpl; lia|by apply Hall].
      * destruct Hatt as [->|(kv & Hin & ->)]; [by left|].
        right. exists kv. split; [by right|done].
Qed.

Lemma concat_cons_empty (x : string) (l : list string) :
  String.concat EmptyString (x :: l) = x +:+ String.concat EmptyString l.
Proof. destruct l; simpl; [by rewrite append_nil_r|done]. Qed.

Lemma printCurrent_loop_concat it W :
  printCurrent_loop it W =
    String.concat EmptyString
      (map (fun kv => fmt.pad_right W kv.1 +:+ "  " +:+ formatBytes kv.2 +:+ endl) it).
Proof.
  induction it as [|[mount bytes] it IH]; [done|].
  cbn [printCurrent_loop map]. rewrite IH. cbn [fst snd].
  rewrite concat_cons_empty. by rewrite !append_assoc.
Qed.

Lemma decode_ascii c s :
  byte_val c < 128 -> utf8.DecodeRuneInString (String c s) = (byte_val c, 1%nat).
Proof.
  intros Hc. unfold utf8.DecodeRuneInString, utf8.first.
  destruct (Z.ltb_spec (byte_val c) 128); [done|lia].
Qed.

Lemma RuneCount_ascii s :
  Fields.all_ascii s = true -> utf8.RuneCountInString s = String.length s.
Proof.
  unfold utf8.RuneCountInString.
  induction s as [|c s IH]; [done|]. simpl. intros [Hc Hs]%andb_prop.
  apply Z.ltb_lt in Hc. unfold utf8.RuneSelf in Hc.
  rewrite runes_cons, decode_ascii by done. cbn [fst snd string_drop List.length].
  by rewrite IH.
Qed.

Lemma Repeat_length c n : String.length (strings.Repeat (String c EmptyString) n) = n.
Proof.
  induction n as [|n IH]; [done|].
  cbn [strings.Repeat]. rewrite append_cons, append_nil_l. cbn [String.length]. by rewrite IH.
Qed.

Lemma pad_right_ascii W s :
  Fields.all_ascii s = true -> len s <= W <= 1000000 ->
  fmt.pad_right W s = s +:+ strings.Repeat " " (Z.to_nat (W - len s)) /\
  len (fmt.pad_right W s) = W.
Proof.
  intros Ha Hw. unfold fmt.pad_right, fmt.tooLarge, fmt.writePadding.
  assert (0 <= len s) by (unfold len; lia).
  destruct (Z.gtb_spec W 1000000); [lia|]. destruct (Z.ltb_spec W (-1000000)); [lia|].
  cbn [orb]. rewrite RuneCount_ascii by done. fold (len s). split; [done|].
  unfold len in *. rewrite append_length, Repeat_length. lia.
Qed.

End CurrentLayout.

(** X18: [printCurrent] writes one line for each entry its second
    loop visits and then the line of the total. The width of the first
    column is the length in bytes of the longest mount name, and at
    least that of the word [total]; it does not depend on the order of
    the first loop. For names of ASCII characters (and a width that
    [fmt] accepts) every first column is the name followed by spaces up
    to exactly that width, so the values start in the same column. *)
Theorem printCurrent_layout (it1 it2 : list (string * Z)) (entry : UsageEntry) :
  it1 ≡ₚ it2 ->
  let W := maxMountWidth_loop it1 (len "total") in
  (len "total" <= W /\
   (forall kv, kv ∈ it2 -> len kv.1 <= W) /\
   (W = len "total" \/ exists kv, kv ∈ it2 /\ W = len kv.1)) /\
  W = maxMountWidth_loop it2 (len "total") /\
  printCurrent it1 it2 entry =
    String.concat EmptyString
      (map (fun kv => fmt.pad_right W kv.1 +:+ "  " +:+ formatBytes kv.2 +:+ endl) it2)
    +:+ fmt.pad_right W "total" +:+ "  " +:+ formatBytes (Total entry) +:+ endl /\
  (W <= 1000000 ->
   forall mount,
     mount = "total" \/ (exists bytes, (mount, bytes) ∈ it2) ->
     Fields.all_ascii mount = true ->
     fmt.pad_right W mount = mount +:+ strings.Repeat " " (Z.to_nat (W - len mount)) /\
     len (fmt.pad_right W mount) = W).
Proof.
  intros Hperm W.
  destruct (maxMountWidth_loop_spec it1 (len "total")) as (H5 & Hall & Hatt). fold W in H5, Hall, Hatt.
  destruct (maxMountWidth_loop_spec it2 (len "total")) as (H5' & Hall' & Hatt').
  assert (Hall2 : forall kv, kv ∈ it2 -> len kv.1 <= W).
  { intros kv Hin. apply Hall. by rewrite Hperm. }
  assert (Hatt2 : W = len "total" \/ exists kv, kv ∈ it2 /\ W = len kv.1).
  { destruct Hatt as [?|(kv & Hin & ?)]; [by left|]. right. exists kv. by rewrite <- Hperm. }
  split; [done|]. split; [|split].
  - destruct Hatt2 as [HW|(kv & Hin & HW)], Hatt' as [HW'|(kv' & Hin' & HW')].
    + lia.
    + specialize (Hall2 kv' Hin'). lia.
    + specialize (Hall' kv Hin). lia.
    + specialize (Hall2 kv' Hin'). specialize (Hall' kv Hin). lia.
  - unfold printCurrent. cbv zeta. fold W. rewrite printCurrent_loop_concat. done.
  - intros HW mount Hm Ha. apply pad_right_ascii; [done|]. split; [|done].
    destruct Hm as [->|(bytes & Hin)]; [done|]. exact (Hall2 (mount, bytes) Hin).
Qed.

Lemma printCurrent_layout_witness :
  printCurrent (reverse (map_to_list (entries_of (Mounts c7_current))))
               (map_to_list (entries_of (Mounts c7_current))) c7_current
  = "/mnt/a  2.00 GiB" +:+ endl +:+ "/mnt/b  1.00 GiB" +:+ endl +:+ "total   3.00 GiB" +:+ endl.
Proof.
  pose proof (printCurrent_layout (reverse (map_to_list (entries_of (Mounts c7_current))))
                (map_to_list (entries_of (Mounts c7_current))) c7_current
                (reverse_Permutation _)) as H.
  cbv zeta in H. destruct H as (_ & _ & -> & _). vm_compute. reflexivity.
Defined.
